(** * Flash-loan arbitrage bot: opportunity-discovery pipeline

    A shallow embedding of the JavaScript sources
      - [src/bot/utils/pathGenerator.js]   (class [PathGenerator]),
      - [src/bot/utils/priceFetcher.js]    (classes [PriceFetcher], [ArbitrageBot],
                                            and the token configuration tables),
      - [src/App.tsx], second document     (class [ArbitrageScanner]),
      - [src/bot/utils/flashLoanExecutor.js] (the helpers of
                                            [FlashLoanExecutor] that do not
                                            touch the chain),
    followed by the properties of the specification that concern them, and
    by further properties of the same code.

    Numbers.  [BigNumber] values and JavaScript numbers are both modelled by
    the type [num]: an exact rational, or one of the three non-finite values
    [Infinity], [-Infinity], [NaN].  [BigNumber.div] rounds to 20 decimal
    places (half up) as the library does with its default configuration.
    Where the source turns a [BigNumber] into a JavaScript number, with
    [toNumber()] or by comparing it with [<], the value is rounded to the
    nearest binary64 number ([Num.toNumber]), and a number is the rational
    its binary64 value denotes; a number that is only ever handed to a
    [BigNumber] method, which reads it through its decimal text, is the
    decimal of the source.  The confidence score is computed with
    JavaScript numbers: each [+], [-] and [*] gives the exact result rounded
    to the nearest number ([Num.js_add], [Num.js_sub], [Num.js_mul]).  The
    other arithmetic of JavaScript numbers is on integers (hop and token
    counts, gas units, path scores, counters, delays) and is modelled in
    [Z], without rounding; the sign of zero is not modelled.  Finite values
    are kept in lowest terms, so two equal numbers are equal terms.

    Objects.  A lookup [o[k]] on an object literal also finds the members
    of [Object.prototype] ([constructor], [toString], ...): [Config.property]
    is that lookup, [Config.get] the lookup of an own property. *)

From Stdlib Require Import ZArith QArith Qabs Qpower Lqa Lia List Bool Ascii String
  Permutation.
From stdpp Require Import gmap strings list pretty sorting.
Import ListNotations.

Local Open Scope Z_scope.

(* ===================================================================== *)
(** * Numbers *)
(* ===================================================================== *)

Module Num.

Inductive num : Type :=
| Fin (q : Q)
| PInf
| NInf
| NaN.

(** A finite value, in lowest terms. *)
Definition fin (q : Q) : num := Fin (Qred q).

Definition ofZ (z : Z) : num := Fin (inject_Z z).

Definition Qltb (a b : Q) : bool := negb (Qle_bool b a).

Definition neg (x : num) : num :=
  match x with
  | Fin a => fin (- a)
  | PInf => NInf
  | NInf => PInf
  | NaN => NaN
  end.

Definition add (x y : num) : num :=
  match x, y with
  | NaN, _ | _, NaN => NaN
  | Fin a, Fin b => fin (a + b)
  | PInf, NInf | NInf, PInf => NaN
  | PInf, _ | _, PInf => PInf
  | NInf, _ | _, NInf => NInf
  end.

Definition sub (x y : num) : num :=
  match x, y with
  | NaN, _ | _, NaN => NaN
  | Fin a, Fin b => fin (a - b)
  | PInf, PInf | NInf, NInf => NaN
  | PInf, _ | _, NInf => PInf
  | NInf, _ | _, PInf => NInf
  end.

(** Sign of a number that is not [NaN]: [Lt], [Eq] (zero) or [Gt]. *)
Definition sign (x : num) : comparison :=
  match x with
  | Fin a => Qcompare a 0
  | PInf => Gt
  | NInf => Lt
  | NaN => Eq
  end.

Definition inf_of_sign (s t : comparison) : num :=
  match s, t with
  | Eq, _ | _, Eq => NaN
  | Gt, Gt | Lt, Lt => PInf
  | _, _ => NInf
  end.

Definition mul (x y : num) : num :=
  match x, y with
  | NaN, _ | _, NaN => NaN
  | Fin a, Fin b => fin (a * b)
  | _, _ => inf_of_sign (sign x) (sign y)
  end.

(** Exact quotient; a zero divisor gives [NaN] for [0 / 0] and an infinity
    of the sign of the dividend otherwise. *)
Definition div (x y : num) : num :=
  match x, y with
  | NaN, _ | _, NaN => NaN
  | Fin a, Fin b =>
      if Qeq_bool b 0 then
        match Qcompare a 0 with Eq => NaN | Gt => PInf | Lt => NInf end
      else fin (a / b)
  | Fin _, _ => Fin 0
  | _, Fin b =>
      match Qcompare b 0 with
      | Lt => neg x
      | _ => x
      end
  | _, _ => NaN
  end.

Definition abs (x : num) : num :=
  match x with
  | Fin a => fin (Qabs a)
  | PInf | NInf => PInf
  | NaN => NaN
  end.

(** [x < y]; every comparison with [NaN] is false. *)
Definition ltb (x y : num) : bool :=
  match x, y with
  | NaN, _ | _, NaN => false
  | Fin a, Fin b => Qltb a b
  | NInf, NInf | PInf, _ | _, NInf => false
  | _, _ => true
  end.

Definition gtb (x y : num) : bool := ltb y x.

(** [Math.max(a, b)] and [Math.min(a, b)]. *)
Definition max2 (x y : num) : num :=
  match x, y with
  | NaN, _ | _, NaN => NaN
  | _, _ => if ltb x y then y else x
  end.

Definition min2 (x y : num) : num :=
  match x, y with
  | NaN, _ | _, NaN => NaN
  | _, _ => if ltb y x then y else x
  end.

(** [Math.max(...xs)]: [-Infinity] on the empty list. *)
Definition maxList (xs : list num) : num := fold_left max2 xs NInf.

(** ** BigNumber division: [DECIMAL_PLACES = 20], [ROUND_HALF_UP] *)

Definition DECIMAL_PLACES : Z := 20.

Definition round_half_up (q : Q) : Q :=
  let s := 10 ^ DECIMAL_PLACES in
  let n := Z.abs (Qnum q) * s in
  let d := Zpos (Qden q) in
  Qmake (Z.sgn (Qnum q) * ((2 * n + d) / (2 * d))) (Z.to_pos s).

Definition bn_div (x y : num) : num :=
  match div x y with
  | Fin q => fin (round_half_up q)
  | r => r
  end.

Definition isFinite (x : num) : bool :=
  match x with Fin _ => true | _ => false end.

(** ** Conversion to a JavaScript number: binary64, ties to even *)

(** [floor (log2 (n / d))] *)
Definition ilog2 (n d : positive) : Z :=
  let k := Z.log2 (Zpos n) - Z.log2 (Zpos d) in
  if Zpos d * 2 ^ Z.max 0 k <=? Zpos n * 2 ^ Z.max 0 (- k) then k else k - 1.

(** The integer nearest to [a / b], the even one of two equally near. *)
Definition round_half_even (a b : Z) : Z :=
  let q := a / b in
  match 2 * (a mod b) ?= b with
  | Lt => q
  | Gt => q + 1
  | Eq => if Z.even q then q else q + 1
  end.

(** The binary64 value nearest to [n / d]: a multiple [m * 2 ^ ulp] of the
    unit in the last place of its binade, 53 bits wide; below [2 ^ -1022]
    the unit stays [2 ^ -1074]; from [2 ^ 1024] on the value is
    [Infinity]. *)
Definition binary64 (n d : positive) : num :=
  let e := Z.max (ilog2 n d) (-1022) in
  let ulp := e - 52 in
  let m := round_half_even (Zpos n * 2 ^ Z.max 0 (- ulp))
                           (Zpos d * 2 ^ Z.max 0 ulp) in
  if 2 ^ 1024 * 2 ^ Z.max 0 (- ulp) <=? m * 2 ^ Z.max 0 ulp then PInf
  else fin (Qmake (m * 2 ^ Z.max 0 ulp) (Z.to_pos (2 ^ Z.max 0 (- ulp)))).

(** [BigNumber.prototype.toNumber], also applied to a [BigNumber] operand
    of [<] and [>]. *)
Definition toNumber (x : num) : num :=
  match x with
  | Fin q =>
      match Qnum q with
      | Z0 => Fin 0
      | Zpos n => binary64 n (Qden q)
      | Zneg n => neg (binary64 n (Qden q))
      end
  | _ => x
  end.

(** The operators [+], [-] and [*] on JavaScript numbers: the exact
    result, rounded to the nearest number. *)
Definition js_add (x y : num) : num := toNumber (add x y).
Definition js_sub (x y : num) : num := toNumber (sub x y).
Definition js_mul (x y : num) : num := toNumber (mul x y).

(** A number is canonical when its finite value is in lowest terms; every
    operation returns canonical numbers. *)
Definition canonical (x : num) : Prop :=
  match x with
  | Fin q => Qred q = q
  | _ => True
  end.

End Num.

Import Num.

(* ===================================================================== *)
(** * Configuration tables ([dexConfig.js], [tokenConfig.js]) *)
(* ===================================================================== *)

(** JavaScript objects whose key order is observed ([Object.keys]) are
    association lists; objects that are only looked up are [gmap]s. *)

Module Config.

Inductive DexType := UniswapV2 | UniswapV3.

Record DexConfig := {
  dex_type : DexType;
  router : string;
  quoter : option string;
  fees : list Z
}.

Record TokenInfo := {
  address : string;
  decimals : Z;
  isStable : bool
}.

Definition v2 (r : string) : DexConfig :=
  {| dex_type := UniswapV2; router := r; quoter := None; fees := [] |}.

Definition v3 (r q : string) (fs : list Z) : DexConfig :=
  {| dex_type := UniswapV3; router := r; quoter := Some q; fees := fs |}.

Definition DEX_CONFIGS : list (string * DexConfig) :=
  [ ("PANCAKESWAP_V2", v2 "0x10ED43C718714eb63d5aA57B78B54704E256024E");
    ("PANCAKESWAP_V3", v3 "0x13f4EA83D0bd40E75C8222255bc855a974568Dd4"
                          "0xB048Bbc1Ee6b733FFfCFb9e9CeF7375518e25997"
                          [100; 500; 2500; 10000]);
    ("BISWAP", v2 "0x3a6d8cA21D1CF76F653A67577FA0D27453350dD8");
    ("MDEX", v2 "0x7DAe51BD3E3376B8c7c4900E9107f12Be3AF1bA8");
    ("UNISWAP_V3", v3 "0x68b3465833fb72A70ecDF485E0e4C7bD8665Fc45"
                      "0x78D78E420Da98ad378D7799bE8f4AF69033EB077"
                      [100; 500; 3000; 10000]);
    ("APESWAP", v2 "0xcF0feBd3f17CEf5b47b0cD257aCf6025c5BFf3b7") ]%string.

Definition tok (a : string) (st : bool) : TokenInfo :=
  {| address := a; decimals := 18; isStable := st |}.

Definition TOKEN_ADDRESSES : list (string * TokenInfo) :=
  [ ("WBNB", tok "0xbb4CdB9CBd36B01bD1cBaEBF2De08d9173bc095c" false);
    ("BTCB", tok "0x7130d2A12B9BCbFAe4f2634d864A1Ee1Ce3Ead9c" false);
    ("ETH",  tok "0x2170Ed0880ac9A755fd29B2688956BD959F933F8" false);
    ("USDT", tok "0x55d398326f99059fF775485246999027B3197955" true);
    ("USDC", tok "0x8AC76a51cc950d9822D68b83fE1Ad97B32Cd580d" true);
    ("CAKE", tok "0x0E09FaBB73Bd3Ade0a17ECC321fD13a19e81cE82" false) ]%string.

Definition TRADING_PAIRS : gmap string (list string) :=
  list_to_map
    [ ("WBNB", ["USDT"; "USDC"; "BTCB"; "ETH"; "CAKE"]);
      ("BTCB", ["WBNB"; "USDT"; "USDC"; "ETH"]);
      ("ETH",  ["WBNB"; "USDT"; "USDC"; "BTCB"]);
      ("USDT", ["WBNB"; "BTCB"; "ETH"; "USDC"; "CAKE"]);
      ("USDC", ["WBNB"; "BTCB"; "ETH"; "USDT"; "CAKE"]);
      ("CAKE", ["WBNB"; "USDT"; "USDC"]) ]%string.

(** [Object.keys(o)] *)
Definition keys {A : Type} (o : list (string * A)) : list string := map fst o.

(** The own property [k] of [o], [undefined] when [o] has none *)
Fixpoint get {A : Type} (o : list (string * A)) (k : string) : option A :=
  match o with
  | [] => None
  | (k', v) :: o' => if String.eqb k' k then Some v else get o' k
  end.

(** [xs.includes(x)] on an array of strings *)
Definition includes (xs : list string) (x : string) : bool :=
  existsb (String.eqb x) xs.

(** The names of the members of [Object.prototype], which every object
    literal inherits.  Each member is a function, except [__proto__], an
    accessor that yields [Object.prototype] itself; all of them are
    truthy. *)
Definition OBJECT_PROTOTYPE : list string :=
  [ "constructor"; "__defineGetter__"; "__defineSetter__"; "hasOwnProperty";
    "__lookupGetter__"; "__lookupSetter__"; "isPrototypeOf";
    "propertyIsEnumerable"; "toString"; "valueOf"; "__proto__";
    "toLocaleString" ]%string.

Definition inherited (k : string) : bool := includes OBJECT_PROTOTYPE k.

(** The text of a member, as [String(member)] and [member.toString()] give
    it: the source text of a built-in function as Node.js prints it, and
    for [__proto__] the text of a plain object.
    [Object.prototype.constructor] is the function [Object]. *)
Definition memberText (k : string) : string :=
  if String.eqb k "__proto__" then "[object Object]"
  else if String.eqb k "constructor" then "function Object() { [native code] }"
  else String.append "function " (String.append k "() { [native code] }").

(** What [o[k]] finds on an object literal [o]: a property of its own, a
    member of [Object.prototype] along the prototype chain, or nothing. *)
Inductive Property (A : Type) : Type :=
| Own (a : A)
| Inherited (member : string)
| Undefined.

Arguments Own {A} a.
Arguments Inherited {A} member.
Arguments Undefined {A}.

(** [o[k]] *)
Definition property {A : Type} (o : list (string * A)) (k : string)
  : Property A :=
  match get o k with
  | Some a => Own a
  | None => if inherited k then Inherited k else Undefined
  end.

(** A value read where one of type [A] is expected: that, or a member of
    [Object.prototype]. *)
Inductive Found (A : Type) : Type :=
| Value (a : A)
| Member (name : string).

Arguments Value {A} a.
Arguments Member {A} name.

(** [s.includes(t)] on strings: [t] occurs in [s] *)
Fixpoint str_includes (s t : string) : bool :=
  String.prefix t s ||
  match s with
  | EmptyString => false
  | String _ s' => str_includes s' t
  end.

(** [TRADING_PAIRS[asset] || []] *)
Definition tradingPairsOf (asset : string) : list string :=
  default [] (TRADING_PAIRS !! asset).

End Config.

Import Config.

(* ===================================================================== *)
(** * Path generator ([pathGenerator.js]) *)
(* ===================================================================== *)

Module PathGenerator.

Record Swap := {
  swap_index : nat;
  swap_tokenIn : option string;
  swap_tokenOut : option string;
  swap_dex : string;
  swap_dexConfig : option DexConfig
}.

Record Path := {
  id : string;
  tokens : list string;
  dexes : list string;
  hops : Z;
  flashLoanAsset : string;
  isCircular : bool;
  swaps : list Swap;
  estimatedComplexity : Z;
  liquidityScore : Z
}.

(** The object state of a [PathGenerator]. *)
Record t := {
  tokenAddresses : list (string * TokenInfo);
  dexConfigs : list (string * DexConfig);
  minHops : Z;
  maxHops : Z;
  generatedPaths : list Path;
  dexNames : list string;
  flashLoanAssets : list string
}.

(** [constructor(tokenAddresses, dexConfigs)] *)
Definition new (tokenAddresses : list (string * TokenInfo))
    (dexConfigs : list (string * DexConfig)) : t :=
  {| tokenAddresses := tokenAddresses;
     dexConfigs := dexConfigs;
     minHops := 2;
     maxHops := 10;
     generatedPaths := [];
     dexNames := keys dexConfigs;
     flashLoanAssets := keys tokenAddresses |}.

Definition set_generatedPaths (pg : t) (ps : list Path) : t :=
  {| tokenAddresses := tokenAddresses pg;
     dexConfigs := dexConfigs pg;
     minHops := minHops pg;
     maxHops := maxHops pg;
     generatedPaths := ps;
     dexNames := dexNames pg;
     flashLoanAssets := flashLoanAssets pg |}.

(** ** Path identifiers *)

(** [ToInt32] *)
Definition toInt32 (z : Z) : Z := (z + 2 ^ 31) mod 2 ^ 32 - 2 ^ 31.

Definition digit36 (d : Z) : Ascii.ascii :=
  nth (Z.to_nat d)
      (list_ascii_of_string "0123456789abcdefghijklmnopqrstuvwxyz")
      "0"%char.

(** [n.toString(36)] for [0 <= n < 36^7] *)
Fixpoint toString36_go (fuel : nat) (n : Z) (acc : string) : string :=
  match fuel with
  | O => acc
  | S fuel' =>
      let acc' := String (digit36 (n mod 36)) acc in
      if n / 36 =? 0 then acc' else toString36_go fuel' (n / 36) acc'
  end.

Definition toString36 (n : Z) : string := toString36_go 7 n EmptyString.

Definition simpleHash (str : string) : string :=
  let step (hash : Z) (c : Ascii.ascii) : Z :=
    toInt32 (toInt32 (hash * 32) - hash + Z.of_N (Ascii.N_of_ascii c)) in
  toString36 (Z.abs (fold_left step (list_ascii_of_string str) 0)).

(** [xs.join(sep)] *)
Definition join (sep : string) (xs : list string) : string :=
  String.concat sep xs.

(** The text both [generatePathId] and [removeDuplicatePaths] build:
    [`${tokens.join('-')}:${dexes.join('-')}`]. *)
Definition pathKey (tokenPath dexCombination : list string) : string :=
  String.append (join "-" tokenPath) (String.append ":" (join "-" dexCombination)).

Definition generatePathId (tokenPath dexCombination : list string) : string :=
  String.append "arb_" (simpleHash (pathKey tokenPath dexCombination)).

(** ** Venue assignment *)

(** [xs[i]] for an index that is in range at every use below. *)
Definition at_ (xs : list string) (i : nat) : string := nth i xs EmptyString.

Definition highLiquidityDexes : list string :=
  ["PANCAKESWAP_V2"; "PANCAKESWAP_V3"; "BISWAP"]%string.
Definition v2Dexes : list string :=
  ["PANCAKESWAP_V2"; "BISWAP"; "MDEX"; "APESWAP"]%string.
Definition v3Dexes : list string :=
  ["PANCAKESWAP_V3"; "UNISWAP_V3"]%string.

(** The inner loop [for j < swapCount: push(names[(i + j) % names.length])]. *)
Definition rotation (names : list string) (i swapCount : nat) : list string :=
  map (fun j => at_ names ((i + j) mod length names)%nat) (seq 0 swapCount).

Definition generateStrategicDexCombinations (pg : t) (swapCount : nat)
  : list (list string) :=
  let n := length (dexNames pg) in
  (* Strategy 1: a different DEX for each swap *)
  (if (swapCount <=? n)%nat
   then map (fun i => rotation (dexNames pg) i swapCount)
            (seq 0 (n - swapCount + 1))
   else [])
  (* Strategy 2: alternate between high-liquidity DEXes *)
  ++ map (fun i => rotation highLiquidityDexes i swapCount)
         (seq 0 (Nat.min 3 swapCount))
  (* Strategy 3: mixed V2/V3 combinations *)
  ++ (if (2 <=? swapCount)%nat
      then map (fun i =>
                  map (fun j => if (j mod 2 =? 0)%nat
                                then at_ v2Dexes (i mod length v2Dexes)%nat
                                else at_ v3Dexes (i mod length v3Dexes)%nat)
                      (seq 0 swapCount))
               (seq 0 (Nat.min 2 (swapCount - 1)))
      else [])
  (* Strategy 4: single DEX *)
  ++ [ repeat "PANCAKESWAP_V2"%string swapCount;
       repeat "PANCAKESWAP_V3"%string swapCount ].

Definition isPairLikelyToExist (tokenIn tokenOut : option string) (dex : string)
  : bool :=
  match tokenIn, tokenOut with
  | Some a, Some b => includes (tradingPairsOf a) b
  | _, _ => false
  end.

Definition validateDexCombination (tokenPath dexCombination : list string)
  : bool :=
  forallb (fun i => isPairLikelyToExist (tokenPath !! i) (tokenPath !! S i)
                                        (at_ dexCombination i))
          (seq 0 (length dexCombination)).

Definition generateSwapDetails (pg : t) (tokenPath dexCombination : list string)
  : list Swap :=
  map (fun i => {| swap_index := i;
                   swap_tokenIn := tokenPath !! i;
                   swap_tokenOut := tokenPath !! S i;
                   swap_dex := at_ dexCombination i;
                   swap_dexConfig := get (dexConfigs pg) (at_ dexCombination i) |})
      (seq 0 (length dexCombination)).

(** ** Scores *)

Definition count {A : Type} (f : A -> bool) (xs : list A) : Z :=
  Z.of_nat (length (filter (fun x => f x = true) xs)).

Definition calculateLiquidityScore (tokenPath : list string)
    (flashLoanAsset : string) : Z :=
  let highLiquidityTokens := ["WBNB"; "USDT"; "USDC"; "BTCB"; "ETH"]%string in
  let mediumLiquidityTokens := ["CAKE"]%string in
  let score :=
    fold_left (fun score token =>
                 if includes highLiquidityTokens token then score + 10
                 else if includes mediumLiquidityTokens token then score + 5
                 else score + 1)
              tokenPath 0 in
  let score := if includes highLiquidityTokens flashLoanAsset
               then score + 25 else score in
  let score := if includes tokenPath "WBNB" then score + 20 else score in
  let stablecoins := ["USDT"; "USDC"]%string in
  let stablecoinCount := count (includes stablecoins) tokenPath in
  let score := if 2 <=? stablecoinCount then score + 15 else score in
  let len := Z.of_nat (length tokenPath) in
  let score := if 6 <? len then score - (len - 6) * 5 else score in
  Z.max score 0.

Definition isV3 (pg : t) (dex : string) : bool :=
  match get (dexConfigs pg) dex with
  | Some c => match dex_type c with UniswapV3 => true | UniswapV2 => false end
  | None => false
  end.

Definition calculatePathComplexity (pg : t) (tokenPath dexCombination : list string)
  : Z :=
  let complexity := 0 in
  let complexity := complexity + (Z.of_nat (length tokenPath) - 1) * 10 in
  let uniqueDexes : gset string := list_to_set dexCombination in
  let complexity := complexity + Z.of_nat (size uniqueDexes) * 5 in
  let v3Count := count (isV3 pg) dexCombination in
  complexity + v3Count * 15.

(** ** Candidate paths for one closed token path *)

Definition opt_eqb (a b : option string) : bool :=
  match a, b with
  | Some x, Some y => String.eqb x y
  | None, None => true
  | _, _ => false
  end.

Definition generateDexCombinationsForPath (pg : t) (tokenPath : list string)
    (flashLoanAsset : string) : list Path :=
  let swapCount := (length tokenPath - 1)%nat in
  if negb (opt_eqb (head tokenPath) (last tokenPath)) then []
  else
    flat_map
      (fun dexCombination =>
         if validateDexCombination tokenPath dexCombination then
           [ {| id := generatePathId tokenPath dexCombination;
                tokens := tokenPath;
                dexes := dexCombination;
                hops := Z.of_nat swapCount;
                flashLoanAsset := flashLoanAsset;
                isCircular := true;
                swaps := generateSwapDetails pg tokenPath dexCombination;
                estimatedComplexity :=
                  calculatePathComplexity pg tokenPath dexCombination;
                liquidityScore :=
                  calculateLiquidityScore tokenPath flashLoanAsset |} ]
         else [])
      (generateStrategicDexCombinations pg swapCount).

(** ** Depth-first search

    [currentPath] and [visited] are mutated and restored around each
    recursive call in the source; here each call receives the extended
    values.  The result is the list of paths the call pushes onto
    [generatedPaths], in order.  Each recursive call increases
    [currentHops], and nothing happens once it exceeds [targetHops], so
    [fuel] above [targetHops - currentHops] is never exhausted. *)
Fixpoint dfsCircularPath (fuel : nat) (pg : t) (startAsset currentAsset : string)
    (currentPath : list string) (visited : gset string)
    (targetHops currentHops : Z) (availableTokens : list string) : list Path :=
  match fuel with
  | O => []
  | S fuel' =>
      if currentHops =? targetHops then
        if includes (tradingPairsOf currentAsset) startAsset
        then generateDexCombinationsForPath pg (currentPath ++ [startAsset]) startAsset
        else []
      else if currentHops <? targetHops then
        flat_map
          (fun nextAsset =>
             if String.eqb nextAsset startAsset && (currentHops <? targetHops - 1)
             then []
             else if bool_decide (nextAsset ∈ visited) then []
             else if (currentHops <? targetHops - 1)
                     && negb (includes availableTokens nextAsset)
                     && negb (String.eqb nextAsset startAsset)
             then []
             else dfsCircularPath fuel' pg startAsset nextAsset
                    (currentPath ++ [nextAsset]) ({[nextAsset]} ∪ visited)
                    targetHops (currentHops + 1) availableTokens)
          (tradingPairsOf currentAsset)
      else []
  end.

Definition generateCircularPathsWithHops (pg : t) (startAsset : string)
    (hopCount : Z) (availableTokens : list string) : list Path :=
  dfsCircularPath (S (Z.to_nat hopCount)) pg startAsset startAsset
                  [startAsset] ∅ hopCount 0 availableTokens.

Definition generateCircularPathsFromAsset (pg : t) (startAsset : string)
  : list Path :=
  let otherTokens :=
    filter (fun token => token ≠ startAsset) (flashLoanAssets pg) in
  flat_map (fun hopCount =>
              generateCircularPathsWithHops pg startAsset hopCount otherTokens)
           (seqZ (minHops pg) (maxHops pg - minHops pg + 1)).

(** ** Post-processing *)

Fixpoint removeDuplicatePaths_from (seen : gset string) (paths : list Path)
  : list Path :=
  match paths with
  | [] => []
  | path :: rest =>
      let key := pathKey (tokens path) (dexes path) in
      if bool_decide (key ∈ seen) then removeDuplicatePaths_from seen rest
      else path :: removeDuplicatePaths_from ({[key]} ∪ seen) rest
  end.

Definition removeDuplicatePaths (paths : list Path) : list Path :=
  removeDuplicatePaths_from ∅ paths.

(** The predicate of the quality filter. *)
Definition qualityPath (pg : t) (path : Path) : bool :=
  if negb (isCircular path)
     || negb (opt_eqb (head (tokens path)) (last (tokens path))) then false
  else if (hops path <? minHops pg) || (maxHops pg <? hops path) then false
  else if liquidityScore path <? 15 then false
  else if (size (list_to_set (dexes path) : gset string) <? 2)%nat
          && (3 <? hops path) then false
  else if negb (includes (flashLoanAssets pg) (flashLoanAsset path)) then false
  else true.

(** [liquidityScore / Math.sqrt(estimatedComplexity)], through the
    order-preserving map [x |-> sign(x) * x^2] so that it stays rational:
    [sqrt] of a negative number is [NaN], and a zero complexity divides by
    zero. *)
Definition sortScore (path : Path) : num :=
  let l := liquidityScore path in
  let c := estimatedComplexity path in
  if c <? 0 then NaN
  else if c =? 0 then
    (if 0 <? l then PInf else if l <? 0 then NInf else NaN)
  else fin (inject_Z (Z.sgn l * l * l) / inject_Z c).

(** The comparator [(a, b) => scoreB - scoreA] is positive: [b] goes first. *)
Definition comparatorPositive (a b : Path) : bool :=
  gtb (Num.sub (sortScore b) (sortScore a)) (Fin 0).

Fixpoint sortInsert (a : Path) (sorted : list Path) : list Path :=
  match sorted with
  | [] => [a]
  | b :: rest =>
      if comparatorPositive a b then b :: sortInsert a rest
      else a :: b :: rest
  end.

(** [Array.prototype.sort] with that comparator: a stable sort, descending
    in the score. *)
Definition sortPaths (paths : list Path) : list Path :=
  fold_right sortInsert [] paths.

Definition maxPathsPerAsset : nat := 200.

(** The grouping loop of [balanceFlashLoanAssetDistribution]. *)
Definition groupByAsset (paths : list Path) : gmap string (list Path) :=
  fold_left (fun assetPaths path =>
               <[ flashLoanAsset path :=
                    default [] (assetPaths !! flashLoanAsset path) ++ [path] ]>
                 assetPaths)
            paths ∅.

Definition balanceFlashLoanAssetDistribution (pg : t) (paths : list Path)
  : list Path :=
  let assetPaths := groupByAsset paths in
  flat_map (fun asset =>
              let pathsForAsset := default [] (assetPaths !! asset) in
              take maxPathsPerAsset pathsForAsset)
           (flashLoanAssets pg).

Definition filterAndOptimizePaths (pg : t) (paths : list Path) : list Path :=
  let uniquePaths := removeDuplicatePaths paths in
  let qualityPaths := filter (fun path => qualityPath pg path = true) uniquePaths in
  let sortedPaths := sortPaths qualityPaths in
  balanceFlashLoanAssetDistribution pg sortedPaths.

(** [generateAllPaths()]: the new state of the generator; the value returned
    to the caller is its [generatedPaths]. *)
Definition generateAllPaths (pg : t) : t :=
  let generated :=
    generatedPaths pg
    ++ flat_map (generateCircularPathsFromAsset pg) (flashLoanAssets pg) in
  set_generatedPaths pg (filterAndOptimizePaths pg generated).

(** [getPathsByFlashLoanAsset] and [getPathsForScanCycle] *)
Definition getPathsByFlashLoanAsset (pg : t) (asset : option string) : list Path :=
  filter (fun path => Some (flashLoanAsset path) = asset) (generatedPaths pg).

Definition getPathsForScanCycle (pg : t) (scanIndex : nat) : list Path :=
  let n := length (flashLoanAssets pg) in
  let assetIndex := (scanIndex mod n)%nat in
  let currentAsset := flashLoanAssets pg !! assetIndex in
  let assetPaths := getPathsByFlashLoanAsset pg currentAsset in
  let hopCycle := ((scanIndex / n) mod 4)%nat in
  let band (lo hi : Z) :=
    filter (fun p => lo <= hops p /\ hops p <= hi) assetPaths in
  let filteredPaths :=
    match hopCycle with
    | 0%nat => band 2 3
    | 1%nat => band 4 5
    | 2%nat => band 6 8
    | _ => band 9 10
    end in
  take 25 filteredPaths.

(** ** Statistics *)

(** [o[k] = (o[k] || 0) + 1] on a table [o] whose keys are numbers; no
    member of [Object.prototype] has a number as its name. *)
Definition increment (k : Z) (o : gmap Z Z) : gmap Z Z :=
  <[ k := default 0 (o !! k) + 1 ]> o.

(** An entry of a table whose keys are names: a count, or text, namely the
    text of a member of [Object.prototype] followed by a number of digits
    [1]. *)
Inductive Tally :=
| Count (n : Z)
| Text (member : string) (ones : nat).

(** [o[k] = (o[k] || 0) + 1] on a table [o] whose keys are names.  Where
    [o] has no entry of its own under [k] and [k] names a member of
    [Object.prototype], [o[k]] is that member, which is truthy, and [+]
    appends [1] to its text; adding [1] to text appends another [1].  The
    name [__proto__] is an accessor: it yields [Object.prototype], and
    assigning text to it changes nothing. *)
Definition incrementNamed (k : string) (o : gmap string Tally)
  : gmap string Tally :=
  if String.eqb k "__proto__" then o
  else
    match o !! k with
    | Some (Count n) => <[ k := Count (n + 1) ]> o
    | Some (Text member ones) => <[ k := Text member (S ones) ]> o
    | None =>
        if inherited k then <[ k := Text k 1 ]> o
        else <[ k := Count 1 ]> o
    end.

Record LiquidityBuckets := {
  high : Z;
  medium : Z;
  low : Z
}.

Record PathStatistics := {
  totalPaths : Z;
  byHops : gmap Z Z;
  byFlashLoanAsset : gmap string Tally;
  byDexUsage : gmap string Tally;
  byLiquidityScore : LiquidityBuckets;
  averageComplexity : num;
  averageLiquidityScore : num
}.

(** What the loop of [getPathStatistics] accumulates: the [stats] object
    and the two running totals. *)
Record StatisticsLoop := {
  loop_stats : PathStatistics;
  totalComplexity : Z;
  totalLiquidityScore : Z
}.

Definition getPathStatistics_step (acc : StatisticsLoop) (path : Path)
  : StatisticsLoop :=
  let stats := loop_stats acc in
  let buckets := byLiquidityScore stats in
  {| loop_stats :=
       {| totalPaths := totalPaths stats;
          byHops := increment (hops path) (byHops stats);
          byFlashLoanAsset :=
            incrementNamed (flashLoanAsset path) (byFlashLoanAsset stats);
          byDexUsage :=
            fold_left (fun usage dex => incrementNamed dex usage) (dexes path)
                      (byDexUsage stats);
          byLiquidityScore :=
            if 50 <=? liquidityScore path then
              {| high := high buckets + 1; medium := medium buckets;
                 low := low buckets |}
            else if 30 <=? liquidityScore path then
              {| high := high buckets; medium := medium buckets + 1;
                 low := low buckets |}
            else
              {| high := high buckets; medium := medium buckets;
                 low := low buckets + 1 |};
          averageComplexity := averageComplexity stats;
          averageLiquidityScore := averageLiquidityScore stats |};
     totalComplexity := totalComplexity acc + estimatedComplexity path;
     totalLiquidityScore := totalLiquidityScore acc + liquidityScore path |}.

Definition getPathStatistics (pg : t) : PathStatistics :=
  let n := Z.of_nat (length (generatedPaths pg)) in
  let stats :=
    {| totalPaths := n;
       byHops := ∅;
       byFlashLoanAsset := ∅;
       byDexUsage := ∅;
       byLiquidityScore := {| high := 0; medium := 0; low := 0 |};
       averageComplexity := Fin 0;
       averageLiquidityScore := Fin 0 |} in
  let acc :=
    fold_left getPathStatistics_step (generatedPaths pg)
              {| loop_stats := stats; totalComplexity := 0;
                 totalLiquidityScore := 0 |} in
  let stats := loop_stats acc in
  if 0 <? n then
    {| totalPaths := totalPaths stats;
       byHops := byHops stats;
       byFlashLoanAsset := byFlashLoanAsset stats;
       byDexUsage := byDexUsage stats;
       byLiquidityScore := byLiquidityScore stats;
       averageComplexity := Num.div (ofZ (totalComplexity acc)) (ofZ n);
       averageLiquidityScore :=
         Num.div (ofZ (totalLiquidityScore acc)) (ofZ n) |}
  else stats.

End PathGenerator.


(* ===================================================================== *)
(** * The blockchain client *)
(* ===================================================================== *)

(** The RPC provider is a black box.  Every answer may depend on the number
    of upstream requests made before it, so that two identical requests may
    be answered differently; [None] is a rejected promise. *)

Module Provider.

(** A decimal string together with the number it denotes, as passed in
    [amountIn]: the text enters cache keys, the number enters arithmetic. *)
Record Amount := {
  text : string;
  value : num
}.

Inductive UpstreamCall :=
| GetAmountsOut (router : string) (amountIn : Amount) (path : list string)
| QuoteExactInputSingle (quoter tokenIn tokenOut : string) (fee : Z)
                        (amountIn : Amount).

Record t := {
  (** [router.getAmountsOut(parseUnits(amountIn, 18), path)], formatted:
      the last entry of [amounts] *)
  getAmountsOut : nat -> string -> Amount -> list string -> option Q;
  (** [quoter.quoteExactInputSingle.staticCall(...)], formatted *)
  quoteExactInputSingle : nat -> string -> string -> string -> Z -> Amount -> option Q;
  (** duration in milliseconds of the n-th upstream request *)
  latency : nat -> Z;
  (** [getBalance(address)] in wei *)
  getBalance : option Z;
  (** [getFeeData()]: the [gasPrice] field in wei, which may be [null] *)
  getFeeData : option (option Z)
}.

End Provider.

(* ===================================================================== *)
(** * A state monad *)
(* ===================================================================== *)

Module State.

Definition M (S A : Type) : Type := S -> A * S.

Definition ret {S A : Type} (a : A) : M S A := fun s => (a, s).

Definition bind {S A B : Type} (m : M S A) (k : A -> M S B) : M S B :=
  fun s => let (a, s') := m s in k a s'.

Definition gets {S A : Type} (f : S -> A) : M S A := fun s => (f s, s).

Definition modify {S : Type} (f : S -> S) : M S unit := fun s => (tt, f s).

End State.

Import State.

Notation "'let*' x ':=' c 'in' k" := (bind c (fun x => k))
  (at level 10, x pattern, c at level 100, k at level 200).

(* ===================================================================== *)
(** * Price fetcher ([priceFetcher.js], class [PriceFetcher]) *)
(* ===================================================================== *)

Module PriceFetcher.

Import Provider.

Record PriceData := {
  pd_dex : string;
  pd_tokenIn : string;
  pd_tokenOut : string;
  pd_amountIn : num;
  pd_amountOut : num;
  pd_price : num;
  pd_timestamp : Z
}.

Record CacheEntry := {
  data : PriceData;
  timestamp : Z
}.

Inductive ContractType := type_v2 | type_v3.

Record Contract := {
  c_router : string;
  c_quoter : option string;
  c_type : ContractType
}.

(** The object state of a [PriceFetcher], together with the wall clock
    ([Date.now()]) and the log of upstream requests issued so far. *)
Record t := {
  provider : Provider.t;
  dexConfigs : list (string * DexConfig);
  contracts : list (string * Contract);
  priceCache : gmap string CacheEntry;
  cacheTimeout : Z;
  clock : Z;
  upstreamCalls : list UpstreamCall
}.

Definition set_priceCache (c : gmap string CacheEntry) (f : t) : t :=
  {| provider := provider f; dexConfigs := dexConfigs f;
     contracts := contracts f; priceCache := c;
     cacheTimeout := cacheTimeout f; clock := clock f;
     upstreamCalls := upstreamCalls f |}.


(** One upstream request: it is logged and the clock advances by its
    latency. *)
Definition record_call (c : UpstreamCall) (f : t) : t :=
  {| provider := provider f; dexConfigs := dexConfigs f;
     contracts := contracts f; priceCache := priceCache f;
     cacheTimeout := cacheTimeout f;
     clock := clock f + latency (provider f) (length (upstreamCalls f));
     upstreamCalls := upstreamCalls f ++ [c] |}.

Definition initializeContracts (dexConfigs : list (string * DexConfig))
  : list (string * Contract) :=
  map (fun '(dexName, config) =>
         match dex_type config with
         | UniswapV2 =>
             (dexName, {| c_router := router config; c_quoter := None;
                          c_type := type_v2 |})
         | UniswapV3 =>
             (dexName, {| c_router := router config; c_quoter := quoter config;
                          c_type := type_v3 |})
         end)
      dexConfigs.

(** [constructor(provider, dexConfigs)], created at time [now] *)
Definition new (provider : Provider.t) (dexConfigs : list (string * DexConfig))
    (now : Z) : t :=
  {| provider := provider; dexConfigs := dexConfigs;
     contracts := initializeContracts dexConfigs;
     priceCache := ∅; cacheTimeout := 5000; clock := now;
     upstreamCalls := [] |}.

Definition WBNB : string := "0xbb4CdB9CBd36B01bD1cBaEBF2De08d9173bc095c".

(** [getPriceV2]; [None] is a thrown error. *)
Definition getPriceV2 (routerContract tokenIn tokenOut : string)
    (amountIn : Amount) : M t (option Q) :=
  let* n := gets (fun f => length (upstreamCalls f)) in
  let* p := gets provider in
  let path := [tokenIn; tokenOut] in
  let* _ := modify (record_call (GetAmountsOut routerContract amountIn path)) in
  match getAmountsOut p n routerContract amountIn path with
  | Some amountOut => ret (Some amountOut)
  | None =>
      if negb (String.eqb tokenIn WBNB) && negb (String.eqb tokenOut WBNB) then
        let* n := gets (fun f => length (upstreamCalls f)) in
        let path := [tokenIn; WBNB; tokenOut] in
        let* _ := modify (record_call (GetAmountsOut routerContract amountIn path)) in
        ret (getAmountsOut p n routerContract amountIn path)
      else ret None
  end.

(** The fee-tier loop of [getPriceV3]. *)
Fixpoint getPriceV3_tiers (quoterContract tokenIn tokenOut : string)
    (amountIn : Amount) (fees : list Z) : M t (option Q) :=
  match fees with
  | [] => ret None
  | fee :: rest =>
      let* n := gets (fun f => length (upstreamCalls f)) in
      let* p := gets provider in
      let* _ := modify (record_call
                  (QuoteExactInputSingle quoterContract tokenIn tokenOut fee amountIn)) in
      match quoteExactInputSingle p n quoterContract tokenIn tokenOut fee amountIn with
      | Some amountOut => ret (Some amountOut)
      | None => getPriceV3_tiers quoterContract tokenIn tokenOut amountIn rest
      end
  end.

Definition getPriceV3 (dexName : string) (quoterContract : option string)
    (tokenIn tokenOut : string) (amountIn : Amount) : M t (option Q) :=
  let* configs := gets dexConfigs in
  match get configs dexName, quoterContract with
  | Some config, Some q =>
      getPriceV3_tiers q tokenIn tokenOut amountIn (fees config)
  | _, _ => ret None
  end.

(** [`${dexName}-${tokenIn}-${tokenOut}-${amountIn}`] *)
Definition cacheKey (dexName tokenIn tokenOut : string) (amountIn : Amount)
  : string :=
  String.append dexName (String.append "-" (String.append tokenIn
    (String.append "-" (String.append tokenOut
      (String.append "-" (text amountIn)))))).

(** The dispatch on [contract.type]. *)
Definition fetchAmountOut (contract : Contract)
    (dexName tokenIn tokenOut : string) (amountIn : Amount) : M t (option Q) :=
  match c_type contract with
  | type_v2 => getPriceV2 (c_router contract) tokenIn tokenOut amountIn
  | type_v3 => getPriceV3 dexName (c_quoter contract) tokenIn tokenOut amountIn
  end.

(** The part of [getPrice] after a cache miss. *)
Definition fetchPrice (key dexName tokenIn tokenOut : string) (amountIn : Amount)
  : M t (option PriceData) :=
  let* cs := gets contracts in
  match get cs dexName with
  | None => ret None
  | Some contract =>
      let* fetched :=
        fetchAmountOut contract dexName tokenIn tokenOut amountIn in
      match fetched with
      | None => ret None
      | Some amountOut =>
          let* now := gets clock in
          let result :=
            {| pd_dex := dexName;
               pd_tokenIn := tokenIn;
               pd_tokenOut := tokenOut;
               pd_amountIn := value amountIn;
               pd_amountOut := fin amountOut;
               pd_price := bn_div (fin amountOut) (value amountIn);
               pd_timestamp := now |} in
          let* _ := modify (fun f =>
                      set_priceCache
                        (<[ key := {| data := result; timestamp := now |} ]>
                           (priceCache f)) f) in
          ret (Some result)
      end
  end.

(** [getPrice(dexName, tokenIn, tokenOut, amountIn)]; [None] is [null]. *)
Definition getPrice (dexName tokenIn tokenOut : string) (amountIn : Amount)
  : M t (option PriceData) :=
  let key := cacheKey dexName tokenIn tokenOut amountIn in
  let* cache := gets priceCache in
  let* now := gets clock in
  let* timeout := gets cacheTimeout in
  match cache !! key with
  | Some cached =>
      if now - timestamp cached <? timeout then ret (Some (data cached))
      else fetchPrice key dexName tokenIn tokenOut amountIn
  | None => fetchPrice key dexName tokenIn tokenOut amountIn
  end.

Record PriceImpact := {
  priceImpact : num;
  smallPrice : num;
  actualPrice : num
}.

Definition calculatePriceImpact (dexName tokenIn tokenOut : string)
    (amountIn : Amount) : M t (option PriceImpact) :=
  let smallAmount := {| text := "0.1"; value := Fin (1 # 10) |} in
  let* smallPrice := getPrice dexName tokenIn tokenOut smallAmount in
  let* actualPrice := getPrice dexName tokenIn tokenOut amountIn in
  match smallPrice, actualPrice with
  | Some small, Some actual =>
      let impact :=
        Num.abs (Num.mul (bn_div (Num.sub (pd_price small) (pd_price actual))
                                 (pd_price small))
                         (Fin 100)) in
      ret (Some {| priceImpact := toNumber impact;
                   smallPrice := toNumber (pd_price small);
                   actualPrice := toNumber (pd_price actual) |})
  | _, _ => ret None
  end.

Definition clearCache : M t unit :=
  modify (set_priceCache ∅).

Record CacheStats := {
  cs_size : nat;
  cs_timeout : Z
}.

Definition getCacheStats (f : t) : CacheStats :=
  {| cs_size := size (priceCache f); cs_timeout := cacheTimeout f |}.

End PriceFetcher.

(* ===================================================================== *)
(** * Opportunity scanner (class [ArbitrageScanner]) *)
(* ===================================================================== *)

Module ArbitrageScanner.

Import Provider.
Import PathGenerator (Path, tokens, dexes, hops, flashLoanAsset, isCircular,
                      liquidityScore, opt_eqb).

Record SwapDetail := {
  index : nat;
  from : option string;
  to : option string;
  dex : string;
  amountIn : num;
  amountOut : num;
  price : num;
  priceImpact : num;
  slippage : num
}.

Inductive RiskLevel := LOW | MEDIUM | HIGH.

(** The opportunity object.  The last seven fields are assigned by
    [scanPath] after [calculateCircularPathProfit] has built the object;
    until then they are [undefined] ([None]). *)
Record Opportunity := {
  pathId : string;
  path : list string;
  opp_dexes : list string;
  opp_flashLoanAsset : option string;
  flashLoanAmount : num;
  finalAmount : num;
  grossProfit : num;
  profitPercent : num;
  swapDetails : list SwapDetail;
  opp_timestamp : Z;
  opp_isCircular : bool;
  totalHops : Z;
  gasCost : option num;
  opp_flashLoanFee : option num;
  totalCosts : option num;
  profitAfterCosts : option num;
  netROI : option num;
  confidence : option num;
  riskLevel : option RiskLevel
}.

(** A numeric operand read from a field: [undefined] converts to [NaN]. *)
Definition numOf (x : option num) : num := default NaN x.

(** The scanner's own fields. *)
Record t := {
  minProfitThreshold : num;
  maxPriceImpact : num;
  gasPrice : num;
  priorityFee : num;
  flashLoanFee : num
}.

(** [constructor(priceFetcher)].  [flashLoanFee] is only ever handed to
    [multipliedBy]. *)
Definition new : t :=
  {| minProfitThreshold := toNumber (Fin (1 # 1000));
     maxPriceImpact := Fin 2;
     gasPrice := Fin 5;
     priorityFee := Fin 2;
     flashLoanFee := Fin (9 # 10000) |}.

(** A price snapshot [currentPrices]: pair key, then DEX name. *)
Definition Snapshot : Type := gmap string (gmap string PriceFetcher.PriceData).

(** A value that may be [undefined], converted to a string. *)
Definition js_str (s : option string) : string := default "undefined"%string s.

(** [TOKEN_ADDRESSES[symbol]] is a token record, nothing, or a member of
    [Object.prototype]; such a member is truthy and has no property
    [address], so the result is [undefined] ([None]). *)
Definition getTokenAddress (symbol : option string) : option string :=
  match symbol with
  | Some s =>
      match property TOKEN_ADDRESSES s with
      | Own token => Some (address token)
      | Inherited _ => None
      | Undefined => symbol
      end
  | None => None
  end.

(** What [calculateOptimalFlashLoanAmount] comes to: a [BigNumber]; a member
    of [Object.prototype], returned as [baseAmounts[asset]] found it; or a
    [TypeError], thrown where [multipliedBy] is called on such a member,
    which has no such method. *)
Inductive Loan :=
| BigNumber (amount : num)
| LoanMember (name : string)
| TypeError.

(** [x.multipliedBy(y)] *)
Definition multipliedBy (x : Loan) (y : num) : Loan :=
  match x with
  | BigNumber a => BigNumber (Num.mul a y)
  | LoanMember _ | TypeError => TypeError
  end.

Definition calculateOptimalFlashLoanAmount (p : Path) : Loan :=
  let baseAmounts : list (string * num) :=
    [ ("WBNB", Fin 10); ("USDT", Fin 3000); ("USDC", Fin 3000);
      ("BTCB", Fin (1 # 10)); ("ETH", Fin (3 # 2)); ("CAKE", Fin 1000) ]%string in
  let baseAmount :=
    match property baseAmounts (flashLoanAsset p) with
    | Own amount => BigNumber amount
    | Inherited member => LoanMember member
    | Undefined => BigNumber (Fin 1)
    end in
  let baseAmount :=
    if hops p <=? 3 then multipliedBy baseAmount (Fin 2)
    else if 6 <=? hops p then multipliedBy baseAmount (Fin (1 # 2))
    else baseAmount in
  let baseAmount :=
    if 50 <=? liquidityScore p then multipliedBy baseAmount (Fin (3 # 2))
    else if liquidityScore p <? 30 then multipliedBy baseAmount (Fin (7 # 10))
    else baseAmount in
  baseAmount.

Definition isV3Name (dexName : string) : bool :=
  str_includes dexName "V3" || str_includes dexName "UNISWAP_V3".

Definition estimateGasCost (s : t) (p : Path) : num :=
  let baseGasPerSwap := 150000 in
  let additionalGasPerHop := 30000 in
  let flashLoanOverhead := 250000 in
  let circularPathOverhead := 50000 in
  let totalGas := baseGasPerSwap * hops p
                  + additionalGasPerHop * Z.max 0 (hops p - 2)
                  + flashLoanOverhead
                  + circularPathOverhead in
  let v3SwapCount := PathGenerator.count isV3Name (dexes p) in
  let v3ExtraGas := v3SwapCount * 50000 in
  let finalGasEstimate := totalGas + v3ExtraGas in
  let gasPrice := Num.add (gasPrice s) (priorityFee s) in
  let gasCostWei :=
    Num.mul (Num.mul (ofZ finalGasEstimate) gasPrice) (ofZ (10 ^ 9)) in
  bn_div gasCostWei (ofZ (10 ^ 18)).

Record Costs := {
  costs_gasCost : num;
  costs_flashLoanFee : num;
  costs_total : num
}.

Definition calculateTotalCosts (s : t) (p : Path) (flashLoanAmount : num)
  : Costs :=
  let gasCost := estimateGasCost s p in
  let flashLoanFee := Num.mul flashLoanAmount (flashLoanFee s) in
  let totalCosts := Num.add gasCost flashLoanFee in
  {| costs_gasCost := gasCost;
     costs_flashLoanFee := flashLoanFee;
     costs_total := totalCosts |}.

Definition calculateSlippage (amountIn amountOut expectedPrice : num) : num :=
  let actualPrice := bn_div amountOut amountIn in
  let slippage :=
    Num.abs (Num.mul (bn_div (Num.sub expectedPrice actualPrice) expectedPrice)
                     (Fin 100)) in
  toNumber slippage.

Definition getPriceFromCache (currentPrices : Snapshot)
    (dex tokenIn tokenOut : string) (amountIn : Amount)
  : option PriceFetcher.PriceData :=
  let pairKey := String.append tokenIn (String.append "/" tokenOut) in
  let reversePairKey := String.append tokenOut (String.append "/" tokenIn) in
  match currentPrices !! pairKey ≫= (fun m => m !! dex) with
  | Some direct => Some direct
  | None =>
      match currentPrices !! reversePairKey ≫= (fun m => m !! dex) with
      | Some reversePrice =>
          Some {| PriceFetcher.pd_dex := PriceFetcher.pd_dex reversePrice;
                  PriceFetcher.pd_tokenIn := PriceFetcher.pd_tokenIn reversePrice;
                  PriceFetcher.pd_tokenOut := PriceFetcher.pd_tokenOut reversePrice;
                  PriceFetcher.pd_amountIn := PriceFetcher.pd_amountIn reversePrice;
                  PriceFetcher.pd_amountOut :=
                    bn_div (value amountIn) (PriceFetcher.pd_price reversePrice);
                  PriceFetcher.pd_price :=
                    bn_div (Fin 1) (PriceFetcher.pd_price reversePrice);
                  PriceFetcher.pd_timestamp :=
                    PriceFetcher.pd_timestamp reversePrice |}
      | None => None
      end
  end.

Definition calculatePriceImpact (dex tokenIn tokenOut : string)
    (amountIn : Amount) : M PriceFetcher.t (option PriceFetcher.PriceImpact) :=
  PriceFetcher.calculatePriceImpact dex tokenIn tokenOut amountIn.

(** The fields [scanPath] assigns once the costs are known. *)
Definition assignCosts (o : Opportunity) (c : Costs) (pac roi : num)
  : Opportunity :=
  {| pathId := pathId o; path := path o; opp_dexes := opp_dexes o;
     opp_flashLoanAsset := opp_flashLoanAsset o;
     flashLoanAmount := flashLoanAmount o; finalAmount := finalAmount o;
     grossProfit := grossProfit o; profitPercent := profitPercent o;
     swapDetails := swapDetails o; opp_timestamp := opp_timestamp o;
     opp_isCircular := opp_isCircular o; totalHops := totalHops o;
     gasCost := Some (costs_gasCost c);
     opp_flashLoanFee := Some (costs_flashLoanFee c);
     totalCosts := Some (costs_total c);
     profitAfterCosts := Some pac;
     netROI := Some roi;
     confidence := confidence o;
     riskLevel := riskLevel o |}.

Definition assignConfidence (o : Opportunity) (c : num) : Opportunity :=
  {| pathId := pathId o; path := path o; opp_dexes := opp_dexes o;
     opp_flashLoanAsset := opp_flashLoanAsset o;
     flashLoanAmount := flashLoanAmount o; finalAmount := finalAmount o;
     grossProfit := grossProfit o; profitPercent := profitPercent o;
     swapDetails := swapDetails o; opp_timestamp := opp_timestamp o;
     opp_isCircular := opp_isCircular o; totalHops := totalHops o;
     gasCost := gasCost o; opp_flashLoanFee := opp_flashLoanFee o;
     totalCosts := totalCosts o; profitAfterCosts := profitAfterCosts o;
     netROI := netROI o;
     confidence := Some c;
     riskLevel := riskLevel o |}.

Definition assignRiskLevel (o : Opportunity) (r : RiskLevel) : Opportunity :=
  {| pathId := pathId o; path := path o; opp_dexes := opp_dexes o;
     opp_flashLoanAsset := opp_flashLoanAsset o;
     flashLoanAmount := flashLoanAmount o; finalAmount := finalAmount o;
     grossProfit := grossProfit o; profitPercent := profitPercent o;
     swapDetails := swapDetails o; opp_timestamp := opp_timestamp o;
     opp_isCircular := opp_isCircular o; totalHops := totalHops o;
     gasCost := gasCost o; opp_flashLoanFee := opp_flashLoanFee o;
     totalCosts := totalCosts o; profitAfterCosts := profitAfterCosts o;
     netROI := netROI o;
     confidence := confidence o;
     riskLevel := Some r |}.

Definition highLiqTokens : list string := ["WBNB"; "USDT"; "USDC"]%string.

(** In the two functions below [priceImpact], [slippage], [totalHops] and
    the score are JavaScript numbers; [netROI] is a [BigNumber], which the
    operator [<] converts to a number before it compares. *)

Definition calculateConfidenceScore (o : Opportunity) : num :=
  let score := Fin 100 in
  (* Reduce score based on price impact *)
  let maxPriceImpact := maxList (map priceImpact (swapDetails o)) in
  let score := js_sub score (js_mul maxPriceImpact (Fin 8)) in
  (* Reduce score based on number of hops *)
  let score := js_sub score (ofZ (Z.max 0 (totalHops o - 3) * 3)) in
  (* Reduce score if profit margin is small *)
  let score := if ltb (toNumber (numOf (netROI o))) (Fin 1)
               then js_sub score (Fin 25) else score in
  let score := if ltb (toNumber (numOf (netROI o))) (Fin (1 # 2))
               then js_sub score (Fin 35) else score in
  (* Bonus for circular paths *)
  let score := if opp_isCircular o then js_add score (Fin 15) else score in
  (* Bonus for involving high-liquidity tokens *)
  let highLiqCount := PathGenerator.count (includes highLiqTokens) (path o) in
  let score := js_add score (ofZ (highLiqCount * 3)) in
  (* Penalty for high slippage *)
  let maxSlippage := maxList (map slippage (swapDetails o)) in
  let score := if gtb maxSlippage (Fin 1)
               then js_sub score (Fin 20) else score in
  let score := if gtb maxSlippage (Fin 2)
               then js_sub score (Fin 30) else score in
  max2 (min2 score (Fin 100)) (Fin 0).

Definition calculateRiskLevel (o : Opportunity) : RiskLevel :=
  let maxPriceImpact := maxList (map priceImpact (swapDetails o)) in
  let hopCount := totalHops o in
  let profitMargin := numOf (netROI o) in
  let maxSlippage := maxList (map slippage (swapDetails o)) in
  let riskScore := 0 in
  (* Price impact risk *)
  let riskScore :=
    if gtb maxPriceImpact (Fin (3 # 2)) then riskScore + 3
    else if gtb maxPriceImpact (Fin 1) then riskScore + 2
    else if gtb maxPriceImpact (Fin (1 # 2)) then riskScore + 1
    else riskScore in
  (* Complexity risk *)
  let riskScore :=
    if 6 <? hopCount then riskScore + 3
    else if 4 <? hopCount then riskScore + 2
    else if 3 <? hopCount then riskScore + 1
    else riskScore in
  (* Profit margin risk *)
  let riskScore :=
    if ltb (toNumber profitMargin) (toNumber (Fin (3 # 10))) then riskScore + 3
    else if ltb (toNumber profitMargin) (Fin (1 # 2)) then riskScore + 2
    else if ltb (toNumber profitMargin) (Fin 1) then riskScore + 1
    else riskScore in
  (* Slippage risk *)
  let riskScore :=
    if gtb maxSlippage (Fin 2) then riskScore + 2
    else if gtb maxSlippage (Fin 1) then riskScore + 1
    else riskScore in
  if 6 <=? riskScore then HIGH
  else if 4 <=? riskScore then MEDIUM
  else LOW.

Section WithToString.

(** [BigNumber.prototype.toString] *)
Variable toString : num -> string.

Definition amountOf (x : num) : Amount := {| text := toString x; value := x |}.

(** A member of [Object.prototype] where an amount is expected: its text
    is that of the member, and [new BigNumber(member)], which every
    [BigNumber] method applies to such an operand, is [NaN]. *)
Definition amountOfMember (name : string) : Amount :=
  {| text := memberText name; value := NaN |}.

(** What the hop loop starts with; [None] when
    [calculateOptimalFlashLoanAmount] threw. *)
Definition startAmount (loan : Loan) : option Amount :=
  match loan with
  | BigNumber amount => Some (amountOf amount)
  | LoanMember name => Some (amountOfMember name)
  | TypeError => None
  end.

(** The loop of [calculateCircularPathProfit] from hop [i] on, over the
    remaining entries of [path.dexes]; [None] is the early [return null].
    [currentAmount] is given with its text.  It is a [BigNumber] in every
    hop but the first of a run started with a member of [Object.prototype];
    the leg of that hop records [NaN] as its [amountIn], and is part of no
    opportunity (see [calculateCircularPathProfit]). *)
Fixpoint swapLoop (s : t) (p : Path) (currentPrices : option Snapshot)
    (remaining : list string) (i : nat)
    (currentAmount : Amount) (currentToken : option string)
    (swapDetails : list SwapDetail)
  : M PriceFetcher.t (option (num * option string * list SwapDetail)) :=
  match remaining with
  | [] => ret (Some (value currentAmount, currentToken, swapDetails))
  | dex :: rest =>
      let nextToken := tokens p !! S i in
      let currentTokenAddress := js_str (getTokenAddress currentToken) in
      let nextTokenAddress := js_str (getTokenAddress nextToken) in
      let* priceData :=
        match currentPrices with
        | Some prices =>
            ret (getPriceFromCache prices dex currentTokenAddress
                                   nextTokenAddress currentAmount)
        | None =>
            PriceFetcher.getPrice dex currentTokenAddress nextTokenAddress
                                  currentAmount
        end in
      match priceData with
      | None => ret None
      | Some priceData =>
          let* priceImpact :=
            calculatePriceImpact dex currentTokenAddress nextTokenAddress
                                 currentAmount in
          if match priceImpact with
             | Some pi => gtb (PriceFetcher.priceImpact pi) (maxPriceImpact s)
             | None => false
             end
          then ret None
          else
            let amountOut := PriceFetcher.pd_amountOut priceData in
            let detail :=
              {| index := i;
                 from := currentToken;
                 to := nextToken;
                 dex := dex;
                 amountIn := value currentAmount;
                 amountOut := amountOut;
                 price := PriceFetcher.pd_price priceData;
                 priceImpact :=
                   match priceImpact with
                   | Some pi => PriceFetcher.priceImpact pi
                   | None => Fin 0
                   end;
                 slippage :=
                   calculateSlippage (value currentAmount) amountOut
                                     (PriceFetcher.pd_price priceData) |} in
            swapLoop s p currentPrices rest (S i) (amountOf amountOut) nextToken
                     (swapDetails ++ [detail])
      end
  end.

(** What [calculateCircularPathProfit] comes to. *)
Inductive Profit :=
| Null                          (** [return null] *)
| Computed (o : Opportunity)    (** the opportunity object *)
| OfMember (name : string)      (** an object whose [flashLoanAmount] is
                                    that member of [Object.prototype], and
                                    whose [profitPercent] is [NaN] *)
| Threw.                        (** a [TypeError] *)

Definition calculateCircularPathProfit (s : t) (p : Path)
    (currentPrices : option Snapshot) : M PriceFetcher.t Profit :=
  let flashLoanAmount := calculateOptimalFlashLoanAmount p in
  match startAmount flashLoanAmount with
  | None => ret Threw
  | Some currentAmount =>
      let flashLoanAsset := head (tokens p) in
      let* walked := swapLoop s p currentPrices (dexes p) 0 currentAmount
                              (head (tokens p)) [] in
      match walked with
      | None => ret Null
      | Some (currentAmount, currentToken, swapDetails) =>
          if negb (opt_eqb currentToken flashLoanAsset) then ret Null
          else
            match flashLoanAmount with
            | BigNumber flashLoanAmount =>
                let finalAmount := currentAmount in
                let grossProfit := Num.sub finalAmount flashLoanAmount in
                let grossProfitPercent :=
                  Num.mul (bn_div grossProfit flashLoanAmount) (Fin 100) in
                let* now := gets PriceFetcher.clock in
                ret (Computed
                       {| pathId := PathGenerator.id p;
                          path := tokens p;
                          opp_dexes := dexes p;
                          opp_flashLoanAsset := flashLoanAsset;
                          flashLoanAmount := flashLoanAmount;
                          finalAmount := finalAmount;
                          grossProfit := grossProfit;
                          profitPercent := toNumber grossProfitPercent;
                          swapDetails := swapDetails;
                          opp_timestamp := now;
                          opp_isCircular := true;
                          totalHops := hops p;
                          gasCost := None;
                          opp_flashLoanFee := None;
                          totalCosts := None;
                          profitAfterCosts := None;
                          netROI := None;
                          confidence := None;
                          riskLevel := None |})
            | LoanMember name =>
                (* without a hop [finalAmount] is the member itself, which
                   has no method [minus] *)
                match dexes p with
                | [] => ret Threw
                | _ :: _ => ret (OfMember name)
                end
            | TypeError => ret Threw
            end
      end
  end.

(** [scanPath(path, currentPrices)]; [None] is [null].  An error thrown on
    the way is caught and gives [null].  For an object whose
    [flashLoanAmount] is a member of [Object.prototype] the test
    [profitPercent < minProfitThreshold] is false of [NaN], and
    [calculateTotalCosts] throws, the member having no method
    [multipliedBy]. *)
Definition scanPath (s : t) (p : Path) (currentPrices : option Snapshot)
  : M PriceFetcher.t (option Opportunity) :=
  if negb (isCircular p)
     || negb (opt_eqb (head (tokens p)) (last (tokens p)))
  then ret None
  else
    let* opportunity := calculateCircularPathProfit s p currentPrices in
    match opportunity with
    | Null | Threw | OfMember _ => ret None
    | Computed opportunity =>
        if ltb (profitPercent opportunity) (minProfitThreshold s) then ret None
        else
          let totalCosts :=
            calculateTotalCosts s p (flashLoanAmount opportunity) in
          let profitAfterCosts :=
            Num.sub (grossProfit opportunity) (costs_total totalCosts) in
          let netROI :=
            Num.mul (bn_div profitAfterCosts (flashLoanAmount opportunity))
                    (Fin 100) in
          let opportunity :=
            assignCosts opportunity totalCosts profitAfterCosts netROI in
          let opportunity :=
            assignConfidence opportunity (calculateConfidenceScore opportunity) in
          let opportunity :=
            assignRiskLevel opportunity (calculateRiskLevel opportunity) in
          ret (if gtb profitAfterCosts (Fin 0) then Some opportunity else None)
    end.

End WithToString.

(** The argument of [updateParameters]: an object whose properties are
    numbers, each of which may be missing. *)
Record Params := {
  params_minProfitThreshold : option num;
  params_maxPriceImpact : option num;
  params_gasPrice : option num;
  params_priorityFee : option num;
  params_flashLoanFee : option num
}.

(** The truth value of a property that holds a number: [undefined], [0]
    and [NaN] are falsy. *)
Definition truthy (x : option num) : bool :=
  match x with
  | Some (Fin q) => negb (Qeq_bool q 0)
  | Some NaN => false
  | Some _ => true
  | None => false
  end.

Definition updateParameters (s : t) (params : Params) : t :=
  {| minProfitThreshold :=
       if truthy (params_minProfitThreshold params)
       then numOf (params_minProfitThreshold params)
       else minProfitThreshold s;
     maxPriceImpact :=
       if truthy (params_maxPriceImpact params)
       then numOf (params_maxPriceImpact params)
       else maxPriceImpact s;
     gasPrice :=
       if truthy (params_gasPrice params)
       then numOf (params_gasPrice params)
       else gasPrice s;
     priorityFee :=
       if truthy (params_priorityFee params)
       then numOf (params_priorityFee params)
       else priorityFee s;
     flashLoanFee :=
       if truthy (params_flashLoanFee params)
       then numOf (params_flashLoanFee params)
       else flashLoanFee s |}.

End ArbitrageScanner.

(* ===================================================================== *)
(** * Executor ([flashLoanExecutor.js], class [FlashLoanExecutor]) *)
(* ===================================================================== *)

(** The helpers of the executor that do not touch the chain. *)

Module FlashLoanExecutor.

Import ArbitrageScanner.

Definition calculateOptimalAmount (opportunity : Opportunity) : num :=
  let baseAmount := Fin 10 in
  let profitMargin := profitPercent opportunity in
  let multiplier :=
    if gtb profitMargin (Fin 2) then 5
    else if gtb profitMargin (Fin 1) then 3
    else if gtb profitMargin (Fin (1 # 2)) then 2
    else 1 in
  Num.mul baseAmount (ofZ multiplier).

(** [dexIds[dexName] || 0]: the identifier of a listed venue, [0] for an
    unknown name, and for the name of a member of [Object.prototype] that
    member, which is truthy. *)
Definition getDexId (dexName : string) : Found Z :=
  let dexIds : list (string * Z) :=
    [ ("PANCAKESWAP_V2", 0); ("PANCAKESWAP_V3", 1); ("BISWAP", 2);
      ("MDEX", 3); ("UNISWAP_V3", 4); ("APESWAP", 5) ]%string in
  match property dexIds dexName with
  | Own dexId => Value dexId
  | Inherited member => Member member
  | Undefined => Value 0
  end.

(** [addresses[symbol] || addresses['WBNB']]; the six addresses are
    non-empty strings, and a member of [Object.prototype] is truthy. *)
Definition getAssetAddress (symbol : string) : Found string :=
  let addresses : list (string * string) :=
    [ ("WBNB", "0xbb4CdB9CBd36B01bD1cBaEBF2De08d9173bc095c");
      ("USDT", "0x55d398326f99059fF775485246999027B3197955");
      ("USDC", "0x8AC76a51cc950d9822D68b83fE1Ad97B32Cd580d");
      ("BTCB", "0x7130d2A12B9BCbFAe4f2634d864A1Ee1Ce3Ead9c");
      ("ETH", "0x2170Ed0880ac9A755fd29B2688956BD959F933F8");
      ("CAKE", "0x0E09FaBB73Bd3Ade0a17ECC321fD13a19e81cE82") ]%string in
  match property addresses symbol with
  | Own address => Value address
  | Inherited member => Member member
  | Undefined => Value "0xbb4CdB9CBd36B01bD1cBaEBF2De08d9173bc095c"%string
  end.

End FlashLoanExecutor.

(* ===================================================================== *)
(** * Orchestrator ([priceFetcher.js], class [ArbitrageBot]) *)
(* ===================================================================== *)

Module ArbitrageBot.

Import ArbitrageScanner.

Record Config := {
  minProfitPercent : num;
  (** the decimal string [maxGasPrice], in gwei *)
  maxGasPrice : Q
}.

Record Stats := {
  totalScans : Z;
  circularOpportunitiesFound : Z;
  flashLoanExecutions : Z;
  totalProfit : num;
  errors : Z;
  pathsGenerated : Z
}.

Record ExecutionResult := {
  success : bool;
  actualProfit : num
}.

Record t := {
  config : Config;
  provider : Provider.t;
  (** [executor.executeFlashLoanArbitrage]; [None] is a thrown error *)
  executor : Opportunity -> option ExecutionResult;
  isRunning : bool;
  currentScanIndex : Z;
  stats : Stats
}.

Definition set_stats (st : Stats) (b : t) : t :=
  {| config := config b; provider := provider b; executor := executor b;
     isRunning := isRunning b; currentScanIndex := currentScanIndex b;
     stats := st |}.

Definition set_isRunning (r : bool) (b : t) : t :=
  {| config := config b; provider := provider b; executor := executor b;
     isRunning := r; currentScanIndex := currentScanIndex b;
     stats := stats b |}.

Definition set_currentScanIndex (i : Z) (b : t) : t :=
  {| config := config b; provider := provider b; executor := executor b;
     isRunning := isRunning b; currentScanIndex := i;
     stats := stats b |}.

(** What a run does that can be observed from outside. *)
Inductive Event :=
| RpcGetBalance
| RpcGetFeeData
| Console (message : string)
| Execute (o : Opportunity).

(** [ethers.parseUnits(text, decimals)] of a decimal number: the number of
    base units, or a thrown error when there are too many decimals. *)
Definition parseUnits (q : Q) (decimals : Z) : option Z :=
  let scaled := Qred (q * inject_Z (10 ^ decimals)) in
  if (Qden scaled =? 1)%positive then Some (Qnum scaled) else None.

(** [ethers.parseEther('0.005')] *)
Definition minBalance : Z := 5000000000000000.

(** [performSafetyChecks(opportunity)]: the verdict and what was done to
    reach it.  A thrown error is caught and gives [false]. *)
Definition performSafetyChecks (b : t) (o : Opportunity) : bool * list Event :=
  (* Check wallet balance for gas *)
  match Provider.getBalance (provider b) with
  | None => (false, [RpcGetBalance; Console "Safety check failed"])
  | Some balance =>
      if balance <? minBalance then
        (false, [RpcGetBalance; Console "Insufficient balance for gas fees"])
      else
        (* Check gas price *)
        match Provider.getFeeData (provider b) with
        | None =>
            (false, [RpcGetBalance; RpcGetFeeData; Console "Safety check failed"])
        | Some feeGasPrice =>
            match parseUnits (maxGasPrice (config b)) 9 with
            | None =>
                (false, [RpcGetBalance; RpcGetFeeData;
                         Console "Safety check failed"])
            | Some maxGasPrice =>
                (* a [null] gas price compares as 0 *)
                if maxGasPrice <? default 0 feeGasPrice then
                  (false, [RpcGetBalance; RpcGetFeeData;
                           Console "Gas price too high"])
                (* Verify opportunity is still circular *)
                else if negb (opp_isCircular o) then
                  (false, [RpcGetBalance; RpcGetFeeData;
                           Console "Opportunity is not circular"])
                (* Verify flash loan asset consistency *)
                else if negb (PathGenerator.opt_eqb (opp_flashLoanAsset o)
                                                    (head (path o)))
                        || negb (PathGenerator.opt_eqb (opp_flashLoanAsset o)
                                                       (last (path o))) then
                  (false, [RpcGetBalance; RpcGetFeeData;
                           Console "Flash loan asset mismatch in circular path"])
                else
                  (* Check minimum profit threshold *)
                  match netROI o with
                  | None =>
                      (false, [RpcGetBalance; RpcGetFeeData;
                               Console "Safety check failed"])
                  | Some roi =>
                      if ltb roi (minProfitPercent (config b)) then
                        (false, [RpcGetBalance; RpcGetFeeData;
                                 Console "Profit below minimum threshold"])
                      else (true, [RpcGetBalance; RpcGetFeeData])
                  end
            end
        end
  end.

Definition add_execution (profit : num) (st : Stats) : Stats :=
  {| totalScans := totalScans st;
     circularOpportunitiesFound := circularOpportunitiesFound st;
     flashLoanExecutions := flashLoanExecutions st + 1;
     totalProfit := Num.add (totalProfit st) profit;
     errors := errors st;
     pathsGenerated := pathsGenerated st |}.

Definition add_error (st : Stats) : Stats :=
  {| totalScans := totalScans st;
     circularOpportunitiesFound := circularOpportunitiesFound st;
     flashLoanExecutions := flashLoanExecutions st;
     totalProfit := totalProfit st;
     errors := errors st + 1;
     pathsGenerated := pathsGenerated st |}.

Definition add_scan (found : Z) (st : Stats) : Stats :=
  {| totalScans := totalScans st + 1;
     circularOpportunitiesFound := circularOpportunitiesFound st + found;
     flashLoanExecutions := flashLoanExecutions st;
     totalProfit := totalProfit st;
     errors := errors st;
     pathsGenerated := pathsGenerated st |}.

(** [executeFlashLoanArbitrage(opportunity)]: the new state of the bot and
    the events of the call. *)
Definition executeFlashLoanArbitrage (b : t) (o : Opportunity)
  : t * list Event :=
  let (ok, checks) := performSafetyChecks b o in
  if negb ok then
    (b, checks ++ [Console "Safety checks failed, skipping execution"])
  else
    match executor b o with
    | Some result =>
        if success result then
          (set_stats (add_execution (actualProfit result) (stats b)) b,
           checks ++ [Execute o;
                      Console "Flash loan arbitrage executed successfully!"])
        else
          (b, checks ++ [Execute o;
                         Console "Flash loan arbitrage execution failed"])
    | None =>
        (set_stats (add_error (stats b)) b,
         checks ++ [Execute o;
                    Console "Error executing flash loan arbitrage"])
    end.

(** ** Handling the opportunities of a scan *)

Definition add_found (found : Z) (st : Stats) : Stats :=
  {| totalScans := totalScans st;
     circularOpportunitiesFound := circularOpportunitiesFound st + found;
     flashLoanExecutions := flashLoanExecutions st;
     totalProfit := totalProfit st;
     errors := errors st;
     pathsGenerated := pathsGenerated st |}.

(** How a call ends: it returns, or an error leaves it ([toFixed] of a
    field that is [undefined]). *)
Inductive Completion := Returned | Thrown.

(** The test [netROI.gt(minProfitPercent) && riskLevel !== 'HIGH' &&
    confidence > 60]. *)
Definition worthExecuting (b : t) (roi : num) (opportunity : Opportunity)
  : bool :=
  gtb roi (minProfitPercent (config b))
  && negb (match riskLevel opportunity with Some HIGH => true | _ => false end)
  && gtb (numOf (confidence opportunity)) (Fin 60).

(** The loop [for (const opportunity of opportunities.slice(0, 3))] of
    [scanForCircularOpportunities], over the opportunities it is given.
    Of the console output only the skip message is recorded. *)
Fixpoint processOpportunities (opportunities : list Opportunity) (b : t)
  : t * list Event * Completion :=
  match opportunities with
  | [] => (b, [], Returned)
  | opportunity :: rest =>
      match profitAfterCosts opportunity, netROI opportunity with
      | Some _, Some roi =>
          let (b, events) :=
            if worthExecuting b roi opportunity
            then executeFlashLoanArbitrage b opportunity
            else (b, [Console "Skipping"]) in
          let '(b, events', completion) := processOpportunities rest b in
          (b, events ++ events', completion)
      | _, _ => (b, [], Thrown)
      end
  end.

(** [scanForCircularOpportunities] from the point where [scanMultiplePaths]
    has returned [opportunities]. *)
Definition scanForCircularOpportunities_found (opportunities : list Opportunity)
    (b : t) : t * list Event * Completion :=
  if (0 <? length opportunities)%nat then
    let found := Z.of_nat (length opportunities) in
    let b := set_stats (add_found found (stats b)) b in
    processOpportunities (take 3 opportunities) b
  else
    (b, [Console "No profitable circular arbitrage opportunities found"],
     Returned).

(** ** The scan loop *)

Definition calculateScanDelay (b : t) : num :=
  let delay := Fin 3000 in
  let found := ofZ (circularOpportunitiesFound (stats b)) in
  let scans := ofZ (totalScans (stats b)) in
  let delay :=
    if gtb found (Num.mul scans (Fin (5 # 100)))
    then Num.mul delay (Fin (3 # 2)) else delay in
  let delay :=
    if (50 <? totalScans (stats b))
       && ltb found (Num.mul scans (Fin (1 # 100)))
    then max2 (Num.mul delay (Fin (8 # 10))) (Fin 2000) else delay in
  delay.

(** What happens in one turn of the loop: the scan completes, having found
    some opportunities, or it throws; or [stop()] is called from outside
    before the loop tests [isRunning] again. *)
Inductive CycleOutcome :=
| CycleOk (found : Z)
| CycleError
| ExternalStop.

Definition maxConsecutiveErrors : Z := 5.

(** [stop()] *)
Definition stop (b : t) : t := set_isRunning false b.

(** [scanLoop()] from the top of the [while], with the local counter
    [consecutiveErrors] and the delays slept so far.  The loop runs for as
    long as outcomes are supplied. *)
Fixpoint scanLoop_from (outcomes : list CycleOutcome) (b : t)
    (consecutiveErrors : Z) (delays : list num) : t * Z * list num :=
  match outcomes with
  | [] => (b, consecutiveErrors, delays)
  | outcome :: rest =>
      if negb (isRunning b) then (b, consecutiveErrors, delays)
      else
        match outcome with
        | ExternalStop => scanLoop_from rest (stop b) consecutiveErrors delays
        | CycleOk found =>
            let b := set_stats (add_scan found (stats b)) b in
            let consecutiveErrors := 0 in
            let b := set_currentScanIndex (currentScanIndex b + 1) b in
            let delay := calculateScanDelay b in
            scanLoop_from rest b consecutiveErrors (delays ++ [delay])
        | CycleError =>
            let b := set_stats (add_error (stats b)) b in
            let consecutiveErrors := consecutiveErrors + 1 in
            if maxConsecutiveErrors <=? consecutiveErrors then
              (stop b, consecutiveErrors, delays)
            else
              let errorDelay :=
                Z.min (1000 * 2 ^ consecutiveErrors) 30000 in
              scanLoop_from rest b consecutiveErrors
                            (delays ++ [ofZ errorDelay])
        end
  end.

Definition scanLoop (outcomes : list CycleOutcome) (b : t) : t * Z * list num :=
  scanLoop_from outcomes b 0 [].

End ArbitrageBot.

(* ===================================================================== *)
(** * Statements of the specification, and scenarios *)
(* ===================================================================== *)

(** Definitions in this module are what the properties below compare the
    functions above with.  They are written from the words of the
    specification; where the source departs from those words, or the
    specification leaves a value open, a second definition, named as
    such, states what the source does. *)

Module Spec.

Import ArbitrageScanner.

(** ** Scan loop (section 4.5 and the backoff scenario) *)

(** The delays the scenario expects for a run of consecutive errors. *)
Definition scenario_backoff_delays : list num :=
  map ofZ [1000; 2000; 4000; 8000; 16000].

(** ** Confidence score (section 4.3) *)

Definition clamp_0_100 (x : num) : num := max2 (min2 x (Fin 100)) (Fin 0).

Definition maxPriceImpactOf (o : Opportunity) : num :=
  maxList (map priceImpact (swapDetails o)).

Definition maxSlippageOf (o : Opportunity) : num :=
  maxList (map slippage (swapDetails o)).

Definition hopPenalty (o : Opportunity) : num :=
  ofZ (3 * Z.max 0 (totalHops o - 3)).

Definition liquidityBonus (o : Opportunity) : num :=
  ofZ (3 * PathGenerator.count (includes highLiqTokens) (path o)).

(** The penalties are subtracted one after the other, as the score is
    computed with JavaScript numbers. *)
Definition subtract (score : num) (penalties : list num) : num :=
  fold_left js_sub penalties score.

(** "subtract 25 if netROI < 1, additional 10 (total 35) if netROI < 0.5" *)
Definition roiPenalties_reference (roi : num) : list num :=
  (if ltb roi (Fin 1) then [Fin 25] else [])
  ++ (if ltb roi (Fin (1 # 2)) then [Fin 10] else []).

(** "subtract 20 if any hop's slippage exceeds 1%, or 30 if it exceeds 2%" *)
Definition slippagePenalties_reference (maxSlippage : num) : list num :=
  if gtb maxSlippage (Fin 2) then [Fin 30]
  else if gtb maxSlippage (Fin 1) then [Fin 20]
  else [].

(** What the source subtracts: the second test of each pair subtracts on
    top of the first, and the net ROI is compared as a JavaScript
    number. *)
Definition roiPenalties (roi : num) : list num :=
  (if ltb (toNumber roi) (Fin 1) then [Fin 25] else [])
  ++ (if ltb (toNumber roi) (Fin (1 # 2)) then [Fin 35] else []).

Definition slippagePenalties (maxSlippage : num) : list num :=
  (if gtb maxSlippage (Fin 1) then [Fin 20] else [])
  ++ (if gtb maxSlippage (Fin 2) then [Fin 30] else []).

Definition confidence_with (roiPen slipPen : num -> list num)
    (o : Opportunity) : num :=
  let score := js_sub (Fin 100) (js_mul (Fin 8) (maxPriceImpactOf o)) in
  let score := js_sub score (hopPenalty o) in
  let score := subtract score (roiPen (numOf (netROI o))) in
  let score := if opp_isCircular o then js_add score (Fin 15) else score in
  let score := js_add score (liquidityBonus o) in
  let score := subtract score (slipPen (maxSlippageOf o)) in
  clamp_0_100 score.

(** The reference formula of the specification. *)
Definition confidence_reference : Opportunity -> num :=
  confidence_with roiPenalties_reference slippagePenalties_reference.

(** The formula with the penalties of the source. *)
Definition confidence_formula : Opportunity -> num :=
  confidence_with roiPenalties slippagePenalties.

Definition in_0_100 (x : num) : Prop :=
  exists q : Q, x = Fin q /\ (0 <= q <= 100)%Q.

(** ** Risk classification (section 4.3) *)

(** The four buckets, "each contributing 0-3 points at defined
    thresholds"; the thresholds are those of [calculateRiskLevel]. *)

Definition priceImpactBucket (maxPriceImpact : num) : Z :=
  if gtb maxPriceImpact (Fin (3 # 2)) then 3
  else if gtb maxPriceImpact (Fin 1) then 2
  else if gtb maxPriceImpact (Fin (1 # 2)) then 1
  else 0.

Definition hopBucket (hopCount : Z) : Z :=
  if 6 <? hopCount then 3
  else if 4 <? hopCount then 2
  else if 3 <? hopCount then 1
  else 0.

(** The net ROI is compared as a JavaScript number, with the numbers
    [0.3], [0.5] and [1]. *)
Definition roiBucket (roi : num) : Z :=
  if ltb (toNumber roi) (toNumber (Fin (3 # 10))) then 3
  else if ltb (toNumber roi) (Fin (1 # 2)) then 2
  else if ltb (toNumber roi) (Fin 1) then 1
  else 0.

Definition slippageBucket (maxSlippage : num) : Z :=
  if gtb maxSlippage (Fin 2) then 2
  else if gtb maxSlippage (Fin 1) then 1
  else 0.

(** "total >= 6 -> HIGH, >= 4 -> MEDIUM, else LOW" *)
Definition classify (riskScore : Z) : RiskLevel :=
  if 6 <=? riskScore then HIGH
  else if 4 <=? riskScore then MEDIUM
  else LOW.

(** ** Data model (section 3): the invariant of a [CircularPath] *)

Record CircularPath_inv (p : PathGenerator.Path) : Prop := {
  inv_circular :
    head (PathGenerator.tokens p) = last (PathGenerator.tokens p);
  inv_hops : 2 <= PathGenerator.hops p <= 10;
  inv_venues :
    Z.of_nat (length (PathGenerator.dexes p)) = PathGenerator.hops p;
  inv_asset :
    head (PathGenerator.tokens p) = Some (PathGenerator.flashLoanAsset p)
}.

(** What the generator establishes for a path before filtering: one venue
    per hop, the start asset as flash-loan asset, and a token sequence that
    extends the prefix walked so far. *)
Definition candidate (startAsset : string) (prefix : list string)
    (p : PathGenerator.Path) : Prop :=
  Z.of_nat (length (PathGenerator.dexes p)) = PathGenerator.hops p
  /\ PathGenerator.flashLoanAsset p = startAsset
  /\ exists suffix, PathGenerator.tokens p = prefix ++ suffix.

(** The deduplication key of a path. *)
Definition keyOf (p : PathGenerator.Path) : string :=
  PathGenerator.pathKey (PathGenerator.tokens p) (PathGenerator.dexes p).

(** ** Execution gate (section 4.4) *)











Definition is_execute (e : ArbitrageBot.Event) : bool :=
  match e with
  | ArbitrageBot.Execute _ => true
  | _ => false
  end.

(** ** Numerical scenario (section 8) *)


(** ** Statistics *)

(** The entry of a table of counts under [name] after [n] increments:
    nothing before the first; the count [n] for most names; under the name
    of a member of [Object.prototype] the text of that member followed by
    [n] digits [1]; and nothing ever under [__proto__]. *)
Definition tallied (name : string) (n : Z) : option PathGenerator.Tally :=
  if n =? 0 then None
  else if String.eqb name "__proto__" then None
  else if inherited name then Some (PathGenerator.Text name (Z.to_nat n))
  else Some (PathGenerator.Count n).

(** ** Slippage of a fresh quote *)

Definition nonzero_finite (x : num) : bool :=
  match x with
  | Fin p => negb (Qeq_bool p 0)
  | _ => false
  end.

(** A request that [getPrice] answers with a freshly fetched quote: the
    cache holds no entry under the key of the request, or one that has
    expired. *)
Definition freshly_fetched (f : PriceFetcher.t)
    (dex tokenIn tokenOut : string) (amountIn : Provider.Amount) : bool :=
  match PriceFetcher.priceCache f
        !! PriceFetcher.cacheKey dex tokenIn tokenOut amountIn with
  | Some cached =>
      negb (PriceFetcher.clock f - PriceFetcher.timestamp cached
            <? PriceFetcher.cacheTimeout f)
  | None => true
  end.

(** Every leg of a run of the hop loop without a price snapshot is built
    from a freshly fetched quote: the request of the first hop is, and so
    are those of the hops after it, in the state the first hop leaves. *)
Fixpoint freshly_quoted (toString : num -> string) (s : ArbitrageScanner.t)
    (p : PathGenerator.Path) (remaining : list string) (i : nat)
    (currentAmount : Provider.Amount) (currentToken : option string)
    (f : PriceFetcher.t) : bool :=
  match remaining with
  | [] => true
  | dex :: rest =>
      freshly_fetched f dex
        (js_str (getTokenAddress currentToken))
        (js_str (getTokenAddress (PathGenerator.tokens p !! S i)))
        currentAmount
      && match swapLoop toString s p None [dex] i currentAmount currentToken
                        [] f with
         | (Some (amountOut, nextToken, _), f1) =>
             freshly_quoted toString s p rest (S i)
                            (amountOf toString amountOut) nextToken f1
         | (None, _) => true
         end
  end.

End Spec.

(** ** Concrete inputs *)

Module Scenario.

Import ArbitrageScanner.

(** The 3-hop path WBNB -> USDT -> BTCB -> WBNB on the given venues. *)
Definition wbnb_usdt_btcb (venues : list string) : PathGenerator.Path :=
  let tokenPath := ["WBNB"; "USDT"; "BTCB"; "WBNB"]%string in
  let pg := PathGenerator.new TOKEN_ADDRESSES DEX_CONFIGS in
  {| PathGenerator.id := PathGenerator.generatePathId tokenPath venues;
     PathGenerator.tokens := tokenPath;
     PathGenerator.dexes := venues;
     PathGenerator.hops := 3;
     PathGenerator.flashLoanAsset := "WBNB";
     PathGenerator.isCircular := true;
     PathGenerator.swaps := PathGenerator.generateSwapDetails pg tokenPath venues;
     PathGenerator.estimatedComplexity :=
       PathGenerator.calculatePathComplexity pg tokenPath venues;
     PathGenerator.liquidityScore :=
       PathGenerator.calculateLiquidityScore tokenPath "WBNB" |}.

Definition v2_venues : list string :=
  ["PANCAKESWAP_V2"; "BISWAP"; "MDEX"]%string.

Definition v3_venues : list string :=
  ["PANCAKESWAP_V3"; "UNISWAP_V3"; "PANCAKESWAP_V3"]%string.

(** A provider whose venues quote every pair at a fixed rate, independent
    of the amount: 300 USDT per WBNB, 0.0000215 BTCB per USDT and
    155.8139... WBNB per BTCB, so that the 3-hop cycle returns 1.005 times
    the loan. *)
Definition rate (tokenIn tokenOut : string) : option Q :=
  if String.eqb tokenIn "0xbb4CdB9CBd36B01bD1cBaEBF2De08d9173bc095c"
     && String.eqb tokenOut "0x55d398326f99059fF775485246999027B3197955"
  then Some (300 # 1)
  else if String.eqb tokenIn "0x55d398326f99059fF775485246999027B3197955"
          && String.eqb tokenOut "0x7130d2A12B9BCbFAe4f2634d864A1Ee1Ce3Ead9c"
  then Some (215 # 10000000)
  else if String.eqb tokenIn "0x7130d2A12B9BCbFAe4f2634d864A1Ee1Ce3Ead9c"
          && String.eqb tokenOut "0xbb4CdB9CBd36B01bD1cBaEBF2De08d9173bc095c"
  then Some ((1005 # 1000) * (10000000 # 64500))%Q
  else None.

Definition quote (tokenIn tokenOut : string) (amountIn : Provider.Amount)
  : option Q :=
  match rate tokenIn tokenOut, Provider.value amountIn with
  | Some r, Fin a => Some (Qred (a * r))
  | _, _ => None
  end.

Definition linear_provider : Provider.t :=
  {| Provider.getAmountsOut := fun _ _ amountIn path =>
       match path with
       | [tokenIn; tokenOut] => quote tokenIn tokenOut amountIn
       | _ => None
       end;
     Provider.quoteExactInputSingle := fun _ _ tokenIn tokenOut _ amountIn =>
       quote tokenIn tokenOut amountIn;
     Provider.latency := fun _ => 40;
     Provider.getBalance := Some (10 ^ 18);
     Provider.getFeeData := Some (Some (20 * 10 ^ 9)) |}.

(** A provider whose venues quote a zero output for every request. *)
Definition zero_provider : Provider.t :=
  {| Provider.getAmountsOut := fun _ _ _ _ => Some 0%Q;
     Provider.quoteExactInputSingle := fun _ _ _ _ _ _ => Some 0%Q;
     Provider.latency := fun _ => 40;
     Provider.getBalance := Some (10 ^ 18);
     Provider.getFeeData := Some (Some (5 * 10 ^ 9)) |}.

(** A rendering of numbers for the scenarios: numerator, a slash,
    denominator. *)
Definition showNum (x : num) : string :=
  match x with
  | Fin q => String.append (pretty (Qnum q))
                           (String.append "/" (pretty (Zpos (Qden q))))
  | PInf => "Infinity"
  | NInf => "-Infinity"
  | NaN => "NaN"
  end.

Definition zero_stats : ArbitrageBot.Stats :=
  {| ArbitrageBot.totalScans := 0;
     ArbitrageBot.circularOpportunitiesFound := 0;
     ArbitrageBot.flashLoanExecutions := 0;
     ArbitrageBot.totalProfit := Fin 0;
     ArbitrageBot.errors := 0;
     ArbitrageBot.pathsGenerated := 0 |}.

(** A running bot with the default configuration: minimum profit 0.5%,
    gas ceiling 20 gwei; the network gas price is 20 gwei. *)
Definition running_bot : ArbitrageBot.t :=
  {| ArbitrageBot.config :=
       {| ArbitrageBot.minProfitPercent := Fin (1 # 2);
          ArbitrageBot.maxGasPrice := 20 |};
     ArbitrageBot.provider := linear_provider;
     ArbitrageBot.executor := fun _ =>
       Some {| ArbitrageBot.success := true;
               ArbitrageBot.actualProfit := Fin (1 # 100) |};
     ArbitrageBot.isRunning := true;
     ArbitrageBot.currentScanIndex := 0;
     ArbitrageBot.stats := zero_stats |}.

(** An opportunity record with the given legs' hop count, net ROI and token
    path, one leg without price impact or slippage. *)
Definition plain_leg : SwapDetail :=
  {| index := 0; from := Some "WBNB"%string; to := Some "USDT"%string;
     dex := "PANCAKESWAP_V2"; amountIn := Fin 10; amountOut := Fin 3000;
     price := Fin 300; priceImpact := Fin 0; slippage := Fin 0 |}.

Definition opportunity_with (roi : num) : Opportunity :=
  {| pathId := "arb_0";
     path := ["WBNB"; "USDT"; "BTCB"; "WBNB"]%string;
     opp_dexes := v2_venues;
     opp_flashLoanAsset := Some "WBNB"%string;
     flashLoanAmount := Fin 10;
     finalAmount := Fin (1005 # 100);
     grossProfit := Fin (5 # 100);
     profitPercent := Fin (1 # 2);
     swapDetails := [plain_leg; plain_leg; plain_leg];
     opp_timestamp := 0;
     opp_isCircular := true;
     totalHops := 3;
     gasCost := Some (Fin (273 # 50000));
     opp_flashLoanFee := Some (Fin (9 # 1000));
     totalCosts := Some (Fin (723 # 50000));
     profitAfterCosts := Some (Fin (1777 # 50000));
     netROI := Some roi;
     confidence := None;
     riskLevel := None |}.

(** The same opportunity with a price impact on each leg. *)
Definition leg_with_impact (impact : num) : SwapDetail :=
  {| index := 0; from := Some "WBNB"%string; to := Some "USDT"%string;
     dex := "PANCAKESWAP_V2"; amountIn := Fin 10; amountOut := Fin 3000;
     price := Fin 300; priceImpact := impact; slippage := Fin 0 |}.

Definition opportunity_with_impact (impact roi : num) : Opportunity :=
  {| pathId := "arb_0";
     path := ["WBNB"; "USDT"; "BTCB"; "WBNB"]%string;
     opp_dexes := v2_venues;
     opp_flashLoanAsset := Some "WBNB"%string;
     flashLoanAmount := Fin 10;
     finalAmount := Fin (1005 # 100);
     grossProfit := Fin (5 # 100);
     profitPercent := Fin (1 # 2);
     swapDetails := [leg_with_impact impact; leg_with_impact impact;
                     leg_with_impact impact];
     opp_timestamp := 0;
     opp_isCircular := true;
     totalHops := 3;
     gasCost := Some (Fin (273 # 50000));
     opp_flashLoanFee := Some (Fin (9 # 1000));
     totalCosts := Some (Fin (723 # 50000));
     profitAfterCosts := Some (Fin (1777 # 50000));
     netROI := Some roi;
     confidence := None;
     riskLevel := None |}.

Definition ten_wbnb : Provider.Amount :=
  {| Provider.text := "10"; Provider.value := Fin 10 |}.

Definition wbnb_address : string := "0xbb4CdB9CBd36B01bD1cBaEBF2De08d9173bc095c".
Definition usdt_address : string := "0x55d398326f99059fF775485246999027B3197955".

(** A fetcher created at time 1000, and the quote its first request for
    10 WBNB to USDT on PancakeSwap V2 returns 40 ms later. *)
Definition fresh_fetcher (p : Provider.t) : PriceFetcher.t :=
  PriceFetcher.new p DEX_CONFIGS 1000.

Definition first_quote (amountOut price : num) : PriceFetcher.PriceData :=
  {| PriceFetcher.pd_dex := "PANCAKESWAP_V2";
     PriceFetcher.pd_tokenIn := wbnb_address;
     PriceFetcher.pd_tokenOut := usdt_address;
     PriceFetcher.pd_amountIn := Fin 10;
     PriceFetcher.pd_amountOut := amountOut;
     PriceFetcher.pd_price := price;
     PriceFetcher.pd_timestamp := 1040 |}.

Definition first_request : M PriceFetcher.t (option PriceFetcher.PriceData) :=
  PriceFetcher.getPrice "PANCAKESWAP_V2" wbnb_address usdt_address ten_wbnb.

(** What [scanPath] returns for the 3-hop path on constant-product venues
    with the fixed-rate provider: the loan is 30 WBNB (base 10, doubled for
    a short path, times 1.5 for a liquidity score of 85). *)
Definition scanned_leg (i : nat) (tokenIn tokenOut venue : string)
    (a b : Q) : SwapDetail :=
  {| index := i; from := Some tokenIn; to := Some tokenOut; dex := venue;
     amountIn := fin a; amountOut := fin b;
     price := bn_div (fin b) (fin a);
     priceImpact := Fin 0; slippage := Fin 0 |}.

Definition scanned_opportunity : Opportunity :=
  {| pathId := PathGenerator.generatePathId
                 ["WBNB"; "USDT"; "BTCB"; "WBNB"]%string v2_venues;
     path := ["WBNB"; "USDT"; "BTCB"; "WBNB"]%string;
     opp_dexes := v2_venues;
     opp_flashLoanAsset := Some "WBNB"%string;
     flashLoanAmount := Fin 30;
     finalAmount := fin (3015 # 100);
     grossProfit := fin (15 # 100);
     profitPercent := fin (1 # 2);
     swapDetails :=
       [ scanned_leg 0 "WBNB" "USDT" "PANCAKESWAP_V2" 30 9000;
         scanned_leg 1 "USDT" "BTCB" "BISWAP" 9000 (1935 # 10000);
         scanned_leg 2 "BTCB" "WBNB" "MDEX" (1935 # 10000) (3015 # 100) ];
     opp_timestamp := 1240;
     opp_isCircular := true;
     totalHops := 3;
     gasCost := Some (fin (546 # 100000));
     opp_flashLoanFee := Some (fin (27 # 1000));
     totalCosts := Some (fin (3246 # 100000));
     profitAfterCosts := Some (fin (11754 # 100000));
     netROI := Some (fin (3918 # 10000));
     confidence := Some (Fin 64);
     riskLevel := Some LOW |}.

(** The scanner with a gas price and a priority fee of 2 gwei each. *)
Definition scanner_4_gwei : ArbitrageScanner.t :=
  updateParameters new
    {| params_minProfitThreshold := None;
       params_maxPriceImpact := None;
       params_gasPrice := Some (Fin 2);
       params_priorityFee := Some (Fin 2);
       params_flashLoanFee := None |}.






(** A universe of two flash-loan assets, WBNB and BTCB, small enough to
    enumerate. *)
Definition small_tokens : list (string * TokenInfo) :=
  firstn 2 TOKEN_ADDRESSES.

(** The 3-hop path USDT -> WBNB -> BTCB -> USDT on the given venues. *)
Definition usdt_wbnb_btcb (venues : list string) : PathGenerator.Path :=
  let tokenPath := ["USDT"; "WBNB"; "BTCB"; "USDT"]%string in
  let pg := PathGenerator.new TOKEN_ADDRESSES DEX_CONFIGS in
  {| PathGenerator.id := PathGenerator.generatePathId tokenPath venues;
     PathGenerator.tokens := tokenPath;
     PathGenerator.dexes := venues;
     PathGenerator.hops := 3;
     PathGenerator.flashLoanAsset := "USDT";
     PathGenerator.isCircular := true;
     PathGenerator.swaps := PathGenerator.generateSwapDetails pg tokenPath venues;
     PathGenerator.estimatedComplexity :=
       PathGenerator.calculatePathComplexity pg tokenPath venues;
     PathGenerator.liquidityScore :=
       PathGenerator.calculateLiquidityScore tokenPath "USDT" |}.

(** An opportunity with a net ROI of 1%, scored and classified as
    [scanPath] does. *)
Definition vetted_opportunity : Opportunity :=
  let o := opportunity_with (Fin 1) in
  let o := assignConfidence o (calculateConfidenceScore o) in
  assignRiskLevel o (calculateRiskLevel o).

End Scenario.

(* ===================================================================== *)
(** * Properties *)
(* ===================================================================== *)

(** ** Numbers *)

Lemma fin_eq (a b : Q) : (a == b)%Q -> fin a = fin b.
Proof. intros H. unfold fin. f_equal. now apply Qred_complete. Qed.

Lemma fin_Qred (a : Q) : fin (Qred a) = fin a.
Proof. apply fin_eq, Qred_correct. Qed.

Lemma Qltb_lt (a b : Q) : Qltb a b = true <-> (a < b)%Q.
Proof.
  unfold Qltb. rewrite negb_true_iff, <- not_true_iff_false, Qle_bool_iff.
  split; [apply Qnot_le_lt | apply Qlt_not_le].
Qed.

Lemma Qltb_ge (a b : Q) : Qltb a b = false <-> (b <= a)%Q.
Proof.
  unfold Qltb. rewrite negb_false_iff. apply Qle_bool_iff.
Qed.

Lemma Qred_idem (q : Q) : Qred (Qred q) = Qred q.
Proof. apply Qred_complete, Qred_correct. Qed.

Lemma canonical_fin (q : Q) : canonical (fin q).
Proof. apply Qred_idem. Qed.

Lemma canonical_sub (x y : num) : canonical (Num.sub x y).
Proof. destruct x, y; simpl; auto using Qred_idem. Qed.

Lemma canonical_add (x y : num) : canonical (Num.add x y).
Proof. destruct x, y; simpl; auto using Qred_idem. Qed.

Lemma ltb_fin_mono (x : num) (a b : Q) :
  (a <= b)%Q -> ltb x (Fin a) = true -> ltb x (Fin b) = true.
Proof.
  intros Hab. destruct x as [q| | |]; simpl; auto.
  rewrite !Qltb_lt. lra.
Qed.

Lemma gtb_fin_mono (x : num) (a b : Q) :
  (a <= b)%Q -> gtb x (Fin b) = true -> gtb x (Fin a) = true.
Proof.
  intros Hab. unfold gtb. destruct x as [q| | |]; simpl; auto.
  rewrite !Qltb_lt. lra.
Qed.

Lemma sub_zero (x : num) : canonical x -> Num.sub x (Fin 0) = x.
Proof.
  destruct x as [q| | |]; simpl; auto. intros Hq. unfold fin.
  rewrite <- Hq at 2. f_equal. apply Qred_complete. lra.
Qed.

Lemma add_zero (x : num) : canonical x -> Num.add x (Fin 0) = x.
Proof.
  destruct x as [q| | |]; simpl; auto. intros Hq. unfold fin.
  rewrite <- Hq at 2. f_equal. apply Qred_complete. lra.
Qed.

Lemma sub_sub (x : num) (a b c : Q) :
  (a + b == c)%Q -> Num.sub (Num.sub x (Fin a)) (Fin b) = Num.sub x (Fin c).
Proof.
  intros H. destruct x as [q| | |]; simpl; auto.
  apply fin_eq. rewrite (Qred_correct (q - a)). lra.
Qed.

Lemma mul_comm (x y : num) : Num.mul x y = Num.mul y x.
Proof.
  destruct x as [a| | |], y as [b| | |]; simpl; auto;
    try (apply fin_eq; lra);
    unfold inf_of_sign; simpl;
    match goal with |- context [(?q ?= 0)%Q] => destruct (q ?= 0)%Q end;
    reflexivity.
Qed.

Lemma sub_fin_not_NaN (x : num) (a : Q) : x <> NaN -> Num.sub x (Fin a) <> NaN.
Proof. destruct x; simpl; unfold fin; congruence. Qed.

Lemma add_fin_not_NaN (x : num) (a : Q) : x <> NaN -> Num.add x (Fin a) <> NaN.
Proof. destruct x; simpl; unfold fin; congruence. Qed.

Lemma max2_not_NaN (x y : num) : x <> NaN -> y <> NaN -> max2 x y <> NaN.
Proof.
  destruct x, y; simpl; try congruence;
    match goal with |- context [if ?c then _ else _] => destruct c end;
    congruence.
Qed.

Lemma maxList_from_not_NaN (xs : list num) (x : num) :
  x <> NaN -> Forall (fun y => y <> NaN) xs -> fold_left max2 xs x <> NaN.
Proof.
  revert x. induction xs as [|y ys IH]; intros x Hx Hall; simpl; auto.
  inversion Hall; subst. apply IH; auto using max2_not_NaN.
Qed.

Lemma maxList_not_NaN (xs : list num) :
  Forall (fun y => y <> NaN) xs -> maxList xs <> NaN.
Proof. apply maxList_from_not_NaN. discriminate. Qed.

Example bn_div_samples :
  bn_div (Fin 1) (Fin 3) = fin (33333333333333333333 # 100000000000000000000)
  /\ bn_div (Fin 2) (Fin 3) = fin (66666666666666666667 # 100000000000000000000)
  /\ bn_div (Fin 0) (Fin 0) = NaN
  /\ bn_div (Fin 1) (Fin 0) = PInf
  /\ maxList [] = NInf
  /\ maxList [Fin 1; NaN; Fin 3] = NaN.
Proof. repeat split; vm_compute; reflexivity. Qed.

(** ** Numbers: comparisons *)

Lemma Qltb_Qred_l (x y : Q) : Qltb (Qred x) y = Qltb x y.
Proof. unfold Qltb. now rewrite Qred_correct. Qed.

Lemma Qltb_Qred_r (x y : Q) : Qltb x (Qred y) = Qltb x y.
Proof. unfold Qltb. now rewrite Qred_correct. Qed.

(** ** Numbers: conversion to a JavaScript number *)

Example toNumber_samples :
  toNumber (Fin (1 # 10)) = Fin (3602879701896397 # 36028797018963968)
  /\ toNumber (Fin (3 # 10)) = Fin (5404319552844595 # 18014398509481984)
  /\ toNumber (Fin (29999999999999999 # 100000000000000000))
     = toNumber (Fin (3 # 10))
  /\ toNumber (Fin (499999999999999997 # 1000000000000000000)) = Fin (1 # 2)
  /\ toNumber (Fin (1 # 2)) = Fin (1 # 2)
  /\ toNumber (Fin (-7 # 2)) = Fin (-7 # 2)
  /\ toNumber (ofZ (2 ^ 53 + 1)) = ofZ (2 ^ 53)
  /\ toNumber (ofZ (2 ^ 53 + 3)) = ofZ (2 ^ 53 + 4)
  /\ toNumber (ofZ (2 ^ 1024)) = PInf
  /\ toNumber (ofZ (2 ^ 1024 - 2 ^ 971)) = ofZ (2 ^ 1024 - 2 ^ 971)
  /\ toNumber (Fin (1 # Z.to_pos (2 ^ 1074))) = Fin (1 # Z.to_pos (2 ^ 1074))
  /\ toNumber (Fin (1 # Z.to_pos (2 ^ 1075))) = Fin 0
  /\ toNumber NaN = NaN.
Proof. vm_compute. repeat split. Qed.

Lemma round_half_even_nonneg (a b : Z) :
  0 <= a -> 0 < b -> 0 <= round_half_even a b.
Proof.
  intros Ha Hb. unfold round_half_even.
  pose proof (Z.div_pos a b Ha Hb).
  destruct (2 * (a mod b) ?= b); [destruct (Z.even (a / b))| |]; lia.
Qed.

Lemma binary64_not_negative (n d : positive) :
  ltb (binary64 n d) (Fin 0) = false.
Proof.
  unfold binary64. cbv zeta.
  set (ulp := Z.max (ilog2 n d) (-1022) - 52).
  set (m := round_half_even _ _).
  assert (Hm : 0 <= m).
  { apply round_half_even_nonneg.
    - pose proof (Z.pow_nonneg 2 (Z.max 0 (- ulp))). lia.
    - pose proof (Z.pow_pos_nonneg 2 (Z.max 0 ulp)). lia. }
  destruct (_ <=? _); [reflexivity|].
  unfold fin. cbn [ltb]. rewrite Qltb_Qred_l. apply Qltb_ge.
  unfold Qle. cbn [Qnum Qden].
  pose proof (Z.pow_nonneg 2 (Z.max 0 ulp)). nia.
Qed.

Lemma toNumber_not_NaN (x : num) : x <> NaN -> toNumber x <> NaN.
Proof.
  destruct x as [[[| n | n] d] | | |]; cbn [toNumber Qnum Qden];
    try congruence; intros _; unfold binary64; cbv zeta;
    destruct (_ <=? _); discriminate.
Qed.

(** The arithmetic of JavaScript numbers rounds: 0.1 + 0.2 is the number
    0.30000000000000004, not the number nearest to 0.3. *)
Example js_arithmetic_samples :
  js_add (toNumber (Fin (1 # 10))) (toNumber (Fin (2 # 10)))
  = toNumber (Fin (30000000000000004 # 100000000000000000))
  /\ js_add (toNumber (Fin (1 # 10))) (toNumber (Fin (2 # 10)))
     <> toNumber (Fin (3 # 10))
  /\ js_mul (toNumber (Fin (1 # 10))) (Fin 3)
     = toNumber (Fin (30000000000000004 # 100000000000000000))
  /\ js_sub (Fin 100) (js_mul (toNumber (Fin (1 # 10))) (Fin 8))
     = toNumber (Fin (992 # 10))
  /\ js_sub (Fin 100) (js_mul (toNumber (Fin (1 # 10))) (Fin 8))
     <> Num.sub (Fin 100) (Num.mul (toNumber (Fin (1 # 10))) (Fin 8))
  /\ js_mul (ofZ (2 ^ 1023)) (Fin 2) = PInf
  /\ js_sub PInf PInf = NaN.
Proof. vm_compute. repeat split; discriminate. Qed.

(** The conversion of a number that is not negative is not negative. *)
Lemma toNumber_not_negative (x : num) :
  ltb x (Fin 0) = false -> ltb (toNumber x) (Fin 0) = false.
Proof.
  destruct x as [[a d]| | |]; try (intros; reflexivity); try discriminate.
  cbn [ltb toNumber Qnum Qden]. intros Hq. apply Qltb_ge in Hq.
  destruct a as [|n|n].
  - reflexivity.
  - apply binary64_not_negative.
  - exfalso. unfold Qle in Hq. cbn in Hq. lia.
Qed.

(** ** Numbers: where the conversion to a JavaScript number crosses a threshold *)

Lemma round_half_even_le (a b k : Z) :
  0 < b ->
  round_half_even a b <= k
  <-> 2 * a < (2 * k + 1) * b \/ (2 * a = (2 * k + 1) * b /\ Z.even k = true).
Proof.
  intros Hb. unfold round_half_even.
  pose proof (Z.div_mod a b ltac:(lia)) as Hdiv.
  pose proof (Z.mod_pos_bound a b Hb) as Hmod.
  set (q := a / b) in *. set (r := a mod b) in *.
  destruct (Z.compare_spec (2 * r) b) as [Heq | Hlt | Hgt].
  - assert (Ha : 2 * a = (2 * q + 1) * b) by nia.
    destruct (Z.even q) eqn:Heven.
    + split.
      * intros Hle. destruct (Z.eq_dec q k) as [-> | Hne]; [right; auto|].
        left. nia.
      * intros [Hlt | [Heq' _]]; nia.
    + split.
      * intros Hle. left. nia.
      * intros [Hlt | [Heq' Hk]]; [nia|].
        assert (q = k) by nia. subst k. congruence.
  - split.
    + intros Hle. left. nia.
    + intros [H | [H _]]; nia.
  - split.
    + intros Hle. left. nia.
    + intros [H | [H _]]; nia.
Qed.

(** [2 ^ z] as the quotient of two powers of natural exponents. *)
Lemma pow2_quotient (z : Z) :
  (Qmake (2 ^ Z.max 0 z) (Z.to_pos (2 ^ Z.max 0 (- z))) == 2 ^ z)%Q.
Proof.
  destruct (Z.le_gt_cases 0 z) as [Hz | Hz].
  - rewrite (Z.max_r 0 z), (Z.max_l 0 (- z)) by lia.
    change (Z.to_pos (2 ^ 0)) with 1%positive.
    rewrite <- (Zpower_Qpower 2 z Hz). reflexivity.
  - rewrite (Z.max_l 0 z), (Z.max_r 0 (- z)) by lia.
    change (2 ^ 0) with 1.
    assert (Hinv : (2 ^ z == / inject_Z (2 ^ (- z)))%Q).
    { rewrite (Zpower_Qpower 2 (- z)) by lia.
      rewrite <- Qpower_opp. now replace (- - z) with z by lia. }
    rewrite Hinv.
    assert (Hp : 0 < 2 ^ (- z)) by (apply Z.pow_pos_nonneg; lia).
    destruct (2 ^ (- z)) as [|p|p] eqn:E; try lia.
    reflexivity.
Qed.

Lemma pow2_pos (z : Z) : (0 < 2 ^ z)%Q.
Proof. apply Qpower_0_lt. reflexivity. Qed.

Lemma pow2_plus (a b : Z) : (2 ^ (a + b) == 2 ^ a * 2 ^ b)%Q.
Proof. apply Qpower_plus. discriminate. Qed.

Lemma pow2_le (a b : Z) : a <= b -> (2 ^ a <= 2 ^ b)%Q.
Proof. intros H. apply Qpower_le_compat_l; [exact H | discriminate]. Qed.

Lemma pow2_lt (a b : Z) : a < b -> (2 ^ a < 2 ^ b)%Q.
Proof. intros H. apply Qpower_lt_compat_l; [exact H | reflexivity]. Qed.

Lemma pow2_le_fraction (z : Z) (n d : positive) :
  Zpos d * 2 ^ Z.max 0 z <= Zpos n * 2 ^ Z.max 0 (- z)
  <-> (2 ^ z <= Zpos n # d)%Q.
Proof.
  rewrite <- (pow2_quotient z). unfold Qle. cbn [Qnum Qden].
  rewrite Z2Pos.id by (apply Z.pow_pos_nonneg; lia).
  split; nia.
Qed.

Lemma log2_bounds (n : positive) :
  (2 ^ Z.log2 (Zpos n) <= inject_Z (Zpos n))%Q
  /\ (inject_Z (Zpos n) < 2 ^ (Z.log2 (Zpos n) + 1))%Q.
Proof.
  pose proof (Z.log2_spec (Zpos n) ltac:(lia)) as [Hlo Hhi].
  pose proof (Z.log2_nonneg (Zpos n)) as Hnn.
  split.
  - rewrite <- (Zpower_Qpower 2) by lia. now rewrite <- Zle_Qle.
  - rewrite <- (Zpower_Qpower 2) by lia. rewrite <- Zlt_Qlt.
    now rewrite <- Z.add_1_r in Hhi.
Qed.

(** [ilog2 n d] is the exponent of the binade of [n / d]. *)
Lemma ilog2_spec (n d : positive) :
  (2 ^ ilog2 n d <= Zpos n # d)%Q /\ (Zpos n # d < 2 ^ (ilog2 n d + 1))%Q.
Proof.
  unfold ilog2. cbv zeta.
  set (k := Z.log2 (Zpos n) - Z.log2 (Zpos d)).
  destruct (log2_bounds n) as [Hn1 Hn2], (log2_bounds d) as [Hd1 Hd2].
  assert (Hdpos : (0 < inject_Z (Zpos d))%Q) by (unfold Qlt; cbn; lia).
  assert (Hfrac : (Zpos n # d == inject_Z (Zpos n) / inject_Z (Zpos d))%Q)
    by apply Qmake_Qdiv.
  destruct (Z.leb_spec (Zpos d * 2 ^ Z.max 0 k) (Zpos n * 2 ^ Z.max 0 (- k)))
    as [Htest | Htest].
  - split; [now apply pow2_le_fraction|].
    rewrite Hfrac. apply Qlt_shift_div_r; [exact Hdpos|].
    apply Qlt_le_trans with (1 := Hn2).
    replace (Z.log2 (Zpos n) + 1) with (k + 1 + Z.log2 (Zpos d))
      by (unfold k; lia).
    rewrite pow2_plus.
    apply Qmult_le_l; [apply pow2_pos | exact Hd1].
  - split.
    + rewrite Hfrac. apply Qle_shift_div_l; [exact Hdpos|].
      apply Qle_trans with (2 := Hn1).
      replace (Z.log2 (Zpos n)) with (k - 1 + (Z.log2 (Zpos d) + 1))
        by (unfold k; lia).
      rewrite pow2_plus.
      apply Qmult_le_l; [apply pow2_pos | apply Qlt_le_weak, Hd2].
    + replace (k - 1 + 1) with k by lia.
      apply Qnot_le_lt. intros Hle. apply pow2_le_fraction in Hle. lia.
Qed.

Lemma half_units (K : Z) : (inject_Z K / 2 == K # 2)%Q.
Proof. unfold Qeq, Qdiv, Qmult, Qinv, inject_Z. cbn. lia. Qed.

(** Comparisons of [n / d] with the multiples of half a unit [2 ^ u],
    in the integers [binary64] rounds. *)
Lemma scaled_lt (n d : positive) (u K : Z) :
  2 * (Zpos n * 2 ^ Z.max 0 (- u)) < K * (Zpos d * 2 ^ Z.max 0 u)
  <-> (Zpos n # d < inject_Z K / 2 * 2 ^ u)%Q.
Proof.
  rewrite half_units, <- (pow2_quotient u).
  assert (Hp : 0 < 2 ^ Z.max 0 (- u)) by (apply Z.pow_pos_nonneg; lia).
  unfold Qlt, Qmult. cbn [Qnum Qden].
  rewrite !Pos2Z.inj_mul, Z2Pos.id by exact Hp.
  split; nia.
Qed.

Lemma scaled_eq (n d : positive) (u K : Z) :
  2 * (Zpos n * 2 ^ Z.max 0 (- u)) = K * (Zpos d * 2 ^ Z.max 0 u)
  <-> (Zpos n # d == inject_Z K / 2 * 2 ^ u)%Q.
Proof.
  rewrite half_units, <- (pow2_quotient u).
  assert (Hp : 0 < 2 ^ Z.max 0 (- u)) by (apply Z.pow_pos_nonneg; lia).
  unfold Qeq, Qmult. cbn [Qnum Qden].
  rewrite !Pos2Z.inj_mul, Z2Pos.id by exact Hp.
  split; nia.
Qed.

Lemma scaled_value (m u : Z) :
  (Qmake (m * 2 ^ Z.max 0 u) (Z.to_pos (2 ^ Z.max 0 (- u)))
   == inject_Z m * 2 ^ u)%Q.
Proof.
  rewrite <- (pow2_quotient u).
  unfold Qeq, Qmult, inject_Z. cbn [Qnum Qden]. nia.
Qed.

Lemma scaled_overflow (m u : Z) :
  2 ^ 1024 * 2 ^ Z.max 0 (- u) <= m * 2 ^ Z.max 0 u
  <-> (2 ^ 1024 <= inject_Z m * 2 ^ u)%Q.
Proof.
  rewrite <- (scaled_value m u).
  assert (Hp : 0 < 2 ^ Z.max 0 (- u)) by (apply Z.pow_pos_nonneg; lia).
  rewrite <- (Zpower_Qpower 2 1024) by lia.
  unfold Qle, inject_Z. cbn [Qnum Qden].
  rewrite Z2Pos.id by exact Hp. split; nia.
Qed.

Lemma scale_lt (p q : Q) (u : Z) : (p * 2 ^ u < q * 2 ^ u)%Q <-> (p < q)%Q.
Proof. apply Qmult_lt_r, pow2_pos. Qed.

Lemma scale_le (p q : Q) (u : Z) : (p * 2 ^ u <= q * 2 ^ u)%Q <-> (p <= q)%Q.
Proof. apply Qmult_le_r, pow2_pos. Qed.

Lemma scale_eq (p q : Q) (u : Z) : (p * 2 ^ u == q * 2 ^ u)%Q <-> (p == q)%Q.
Proof.
  split; intros H; [| now rewrite H].
  apply Qle_antisym; apply (scale_le _ _ u); rewrite H; apply Qle_refl.
Qed.

Lemma pow2_units (s u : Z) :
  0 <= s -> (inject_Z (2 ^ s) * 2 ^ u == 2 ^ (s + u))%Q.
Proof.
  intros Hs. rewrite pow2_plus, (Zpower_Qpower 2 s) by exact Hs. reflexivity.
Qed.

Lemma halves_lt (K A : Z) : (inject_Z K / 2 < inject_Z A)%Q <-> K < 2 * A.
Proof. rewrite half_units. unfold Qlt, inject_Z. cbn [Qnum Qden]. lia. Qed.

Lemma units_lt_halves (K A : Z) : (inject_Z A < inject_Z K / 2)%Q <-> 2 * A < K.
Proof. rewrite half_units. unfold Qlt, inject_Z. cbn [Qnum Qden]. lia. Qed.

(** The integer [binary64] rounds to, by the rational it rounds. *)
Lemma binary64_rounds (n d : positive) (u k : Z) :
  round_half_even (Zpos n * 2 ^ Z.max 0 (- u)) (Zpos d * 2 ^ Z.max 0 u) <= k
  <-> (Zpos n # d < inject_Z (2 * k + 1) / 2 * 2 ^ u)%Q
      \/ ((Zpos n # d == inject_Z (2 * k + 1) / 2 * 2 ^ u)%Q /\ Z.even k = true).
Proof.
  rewrite round_half_even_le by (apply Z.mul_pos_pos; [lia | apply Z.pow_pos_nonneg; lia]).
  rewrite scaled_lt, scaled_eq. reflexivity.
Qed.

(** Below the threshold [M * 2 ^ (E - 52)] after rounding, by the
    rational before rounding. *)
Lemma rounded_lt (n d : positive) (M E : Z) :
  2 ^ 52 < M <= 2 ^ 53 -> -1022 <= E ->
  let u := Z.max (ilog2 n d) (-1022) - 52 in
  let m := round_half_even (Zpos n * 2 ^ Z.max 0 (- u)) (Zpos d * 2 ^ Z.max 0 u) in
  (inject_Z m * 2 ^ u < inject_Z M * 2 ^ (E - 52))%Q
  <-> (Zpos n # d < inject_Z (2 * M - 1) / 2 * 2 ^ (E - 52))%Q
      \/ ((Zpos n # d == inject_Z (2 * M - 1) / 2 * 2 ^ (E - 52))%Q /\ Z.odd M = true).
Proof.
  intros HM HE u m.
  destruct (ilog2_spec n d) as [Hlo Hhi].
  set (x := (Zpos n # d)%Q) in *.
  set (e0 := ilog2 n d) in *.
  pose proof (binary64_rounds n d u) as Hm. fold m x in Hm.
  assert (HE1 : (2 ^ E == inject_Z (2 ^ 52) * 2 ^ (E - 52))%Q)
    by (rewrite pow2_units by lia; now replace (52 + (E - 52)) with E by lia).
  assert (HE2 : (2 ^ (E + 1) == inject_Z (2 ^ 53) * 2 ^ (E - 52))%Q)
    by (rewrite pow2_units by lia; now replace (53 + (E - 52)) with (E + 1) by lia).
  assert (HT1 : (2 ^ E < inject_Z M * 2 ^ (E - 52))%Q)
    by (rewrite HE1; apply scale_lt; rewrite <- Zlt_Qlt; lia).
  assert (HT2 : (inject_Z M * 2 ^ (E - 52) <= 2 ^ (E + 1))%Q)
    by (rewrite HE2; apply scale_le; rewrite <- Zle_Qle; lia).
  assert (Hmid1 : (2 ^ E < inject_Z (2 * M - 1) / 2 * 2 ^ (E - 52))%Q)
    by (rewrite HE1; apply scale_lt, units_lt_halves; lia).
  assert (Hmid2 : (inject_Z (2 * M - 1) / 2 * 2 ^ (E - 52) < 2 ^ (E + 1))%Q)
    by (rewrite HE2; apply scale_lt, halves_lt; lia).
  destruct (Z.lt_trichotomy e0 E) as [Hlt | [Heq | Hgt]].
  - (* a lower binade *)
    assert (Hx : (x < 2 ^ E)%Q)
      by (eapply Qlt_le_trans; [exact Hhi | apply pow2_le; lia]).
    split; intros _.
    + left. eapply Qlt_trans; [exact Hx | exact Hmid1].
    + set (j := E - 52 - u).
      assert (Hj : 0 <= j) by (unfold j, u; lia).
      assert (HEu : (2 ^ E == inject_Z (2 ^ (52 + j)) * 2 ^ u)%Q)
        by (rewrite pow2_units by lia; now replace (52 + j + u) with E by (unfold j; lia)).
      assert (Hle : m <= 2 ^ (52 + j)).
      { apply Hm. left. eapply Qlt_trans; [exact Hx |].
        rewrite HEu. apply scale_lt, units_lt_halves. lia. }
      eapply Qle_lt_trans; [| exact HT1].
      rewrite HEu. apply scale_le. now rewrite <- Zle_Qle.
  - (* the same binade *)
    assert (Hu : u = E - 52) by (unfold u; fold e0; lia).
    rewrite <- Hu. rewrite scale_lt, <- Zlt_Qlt.
    specialize (Hm (M - 1)).
    replace (2 * (M - 1) + 1) with (2 * M - 1) in Hm by lia.
    replace (Z.even (M - 1)) with (Z.odd M) in Hm
      by (symmetry; apply (Z.even_pred M)).
    rewrite <- Hm. lia.
  - (* a higher binade *)
    assert (Hx : (2 ^ (E + 1) <= x)%Q)
      by (eapply Qle_trans; [apply pow2_le | exact Hlo]; lia).
    split.
    + intros Hv. exfalso.
      assert (Hu : e0 = 52 + u) by (unfold u; fold e0; lia).
      assert (Hge : ~ m <= 2 ^ 52 - 1).
      { intros Hle. apply Hm in Hle.
        replace (2 * (2 ^ 52 - 1) + 1) with (2 * 2 ^ 52 - 1) in Hle by lia.
        assert (Hbelow : (inject_Z (2 * 2 ^ 52 - 1) / 2 * 2 ^ u < x)%Q).
        { eapply Qlt_le_trans; [| exact Hlo]. rewrite Hu, <- pow2_units by lia.
          apply scale_lt, halves_lt. lia. }
        destruct Hle as [Hle | [Hle _]].
        - exact (Qlt_irrefl _ (Qlt_trans _ _ _ Hle Hbelow)).
        - rewrite Hle in Hbelow. exact (Qlt_irrefl _ Hbelow). }
      assert (Hval : (2 ^ (E + 1) <= inject_Z m * 2 ^ u)%Q).
      { eapply Qle_trans; [apply (pow2_le _ e0); lia |].
        rewrite Hu, <- pow2_units by lia. apply scale_le. rewrite <- Zle_Qle. lia. }
      apply (Qlt_irrefl (inject_Z m * 2 ^ u)).
      eapply Qlt_le_trans; [exact Hv |]. eapply Qle_trans; [exact HT2 | exact Hval].
    + intros [Hv | [Hv _]]; exfalso.
      * apply (Qlt_irrefl x). eapply Qlt_trans; [exact Hv |].
        eapply Qlt_le_trans; [exact Hmid2 | exact Hx].
      * rewrite Hv in Hx. apply (Qlt_irrefl (2 ^ (E + 1))).
        eapply Qle_lt_trans; [exact Hx | exact Hmid2].
Qed.

(** A double [M * 2 ^ (E - 52)] of 53 significant bits is a threshold of
    the conversion at the midpoint below it: a rational converts to a
    number smaller than the double exactly when it is below the midpoint,
    or at the midpoint when [M] is odd (the tie goes to the even
    neighbour). *)
Lemma binary64_lt (n d : positive) (M E : Z) (T : Q) :
  2 ^ 52 < M <= 2 ^ 53 -> -1022 <= E <= 1023 ->
  (T == inject_Z M * 2 ^ (E - 52))%Q ->
  ltb (binary64 n d) (Fin T) = true
  <-> (Zpos n # d < inject_Z (2 * M - 1) / 2 * 2 ^ (E - 52))%Q
      \/ ((Zpos n # d == inject_Z (2 * M - 1) / 2 * 2 ^ (E - 52))%Q /\ Z.odd M = true).
Proof.
  intros HM HE HT.
  rewrite <- (rounded_lt n d M E HM (proj1 HE)). cbv zeta.
  unfold binary64. cbv zeta.
  set (u := Z.max (ilog2 n d) (-1022) - 52).
  set (m := round_half_even _ _).
  assert (Hmax : (inject_Z M * 2 ^ (E - 52) <= 2 ^ 1024)%Q).
  { replace 1024 with (53 + 971) by lia. rewrite <- pow2_units by lia.
    apply Qle_trans with (inject_Z (2 ^ 53) * 2 ^ (E - 52))%Q.
    - apply scale_le. rewrite <- Zle_Qle. lia.
    - apply Qmult_le_l; [rewrite (Zpower_Qpower 2 53) by lia; apply pow2_pos |].
      apply pow2_le. lia. }
  destruct (Z.leb_spec (2 ^ 1024 * 2 ^ Z.max 0 (- u)) (m * 2 ^ Z.max 0 u)) as [Hov | Hov].
  - apply scaled_overflow in Hov. cbn [ltb]. split; [discriminate |].
    intros Hlt. exfalso. apply (Qlt_irrefl (inject_Z m * 2 ^ u)).
    eapply Qlt_le_trans; [exact Hlt |]. eapply Qle_trans; [exact Hmax | exact Hov].
  - unfold fin. cbn [ltb]. rewrite Qltb_Qred_l, Qltb_lt, scaled_value, HT.
    reflexivity.
Qed.

Lemma binary64_shape (n d : positive) :
  binary64 n d = PInf
  \/ exists q : Q, binary64 n d = Fin q /\ (0 <= q)%Q.
Proof.
  pose proof (binary64_not_negative n d) as Hnn.
  destruct (binary64 n d) as [q | | |] eqn:Hr.
  - right. exists q. split; [reflexivity | now apply Qltb_ge].
  - now left.
  - unfold binary64 in Hr. cbv zeta in Hr.
    destruct (_ <=? _) in Hr; discriminate.
  - unfold binary64 in Hr. cbv zeta in Hr.
    destruct (_ <=? _) in Hr; discriminate.
Qed.

(** The same for the conversion of any finite number: zero and the
    negative numbers convert to numbers below every positive double. *)
Lemma toNumber_lt (q : Q) (M E : Z) (T : Q) :
  2 ^ 52 < M <= 2 ^ 53 -> -1022 <= E <= 1023 ->
  (T == inject_Z M * 2 ^ (E - 52))%Q ->
  ltb (toNumber (Fin q)) (Fin T) = true
  <-> (q < inject_Z (2 * M - 1) / 2 * 2 ^ (E - 52))%Q
      \/ ((q == inject_Z (2 * M - 1) / 2 * 2 ^ (E - 52))%Q /\ Z.odd M = true).
Proof.
  intros HM HE HT.
  assert (Hmid : (0 < inject_Z (2 * M - 1) / 2 * 2 ^ (E - 52))%Q).
  { apply Qmult_lt_0_compat; [| apply pow2_pos].
    apply (units_lt_halves (2 * M - 1) 0). lia. }
  assert (HTpos : (0 < T)%Q).
  { rewrite HT. apply Qmult_lt_0_compat; [| apply pow2_pos].
    change 0%Q with (inject_Z 0). rewrite <- Zlt_Qlt. lia. }
  destruct q as [[| n | n] d]; cbn [toNumber Qnum Qden].
  - split; intros _.
    + left. eapply Qle_lt_trans; [| exact Hmid]. unfold Qle. cbn. lia.
    + cbn [ltb]. apply Qltb_lt. exact HTpos.
  - now apply binary64_lt.
  - split.
    + intros _. left. eapply Qlt_trans; [| exact Hmid]. unfold Qlt. cbn. lia.
    + intros _. destruct (binary64_shape n d) as [-> | (v & -> & Hv)];
        [reflexivity |].
      unfold neg, fin. cbn [ltb]. rewrite Qltb_Qred_l. apply Qltb_lt.
      eapply Qle_lt_trans; [| exact HTpos].
      apply (Qopp_le_compat 0 v) in Hv. exact Hv.
Qed.

Lemma Qltb_iff (b : bool) (x y : Q) :
  (b = true <-> (x < y)%Q) -> b = Qltb x y.
Proof.
  intros H. destruct (Qltb x y) eqn:Hxy.
  - apply H, Qltb_lt, Hxy.
  - destruct b; [| reflexivity]. apply Qltb_ge in Hxy.
    exfalso. apply (Qlt_irrefl x). eapply Qlt_le_trans; [apply H; reflexivity | exact Hxy].
Qed.

(** The thresholds of the scanner's tests on the net ROI.  The doubles 1
    and 0.5 have even significands: a net ROI converts to a smaller number
    exactly when it lies below [1 - 2 ^ -54], or below [1/2 - 2 ^ -55]. *)
Lemma toNumber_lt_1 (q : Q) :
  ltb (toNumber (Fin q)) (Fin 1)
  = Qltb q (18014398509481983 # 18014398509481984).
Proof.
  apply Qltb_iff.
  rewrite (toNumber_lt q (2 ^ 53) (-1) 1) by (try lia; vm_compute; reflexivity).
  change (Z.odd (2 ^ 53)) with false.
  assert (Hmid : (inject_Z (2 * 2 ^ 53 - 1) / 2 * 2 ^ (-1 - 52)
                  == 18014398509481983 # 18014398509481984)%Q)
    by (vm_compute; reflexivity).
  rewrite Hmid. intuition discriminate.
Qed.

Lemma toNumber_lt_half (q : Q) :
  ltb (toNumber (Fin q)) (Fin (1 # 2))
  = Qltb q (18014398509481983 # 36028797018963968).
Proof.
  apply Qltb_iff.
  rewrite (toNumber_lt q (2 ^ 53) (-2) (1 # 2)) by (try lia; vm_compute; reflexivity).
  change (Z.odd (2 ^ 53)) with false.
  assert (Hmid : (inject_Z (2 * 2 ^ 53 - 1) / 2 * 2 ^ (-2 - 52)
                  == 18014398509481983 # 36028797018963968)%Q)
    by (vm_compute; reflexivity).
  rewrite Hmid. intuition discriminate.
Qed.

(** The double nearest to 0.3 has an odd significand: the midpoint below
    it converts to its even neighbour, and the test includes it. *)
Lemma toNumber_lt_three_tenths (q : Q) :
  ltb (toNumber (Fin q)) (toNumber (Fin (3 # 10)))
  = Qle_bool q (10808639105689189 # 36028797018963968).
Proof.
  change (toNumber (Fin (3 # 10)))
    with (Fin (5404319552844595 # 18014398509481984)).
  pose proof (toNumber_lt q 5404319552844595 (-2)
                (5404319552844595 # 18014398509481984)) as H.
  assert (Hmid : (inject_Z (2 * 5404319552844595 - 1) / 2 * 2 ^ (-2 - 52)
                  == 10808639105689189 # 36028797018963968)%Q)
    by (vm_compute; reflexivity).
  rewrite Hmid in H.
  specialize (H ltac:(lia) ltac:(lia) ltac:(vm_compute; reflexivity)).
  destruct (Qle_bool q (10808639105689189 # 36028797018963968)) eqn:Hle.
  - apply H. apply Qle_bool_iff in Hle. apply Qle_lteq in Hle.
    destruct Hle as [Hlt | Heq]; [left; exact Hlt | right; split; [exact Heq | reflexivity]].
  - destruct (ltb _ _); [| reflexivity].
    assert (Hle' : (q <= 10808639105689189 # 36028797018963968)%Q).
    { destruct (proj1 H eq_refl) as [Hlt | [Heq _]];
        [apply Qlt_le_weak, Hlt | rewrite Heq; apply Qle_refl]. }
    apply Qle_bool_iff in Hle'. congruence.
Qed.

(** The penalty and the bucket of a finite net ROI, by the rational
    itself. *)
Lemma roiPenalties_thresholds (q : Q) :
  Spec.roiPenalties (Fin q)
  = if Qltb q (18014398509481983 # 36028797018963968) then [Fin 25; Fin 35]
    else if Qltb q (18014398509481983 # 18014398509481984) then [Fin 25]
    else [].
Proof.
  unfold Spec.roiPenalties. rewrite toNumber_lt_half, toNumber_lt_1.
  destruct (Qltb q (18014398509481983 # 36028797018963968)) eqn:Hhalf.
  - assert (H1 : Qltb q (18014398509481983 # 18014398509481984) = true).
    { apply Qltb_lt. apply Qltb_lt in Hhalf.
      eapply Qlt_trans; [exact Hhalf | reflexivity]. }
    now rewrite H1.
  - now destruct (Qltb q (18014398509481983 # 18014398509481984)).
Qed.

Lemma roiBucket_thresholds (q : Q) :
  Spec.roiBucket (Fin q)
  = if Qle_bool q (10808639105689189 # 36028797018963968) then 3
    else if Qltb q (18014398509481983 # 36028797018963968) then 2
    else if Qltb q (18014398509481983 # 18014398509481984) then 1
    else 0.
Proof.
  unfold Spec.roiBucket.
  now rewrite toNumber_lt_three_tenths, toNumber_lt_half, toNumber_lt_1.
Qed.

(** ** Scan loop *)

Section ScanLoop.

Import ArbitrageBot.

Lemma scanLoop_error_step (b : t) (k : Z) (ds : list num)
    (rest : list CycleOutcome) :
  isRunning b = true ->
  k + 1 < maxConsecutiveErrors ->
  scanLoop_from (CycleError :: rest) b k ds =
  scanLoop_from rest (set_stats (add_error (stats b)) b) (k + 1)
                (ds ++ [ofZ (Z.min (1000 * 2 ^ (k + 1)) 30000)]).
Proof.
  intros Hrun Hk. cbn [scanLoop_from]. rewrite Hrun. cbn [negb].
  destruct (Z.leb_spec maxConsecutiveErrors (k + 1)); [lia | reflexivity].
Qed.

Lemma scanLoop_error_stop (b : t) (k : Z) (ds : list num)
    (rest : list CycleOutcome) :
  isRunning b = true ->
  maxConsecutiveErrors <= k + 1 ->
  scanLoop_from (CycleError :: rest) b k ds =
  (stop (set_stats (add_error (stats b)) b), k + 1, ds).
Proof.
  intros Hrun Hk. cbn [scanLoop_from]. rewrite Hrun. cbn [negb].
  destruct (Z.leb_spec maxConsecutiveErrors (k + 1)); [reflexivity | lia].
Qed.

Lemma scanLoop_success_step (b : t) (k found : Z) (ds : list num)
    (rest : list CycleOutcome) :
  isRunning b = true ->
  exists b' delay,
    isRunning b' = true
    /\ scanLoop_from (CycleOk found :: rest) b k ds =
       scanLoop_from rest b' 0 (ds ++ [delay]).
Proof.
  intros Hrun. cbn [scanLoop_from]. rewrite Hrun. cbn [negb].
  eexists _, _. split; [|reflexivity]. exact Hrun.
Qed.

(** C1, as the scenario states it, fails: the first delay is 2000 ms and
    the fifth error stops the loop without a delay. *)
Lemma C1_scenario_delays_differ :
  snd (scanLoop (repeat CycleError 11) Scenario.running_bot)
  <> Spec.scenario_backoff_delays.
Proof. vm_compute. discriminate. Qed.

(** C1 (amended).  From zero consecutive errors, five consecutive cycle
    errors make the loop sleep 2000, 4000, 8000 and 16000 ms (the delay
    after the k-th error is [min(1000 * 2^k, 30000)]), and the fifth error
    stops the bot without a further delay, whatever outcomes would follow;
    a successful cycle sets the counter back to zero. *)
Theorem C1_backoff_then_stopped (b : t) (rest : list CycleOutcome) :
  isRunning b = true ->
  (let '(b', n, delays) := scanLoop (repeat CycleError 5 ++ rest) b in
   delays = map ofZ [2000; 4000; 8000; 16000]
   /\ Forall (fun d => ltb (Fin 30000) d = false) delays
   /\ isRunning b' = false
   /\ n = maxConsecutiveErrors
   /\ errors (stats b') = errors (stats b) + 5)
  /\ (forall k ds,
        k + 1 < maxConsecutiveErrors ->
        scanLoop_from (CycleError :: rest) b k ds
        = scanLoop_from rest (set_stats (add_error (stats b)) b) (k + 1)
            (ds ++ [ofZ (Z.min (1000 * 2 ^ (k + 1)) 30000)]))
  /\ (forall found k ds,
        let '(b', n, _) := scanLoop_from [CycleOk found] b k ds in
        n = 0 /\ isRunning b' = true).
Proof.
  intros Hrun. split; [|split].
  - unfold scanLoop. cbn [repeat app].
    rewrite !scanLoop_error_step by (cbn; auto; unfold maxConsecutiveErrors; lia).
    rewrite scanLoop_error_stop by (cbn; auto; unfold maxConsecutiveErrors; lia).
    cbn. repeat split; auto. lia.
  - intros k ds Hk. now apply scanLoop_error_step.
  - intros found k ds. cbn. rewrite Hrun. cbn. auto.
Qed.

Lemma C1_backoff_then_stopped_witness :
  isRunning Scenario.running_bot = true
  /\ snd (scanLoop (repeat CycleError 5 ++ repeat CycleError 6)
                   Scenario.running_bot)
     = map ofZ [2000; 4000; 8000; 16000].
Proof.
  split; [reflexivity|].
  pose proof (C1_backoff_then_stopped Scenario.running_bot
                (repeat CycleError 6) eq_refl) as [H _].
  destruct (scanLoop _ _) as [[b' n] delays]. apply H.
Defined.

End ScanLoop.

(** ** Risk classification *)

Section Risk.

Import ArbitrageScanner Spec.

Lemma priceImpactBucket_range (x : num) : 0 <= priceImpactBucket x <= 3.
Proof. unfold priceImpactBucket. repeat case_match; lia. Qed.

Lemma hopBucket_range (h : Z) : 0 <= hopBucket h <= 3.
Proof. unfold hopBucket. repeat case_match; lia. Qed.

Lemma roiBucket_range (x : num) : 0 <= roiBucket x <= 3.
Proof. unfold roiBucket. repeat case_match; lia. Qed.

Lemma slippageBucket_range (x : num) : 0 <= slippageBucket x <= 2.
Proof. unfold slippageBucket. repeat case_match; lia. Qed.

Lemma classify_thresholds (s : Z) :
  (classify s = HIGH <-> 6 <= s)
  /\ (classify s = MEDIUM <-> 4 <= s < 6)
  /\ (classify s = LOW <-> s < 4).
Proof.
  unfold classify.
  destruct (Z.leb_spec 6 s), (Z.leb_spec 4 s);
    repeat split; intros; try discriminate; try lia.
Qed.

(** The net ROI is compared as a JavaScript number, and the number [0.3]
    lies slightly below three tenths: 0.29999999999999999 is read as that
    number and falls, like 0.3 itself, in the bucket of 2 points. *)
Example roiBucket_compares_numbers :
  roiBucket (Fin (29999999999999999 # 100000000000000000)) = 2
  /\ roiBucket (Fin (3 # 10)) = 2
  /\ roiBucket (Fin (2999 # 10000)) = 3
  /\ roiBucket (Fin (499999999999999997 # 1000000000000000000)) = 1
  /\ roiBucket (Fin (4999 # 10000)) = 2
  /\ roiBucket (Fin (999999999999999999 # 1000000000000000000)) = 0
  /\ roiBucket (Fin (9999 # 10000)) = 1
  /\ roiBucket NaN = 0.
Proof. vm_compute. repeat split. Qed.

(** The risk level is the classification of the sum of the four
    buckets. *)
Lemma calculateRiskLevel_classify (o : Opportunity) :
  calculateRiskLevel o
  = classify (priceImpactBucket (maxPriceImpactOf o)
              + hopBucket (totalHops o)
              + roiBucket (numOf (netROI o))
              + slippageBucket (maxSlippageOf o)).
Proof.
  unfold calculateRiskLevel, classify, priceImpactBucket, hopBucket,
    roiBucket, slippageBucket, maxPriceImpactOf, maxSlippageOf.
  set (mp := maxList (map priceImpact (swapDetails o))).
  set (ms := maxList (map slippage (swapDetails o))).
  set (roi := toNumber (numOf (netROI o))).
  set (h := totalHops o).
  destruct (gtb mp (Fin (3 # 2))), (gtb mp (Fin 1)), (gtb mp (Fin (1 # 2))),
    (6 <? h), (4 <? h), (3 <? h),
    (ltb roi (toNumber (Fin (3 # 10)))), (ltb roi (Fin (1 # 2))),
    (ltb roi (Fin 1)),
    (gtb ms (Fin 2)), (gtb ms (Fin 1)); reflexivity.
Qed.

(** C7.  The risk level is the classification of a score that is the sum
    of four buckets, each a function of one input alone (maximum price
    impact, hop count, net ROI, maximum slippage) with values between 0 and
    3; the total is HIGH from 6, MEDIUM from 4 and LOW below; the result is
    LOW, MEDIUM or HIGH.  The thresholds of the buckets are those of the
    source, the net ROI being compared as a JavaScript number. *)
Theorem C7_risk_level (o : Opportunity) :
  calculateRiskLevel o
  = classify (priceImpactBucket (maxPriceImpactOf o)
              + hopBucket (totalHops o)
              + roiBucket (numOf (netROI o))
              + slippageBucket (maxSlippageOf o))
  /\ (forall x, 0 <= priceImpactBucket x <= 3)
  /\ (forall h, 0 <= hopBucket h <= 3)
  /\ (forall x, 0 <= roiBucket x <= 3)
  /\ (forall x, 0 <= slippageBucket x <= 3)
  /\ (forall s, (classify s = HIGH <-> 6 <= s)
                /\ (classify s = MEDIUM <-> 4 <= s < 6)
                /\ (classify s = LOW <-> s < 4))
  /\ (calculateRiskLevel o = LOW
      \/ calculateRiskLevel o = MEDIUM
      \/ calculateRiskLevel o = HIGH).
Proof.
  split; [|split; [|split; [|split; [|split; [|split]]]]].
  - apply calculateRiskLevel_classify.
  - apply priceImpactBucket_range.
  - apply hopBucket_range.
  - apply roiBucket_range.
  - intros x. pose proof (slippageBucket_range x). lia.
  - apply classify_thresholds.
  - destruct (calculateRiskLevel o); auto.
Qed.

End Risk.

(** ** Execution gate *)

Section Gate.

Import ArbitrageScanner ArbitrageBot Spec.






End Gate.

(** ** Confidence score *)

Section Confidence.

Import ArbitrageScanner Spec.

Lemma clamp_in_range (x : num) : x <> NaN -> in_0_100 (clamp_0_100 x).
Proof.
  intros Hx. unfold clamp_0_100, in_0_100.
  destruct x as [q| | |]; try congruence; simpl.
  - destruct (Qltb 100 q) eqn:H100; simpl.
    + exists 100%Q. split; [reflexivity | lra].
    + apply Qltb_ge in H100.
      destruct (Qltb q 0) eqn:H0.
      * exists 0%Q. split; [reflexivity | lra].
      * apply Qltb_ge in H0. exists q. split; [reflexivity | lra].
  - exists 100%Q. split; [reflexivity | lra].
  - exists 0%Q. split; [reflexivity | lra].
Qed.

Lemma impact_term_not_NaN (x : num) :
  x <> NaN -> js_sub (Fin 100) (js_mul (Fin 8) x) <> NaN.
Proof.
  intros Hx. apply toNumber_not_NaN.
  assert (H8 : js_mul (Fin 8) x <> NaN).
  { apply toNumber_not_NaN. destruct x; simpl; unfold fin; congruence. }
  destruct (js_mul (Fin 8) x); simpl; unfold fin; congruence.
Qed.

Lemma js_sub_fin_not_NaN (x : num) (a : Q) :
  x <> NaN -> js_sub x (Fin a) <> NaN.
Proof. intros Hx. now apply toNumber_not_NaN, sub_fin_not_NaN. Qed.

Lemma js_add_fin_not_NaN (x : num) (a : Q) :
  x <> NaN -> js_add x (Fin a) <> NaN.
Proof. intros Hx. now apply toNumber_not_NaN, add_fin_not_NaN. Qed.

(** The score of the source is the formula with the penalties of the
    source, step by step. *)
Lemma calculateConfidenceScore_formula (o : Opportunity) :
  calculateConfidenceScore o = confidence_formula o.
Proof.
  unfold calculateConfidenceScore, confidence_formula, confidence_with,
    clamp_0_100, hopPenalty, liquidityBonus, maxPriceImpactOf, maxSlippageOf,
    roiPenalties, slippagePenalties, subtract.
  cbv zeta. unfold js_mul.
  rewrite (mul_comm _ (Fin 8)).
  rewrite (Z.mul_comm (Z.max 0 (totalHops o - 3)) 3).
  rewrite (Z.mul_comm (PathGenerator.count _ _) 3).
  destruct (ltb (toNumber (numOf (netROI o))) (Fin 1)),
    (ltb (toNumber (numOf (netROI o))) (Fin (1 # 2))),
    (gtb (maxList (map slippage (swapDetails o))) (Fin 1)),
    (gtb (maxList (map slippage (swapDetails o))) (Fin 2));
    reflexivity.
Qed.

Lemma confidence_formula_range (o : Opportunity) :
  maxPriceImpactOf o <> NaN -> in_0_100 (confidence_formula o).
Proof.
  intros Hmp. unfold confidence_formula, confidence_with. cbv zeta.
  apply clamp_in_range.
  unfold slippagePenalties, roiPenalties, subtract, hopPenalty,
    liquidityBonus, ofZ.
  repeat case_match; cbn [app fold_left];
    repeat (apply js_sub_fin_not_NaN || apply js_add_fin_not_NaN);
    now apply impact_term_not_NaN.
Qed.

(** C2, as stated, fails: with a net ROI of 0.4% the source subtracts 25
    and 35, the reference formula 25 and 10; and a net ROI of 0.499999999999999997%, which
    the comparison reads as the number 0.5, draws 25 in the source and 35 in
    the reference formula. *)
Lemma C2_reference_formula_differs :
  calculateConfidenceScore (Scenario.opportunity_with (Fin (4 # 10))) = Fin 64
  /\ confidence_reference (Scenario.opportunity_with (Fin (4 # 10))) = Fin 89
  /\ calculateConfidenceScore (Scenario.opportunity_with (Fin (4 # 10)))
     <> confidence_reference (Scenario.opportunity_with (Fin (4 # 10)))
  /\ calculateConfidenceScore
       (Scenario.opportunity_with
          (Fin (499999999999999997 # 1000000000000000000))) = Fin 99
  /\ confidence_reference
       (Scenario.opportunity_with
          (Fin (499999999999999997 # 1000000000000000000))) = Fin 89.
Proof. vm_compute. repeat split; discriminate. Qed.

(** The net ROI is compared as a JavaScript number: 0.499999999999999997
    is read as 0.5 and draws the first penalty only, 0.999999999999999999
    is read as 1 and draws none. *)
Example calculateConfidenceScore_compares_numbers :
  calculateConfidenceScore
    (Scenario.opportunity_with
       (Fin (499999999999999997 # 1000000000000000000))) = Fin 99
  /\ calculateConfidenceScore (Scenario.opportunity_with (Fin (1 # 2)))
     = Fin 99
  /\ calculateConfidenceScore (Scenario.opportunity_with (Fin (4999 # 10000)))
     = Fin 64
  /\ calculateConfidenceScore
       (Scenario.opportunity_with
          (Fin (999999999999999999 # 1000000000000000000))) = Fin 100
  /\ calculateConfidenceScore (Scenario.opportunity_with (Fin (9999 # 10000)))
     = Fin 99.
Proof. vm_compute. repeat split. Qed.

(** The score is computed with JavaScript numbers: with a price impact of
    0.1 and a net ROI of 0.4 it is the number 63.2, which arithmetic
    without rounding on the number 0.1 misses by [13 * 2 ^ -52]. *)
Example calculateConfidenceScore_rounds :
  calculateConfidenceScore
    (Scenario.opportunity_with_impact (toNumber (Fin (1 # 10))) (Fin (4 # 10)))
  = toNumber (Fin (632 # 10))
  /\ calculateConfidenceScore
       (Scenario.opportunity_with_impact (toNumber (Fin (1 # 10)))
          (Fin (4 # 10)))
     <> clamp_0_100
          (Num.sub (Fin 64) (Num.mul (Fin 8) (toNumber (Fin (1 # 10))))).
Proof. vm_compute. split; [reflexivity | discriminate]. Qed.

(** C2 (amended).  For an opportunity none of whose hops has a NaN price
    impact, the confidence score is, computed step by step with JavaScript
    numbers: 100, minus 8 times the maximum price impact, minus 3 per hop
    beyond three, minus 25 if the net ROI, compared as a JavaScript number,
    is below 1 and minus a further 35 if it is below 0.5, plus 15 when
    circular, plus 3 per high-liquidity asset of the path, minus 20 if the
    maximum slippage exceeds 1 and minus a further 30 if it exceeds 2,
    clamped into [0, 100]; the result lies in [0, 100]. *)
Theorem C2_confidence_score (o : Opportunity) :
  Forall (fun d => priceImpact d <> NaN) (swapDetails o) ->
  calculateConfidenceScore o = confidence_formula o
  /\ in_0_100 (calculateConfidenceScore o).
Proof.
  intros Hall. split; [apply calculateConfidenceScore_formula|].
  rewrite calculateConfidenceScore_formula.
  apply confidence_formula_range. unfold maxPriceImpactOf.
  apply maxList_not_NaN. rewrite Forall_map. exact Hall.
Qed.

Lemma C2_confidence_score_witness :
  Forall (fun d => priceImpact d <> NaN)
         (swapDetails (Scenario.opportunity_with (Fin (4 # 10))))
  /\ calculateConfidenceScore (Scenario.opportunity_with (Fin (4 # 10)))
     = confidence_formula (Scenario.opportunity_with (Fin (4 # 10))).
Proof.
  assert (H : Forall (fun d => priceImpact d <> NaN)
                     (swapDetails (Scenario.opportunity_with (Fin (4 # 10))))).
  { repeat constructor; discriminate. }
  split; [exact H|].
  exact (proj1 (C2_confidence_score _ H)).
Defined.

End Confidence.

(** ** Price fetcher: cache *)

Section Cache.

Import Provider PriceFetcher.

(** Upstream requests only log the call and advance the clock. *)
Lemma record_call_frame (c : UpstreamCall) (f : t) :
  priceCache (record_call c f) = priceCache f
  /\ cacheTimeout (record_call c f) = cacheTimeout f
  /\ provider (record_call c f) = provider f
  /\ length (upstreamCalls (record_call c f)) = S (length (upstreamCalls f)).
Proof.
  unfold record_call; cbn. repeat split. rewrite length_app. cbn. lia.
Qed.

Lemma getPriceV2_frame (r tokenIn tokenOut : string) (a : Amount) (f : t) :
  let f' := snd (getPriceV2 r tokenIn tokenOut a f) in
  priceCache f' = priceCache f
  /\ cacheTimeout f' = cacheTimeout f
  /\ (length (upstreamCalls f) < length (upstreamCalls f'))%nat.
Proof.
  unfold getPriceV2, bind, gets, modify, ret. cbn.
  destruct (getAmountsOut _ _ _ _ _); cbn.
  - split; [|split]; auto. rewrite length_app. cbn. lia.
  - destruct (negb _ && negb _); cbn; (split; [|split]); auto;
      rewrite ?length_app; cbn; lia.
Qed.

Lemma getPriceV3_tiers_cons (q tokenIn tokenOut : string) (a : Amount)
    (fee : Z) (rest : list Z) (f : t) :
  getPriceV3_tiers q tokenIn tokenOut a (fee :: rest) f
  = match quoteExactInputSingle (provider f) (length (upstreamCalls f))
                                q tokenIn tokenOut fee a with
    | Some amountOut =>
        (Some amountOut,
         record_call (QuoteExactInputSingle q tokenIn tokenOut fee a) f)
    | None =>
        getPriceV3_tiers q tokenIn tokenOut a rest
          (record_call (QuoteExactInputSingle q tokenIn tokenOut fee a) f)
    end.
Proof.
  cbn [getPriceV3_tiers]. unfold bind, gets, modify, ret. cbn.
  destruct (quoteExactInputSingle _ _ _ _ _ _ _); reflexivity.
Qed.

Lemma getPriceV3_tiers_frame (q tokenIn tokenOut : string) (a : Amount)
    (tiers : list Z) (f : t) :
  let f' := snd (getPriceV3_tiers q tokenIn tokenOut a tiers f) in
  priceCache f' = priceCache f
  /\ cacheTimeout f' = cacheTimeout f
  /\ (fst (getPriceV3_tiers q tokenIn tokenOut a tiers f) <> None ->
      (length (upstreamCalls f) < length (upstreamCalls f'))%nat).
Proof.
  cbv zeta. revert f. induction tiers as [|fee rest IH]; intros f.
  - cbn. split; [|split]; auto. congruence.
  - rewrite getPriceV3_tiers_cons.
    pose proof (record_call_frame
                  (QuoteExactInputSingle q tokenIn tokenOut fee a) f)
      as (Rc & Rt & _ & Rn).
    destruct (quoteExactInputSingle _ _ _ _ _ _ _).
    + cbn [fst snd]. split; [|split]; auto. intros _. lia.
    + destruct (IH (record_call
                      (QuoteExactInputSingle q tokenIn tokenOut fee a) f))
        as (Hc & Ht & Hn).
      split; [congruence|]. split; [congruence|].
      intros Hsome. specialize (Hn Hsome). lia.
Qed.

Lemma fetchAmountOut_frame (contract : Contract)
    (dexName tokenIn tokenOut : string) (a : Amount) (f : t) :
  let r := fetchAmountOut contract dexName tokenIn tokenOut a f in
  priceCache (snd r) = priceCache f
  /\ cacheTimeout (snd r) = cacheTimeout f
  /\ (fst r <> None ->
      (length (upstreamCalls f) < length (upstreamCalls (snd r)))%nat).
Proof.
  cbv zeta. unfold fetchAmountOut. destruct (c_type contract).
  - pose proof (getPriceV2_frame (c_router contract) tokenIn tokenOut a f)
      as (H1 & H2 & H3). auto.
  - unfold getPriceV3, bind, gets, ret. cbn.
    destruct (get (dexConfigs f) dexName) as [cfg|]; cbn;
      [|split; [|split]; congruence].
    destruct (c_quoter contract) as [qt|]; cbn;
      [|split; [|split]; congruence].
    apply getPriceV3_tiers_frame.
Qed.

(** What a successful fetch returns and leaves in the cache. *)
Lemma fetchPrice_success (key dexName tokenIn tokenOut : string) (a : Amount)
    (f f1 : t) (q : PriceData) :
  fetchPrice key dexName tokenIn tokenOut a f = (Some q, f1) ->
  priceCache f1 !! key = Some {| data := q; timestamp := clock f1 |}
  /\ cacheTimeout f1 = cacheTimeout f
  /\ (length (upstreamCalls f) < length (upstreamCalls f1))%nat
  /\ pd_amountIn q = value a
  /\ pd_price q = bn_div (pd_amountOut q) (value a)
  /\ pd_timestamp q = clock f1.
Proof.
  unfold fetchPrice, bind, gets, modify, ret. cbn.
  destruct (get (contracts f) dexName) as [contract|]; [|discriminate].
  pose proof (fetchAmountOut_frame contract dexName tokenIn tokenOut a f)
    as Hframe. cbv zeta in Hframe.
  destruct (fetchAmountOut contract dexName tokenIn tokenOut a f)
    as [[amountOut|] f'] eqn:Hfetch; [|discriminate].
  cbn in Hframe. destruct Hframe as (Hc & Ht & Hn).
  intros Heq. inversion Heq; subst; clear Heq. cbn.
  rewrite lookup_insert_eq.
  split; [reflexivity|]. split; [assumption|]. split; [|auto].
  apply Hn. discriminate.
Qed.



End Cache.

(** ** Slippage of a freshly fetched quote *)

Section Slippage.

Import ArbitrageScanner Spec.

Lemma bn_div_zero_by (q : Q) :
  Qeq_bool q 0 = false -> bn_div (Fin 0) (Fin q) = Fin 0.
Proof.
  intros Hq. unfold bn_div, Num.div. rewrite Hq. unfold fin.
  assert (H0 : Qred (0 / q) = 0%Q).
  { change 0%Q with (Qred 0) at 2. apply Qred_complete.
    unfold Qdiv. apply Qmult_0_l. }
  rewrite H0. reflexivity.
Qed.

(** The slippage of a leg whose expected price is the price of its own
    amounts. *)
Lemma calculateSlippage_own_price (amountIn amountOut : num) :
  calculateSlippage amountIn amountOut (bn_div amountOut amountIn)
  = if nonzero_finite (bn_div amountOut amountIn) then Fin 0 else NaN.
Proof.
  unfold calculateSlippage.
  destruct (bn_div amountOut amountIn) as [p| | |]; try reflexivity.
  cbn [Num.sub nonzero_finite].
  assert (Hsub : fin (p - p) = Fin 0).
  { rewrite (fin_eq (p - p) 0) by lra. reflexivity. }
  rewrite Hsub.
  destruct (Qeq_bool p 0) eqn:Hp; cbn [negb].
  - unfold bn_div, Num.div. rewrite Hp. reflexivity.
  - rewrite bn_div_zero_by by assumption. reflexivity.
Qed.

Lemma zero_or_NaN_not_above (x : num) (a : Q) :
  x = Fin 0 \/ x = NaN -> (0 <= a)%Q -> gtb x (Fin a) = false.
Proof.
  intros [-> | ->] Ha; [|reflexivity].
  unfold gtb. cbn. apply Qltb_ge. exact Ha.
Qed.

(** The maximum of slippages that are all zero or NaN is not above 1. *)
Lemma maxList_zero_or_NaN (xs : list num) (x : num) :
  x = NInf \/ x = Fin 0 \/ x = NaN ->
  Forall (fun y => y = Fin 0 \/ y = NaN) xs ->
  fold_left max2 xs x = NInf \/ fold_left max2 xs x = Fin 0
  \/ fold_left max2 xs x = NaN.
Proof.
  revert x. induction xs as [|y ys IH]; intros x Hx Hall; [exact Hx|].
  inversion Hall as [|? ? Hy Hys]; subst. cbn [fold_left].
  apply IH; [|exact Hys].
  destruct Hx as [-> | [-> | ->]], Hy as [-> | ->]; cbn; auto.
Qed.

Lemma no_slippage_penalty (legs : list SwapDetail) :
  Forall (fun d => slippage d = Fin 0 \/ slippage d = NaN) legs ->
  slippagePenalties (maxList (map slippage legs)) = []
  /\ slippageBucket (maxList (map slippage legs)) = 0.
Proof.
  intros Hall.
  assert (H : maxList (map slippage legs) = NInf
              \/ maxList (map slippage legs) = Fin 0
              \/ maxList (map slippage legs) = NaN).
  { apply maxList_zero_or_NaN; [auto|]. now rewrite Forall_map. }
  destruct H as [-> | [-> | ->]]; split; reflexivity.
Qed.

(** C10, as stated, fails for a quote with a zero output: the price is 0
    and the slippage is 0 / 0, which is NaN. *)
Lemma C10_zero_output_slippage_is_NaN :
  fst (Scenario.first_request (Scenario.fresh_fetcher Scenario.zero_provider))
  = Some (Scenario.first_quote (Fin 0) (Fin 0))
  /\ calculateSlippage (Provider.value Scenario.ten_wbnb) (Fin 0) (Fin 0) = NaN
  /\ calculateSlippage (Provider.value Scenario.ten_wbnb) (Fin 0) (Fin 0)
     <> Fin 0
  /\ (fun walked => map slippage (snd walked))
       <$> fst (swapLoop Scenario.showNum new
                  (Scenario.wbnb_usdt_btcb Scenario.v2_venues) None
                  ["PANCAKESWAP_V2"%string] 0
                  (amountOf Scenario.showNum (Fin 10)) (Some "WBNB"%string) []
                  (Scenario.fresh_fetcher Scenario.zero_provider))
     = Some [NaN].
Proof. vm_compute. repeat split; discriminate. Qed.

End Slippage.

(** ** Scanner: what a returned opportunity satisfies *)

Section Scan.

Import ArbitrageScanner Spec.
Import PathGenerator (Path, tokens, dexes, hops, flashLoanAsset, isCircular,
                      liquidityScore, opt_eqb).

Variable toString : num -> string.

Lemma opt_eqb_eq (a b : option string) : opt_eqb a b = true -> a = b.
Proof.
  destruct a, b; cbn; try discriminate; auto.
  intros H. apply String.eqb_eq in H. now subst.
Qed.

(** The hop loop appends one leg per remaining venue, and the last leg it
    appends ends in the token the loop ends on. *)
Lemma swapLoop_legs (s : t) (p : Path) (prices : option Snapshot)
    (remaining : list string) :
  forall (i : nat) (amount : Provider.Amount) (token : option string)
         (acc : list SwapDetail) (f : PriceFetcher.t)
         (amount' : num) (token' : option string) (legs : list SwapDetail)
         (f' : PriceFetcher.t),
    swapLoop toString s p prices remaining i amount token acc f
    = (Some (amount', token', legs), f') ->
    length legs = (length acc + length remaining)%nat
    /\ (remaining = [] -> token' = token /\ legs = acc)
    /\ (remaining <> [] ->
        exists d, last legs = Some d /\ to d = token').
Proof.
  induction remaining as [|dex rest IH];
    intros i amount token acc f amount' token' legs f' Hloop.
  - cbn in Hloop. unfold ret in Hloop. inversion Hloop; subst.
    split; [cbn; lia|]. split; [auto | congruence].
  - cbn [swapLoop] in Hloop. unfold bind in Hloop.
    match type of Hloop with
    | (let (_, _) := ?m in _) = _ => destruct m as [[priceData|] f2]
    end; [|discriminate].
    destruct (calculatePriceImpact _ _ _ _ f2) as [impact f3].
    match type of Hloop with
    | (if ?c then _ else _) _ = _ => destruct c
    end; [discriminate|].
    apply IH in Hloop as (Hlen & Hnil & Hcons).
    rewrite length_app in Hlen. cbn in Hlen.
    split; [cbn; lia|]. split; [discriminate|]. intros _.
    destruct rest as [|dex' rest'].
    + destruct (Hnil eq_refl) as [-> ->].
      eexists. rewrite last_snoc. split; reflexivity.
    + apply Hcons. discriminate.
Qed.

(** An opportunity object is computed from a loan that is a [BigNumber],
    by one run of the hop loop that ends on the first asset of the
    path. *)
Lemma calculateCircularPathProfit_computed (s : t) (p : Path)
    (prices : option Snapshot) (f f' : PriceFetcher.t) (o : Opportunity) :
  calculateCircularPathProfit toString s p prices f = (Computed o, f') ->
  exists loan amount' legs f0,
    calculateOptimalFlashLoanAmount p = BigNumber loan
    /\ swapLoop toString s p prices (dexes p) 0 (amountOf toString loan)
                (head (tokens p)) [] f
       = (Some (amount', head (tokens p), legs), f0)
    /\ o = {| pathId := PathGenerator.id p;
              path := tokens p;
              opp_dexes := dexes p;
              opp_flashLoanAsset := head (tokens p);
              flashLoanAmount := loan;
              finalAmount := amount';
              grossProfit := Num.sub amount' loan;
              profitPercent :=
                toNumber (Num.mul (bn_div (Num.sub amount' loan) loan)
                                  (Fin 100));
              swapDetails := legs;
              opp_timestamp := PriceFetcher.clock f0;
              opp_isCircular := true;
              totalHops := hops p;
              gasCost := None;
              opp_flashLoanFee := None;
              totalCosts := None;
              profitAfterCosts := None;
              netROI := None;
              confidence := None;
              riskLevel := None |}.
Proof.
  unfold calculateCircularPathProfit, bind, gets, ret.
  destruct (calculateOptimalFlashLoanAmount p) as [loan|name|] eqn:Hloan;
    cbn [startAmount]; [| |discriminate].
  - destruct (swapLoop _ _ _ _ _ _ _ _ _ f)
      as [[[[amount' token'] legs]|] f2] eqn:Hloop; [|discriminate].
    destruct (opt_eqb token' (head (tokens p))) eqn:Hback; cbn [negb];
      [|discriminate].
    apply opt_eqb_eq in Hback. subst token'.
    intros Heq. inversion Heq; subst; clear Heq.
    exists loan, amount', legs, f'.
    split_and!; [reflexivity | exact Hloop | reflexivity].
  - destruct (swapLoop _ _ _ _ _ _ _ _ _ f)
      as [[[[amount' token'] legs]|] f2]; [|discriminate].
    destruct (negb _); [discriminate|].
    destruct (dexes p); discriminate.
Qed.

Lemma calculateCircularPathProfit_legs (s : t) (p : Path)
    (prices : option Snapshot) (f f' : PriceFetcher.t) (o : Opportunity) :
  calculateCircularPathProfit toString s p prices f = (Computed o, f') ->
  length (swapDetails o) = length (dexes p)
  /\ opp_flashLoanAsset o = head (tokens p)
  /\ totalHops o = hops p
  /\ path o = tokens p
  /\ opp_isCircular o = true
  /\ (dexes p <> [] ->
      exists d, last (swapDetails o) = Some d /\ to d = head (tokens p)).
Proof.
  intros Hprofit.
  apply calculateCircularPathProfit_computed in Hprofit
    as (loan & amount' & legs & f0 & _ & Hloop & ->).
  apply swapLoop_legs in Hloop as (Hlen & _ & Hcons).
  cbn. repeat split; auto.
Qed.

(** What [scanPath] returns is an opportunity object computed by
    [calculateCircularPathProfit], completed with its costs, score and risk
    level. *)
Lemma scanPath_computed (s : t) (p : Path) (prices : option Snapshot)
    (f f' : PriceFetcher.t) (o : Opportunity) :
  scanPath toString s p prices f = (Some o, f') ->
  exists o0,
    calculateCircularPathProfit toString s p prices f = (Computed o0, f')
    /\ ltb (profitPercent o0) (minProfitThreshold s) = false
    /\ (let totalCosts := calculateTotalCosts s p (flashLoanAmount o0) in
        let profitAfterCosts :=
          Num.sub (grossProfit o0) (costs_total totalCosts) in
        let netROI :=
          Num.mul (bn_div profitAfterCosts (flashLoanAmount o0)) (Fin 100) in
        let o1 := assignCosts o0 totalCosts profitAfterCosts netROI in
        let o2 := assignConfidence o1 (calculateConfidenceScore o1) in
        gtb profitAfterCosts (Fin 0) = true
        /\ o = assignRiskLevel o2 (calculateRiskLevel o2)).
Proof.
  intros Hscan. unfold scanPath, bind, ret in Hscan.
  destruct (negb (isCircular p) || _); [discriminate|].
  destruct (calculateCircularPathProfit toString s p prices f)
    as [[|o0|name|] f2] eqn:Hprofit; try discriminate.
  destruct (ltb (profitPercent o0) (minProfitThreshold s)) eqn:Hmin;
    [discriminate|].
  destruct (gtb _ (Fin 0)) eqn:Hnet; [|discriminate].
  inversion Hscan; subst; clear Hscan.
  exists o0. cbv zeta. split_and!; auto.
Qed.

(** The score and the risk level of a returned opportunity are those of
    the opportunity itself. *)
Lemma scanPath_scored (s : t) (p : Path) (prices : option Snapshot)
    (f f' : PriceFetcher.t) (o : Opportunity) :
  scanPath toString s p prices f = (Some o, f') ->
  confidence o = Some (calculateConfidenceScore o)
  /\ riskLevel o = Some (calculateRiskLevel o).
Proof.
  intros Hscan.
  apply scanPath_computed in Hscan as (o0 & _ & _ & _ & ->).
  split; reflexivity.
Qed.

(** C3.  For a path that satisfies the invariant of the data model, an
    opportunity returned by [scanPath], with or without a price snapshot,
    has a net profit strictly above zero, exactly [hops] swap legs, and a
    last leg whose output asset is the flash-loan asset, which is the asset
    at both ends of the path. *)
Theorem C3_returned_opportunity (s : t) (p : Path)
    (prices : option Snapshot) (f f' : PriceFetcher.t) (o : Opportunity) :
  CircularPath_inv p ->
  scanPath toString s p prices f = (Some o, f') ->
  (exists net, profitAfterCosts o = Some net /\ gtb net (Fin 0) = true)
  /\ Z.of_nat (length (swapDetails o)) = hops p
  /\ (exists d, last (swapDetails o) = Some d
                /\ to d = Some (flashLoanAsset p))
  /\ head (tokens p) = Some (flashLoanAsset p)
  /\ last (tokens p) = Some (flashLoanAsset p).
Proof.
  intros [Hcirc Hhops Hvenues Hasset] Hscan.
  apply scanPath_computed in Hscan as (o0 & Hprofit & _ & Hnet & ->).
  cbn.
  apply calculateCircularPathProfit_legs in Hprofit
    as (Hlen & _ & _ & _ & _ & Hlast).
  split; [eauto|]. split; [rewrite Hlen; exact Hvenues|].
  split.
  - rewrite <- Hasset. apply Hlast. intros Hnil. rewrite Hnil in Hvenues.
    cbn in Hvenues. lia.
  - split; [exact Hasset | now rewrite <- Hcirc].
Qed.

End Scan.

Lemma C3_returned_opportunity_witness :
  Spec.CircularPath_inv (Scenario.wbnb_usdt_btcb Scenario.v2_venues)
  /\ fst (ArbitrageScanner.scanPath Scenario.showNum ArbitrageScanner.new
            (Scenario.wbnb_usdt_btcb Scenario.v2_venues) None
            (Scenario.fresh_fetcher Scenario.linear_provider))
     = Some Scenario.scanned_opportunity
  /\ Z.of_nat (length (ArbitrageScanner.swapDetails
                         Scenario.scanned_opportunity)) = 3.
Proof.
  assert (Hinv : Spec.CircularPath_inv
                   (Scenario.wbnb_usdt_btcb Scenario.v2_venues)).
  { split; vm_compute; try reflexivity; split; discriminate. }
  split; [exact Hinv|].
  set (r := ArbitrageScanner.scanPath Scenario.showNum ArbitrageScanner.new
              (Scenario.wbnb_usdt_btcb Scenario.v2_venues) None
              (Scenario.fresh_fetcher Scenario.linear_provider)).
  assert (Hfst : fst r = Some Scenario.scanned_opportunity)
    by (vm_compute; reflexivity).
  split; [exact Hfst|].
  assert (Hr : r = (Some Scenario.scanned_opportunity, snd r)).
  { rewrite (surjective_pairing r) at 1.
    apply (f_equal (fun x => (x, snd r))). exact Hfst. }
  destruct (C3_returned_opportunity Scenario.showNum _ _ _ _ _ _ Hinv Hr)
    as (_ & Hlen & _).
  exact Hlen.
Defined.

(** ** Path generator *)

Section Generator.

Import PathGenerator Spec.

(** *** Candidate paths *)

Lemma rotation_length (names : list string) (i n : nat) :
  length (rotation names i n) = n.
Proof. unfold rotation. now rewrite List.length_map, List.length_seq. Qed.

(** Every venue assignment has one venue per swap. *)
Lemma generateStrategicDexCombinations_length (pg : t) (n : nat)
    (c : list string) :
  In c (generateStrategicDexCombinations pg n) -> length c = n.
Proof.
  unfold generateStrategicDexCombinations.
  rewrite !in_app_iff. intros [H | [H | [H | H]]].
  - destruct (n <=? length (dexNames pg))%nat; [|contradiction].
    apply in_map_iff in H as (i & <- & _). apply rotation_length.
  - apply in_map_iff in H as (i & <- & _). apply rotation_length.
  - destruct (2 <=? n)%nat; [|contradiction].
    apply in_map_iff in H as (i & <- & _).
    now rewrite List.length_map, List.length_seq.
  - cbn in H. destruct H as [<- | [<- | []]]; apply repeat_length.
Qed.

Lemma generateDexCombinationsForPath_candidate (pg : t)
    (tokenPath : list string) (asset : string) (p : Path) :
  In p (generateDexCombinationsForPath pg tokenPath asset) ->
  candidate asset tokenPath p.
Proof.
  unfold generateDexCombinationsForPath.
  destruct (negb (opt_eqb (head tokenPath) (last tokenPath)));
    [contradiction|].
  intros H. apply in_flat_map in H as (c & Hc & Hp).
  destruct (validateDexCombination tokenPath c); [|contradiction].
  destruct Hp as [<- | []]. unfold candidate. cbn.
  apply generateStrategicDexCombinations_length in Hc.
  split; [now rewrite Hc|]. split; [reflexivity|].
  exists []. now rewrite app_nil_r.
Qed.

Lemma candidate_extend (startAsset next : string) (prefix : list string)
    (p : Path) :
  candidate startAsset (prefix ++ [next]) p -> candidate startAsset prefix p.
Proof.
  intros (Hlen & Hasset & suffix & Htok). repeat split; auto.
  exists (next :: suffix). now rewrite Htok, <- app_assoc.
Qed.

Lemma dfsCircularPath_candidate (fuel : nat) :
  forall (pg : t) (startAsset currentAsset : string)
         (currentPath : list string) (visited : gset string)
         (targetHops currentHops : Z) (availableTokens : list string)
         (p : Path),
    In p (dfsCircularPath fuel pg startAsset currentAsset currentPath visited
                          targetHops currentHops availableTokens) ->
    candidate startAsset currentPath p.
Proof.
  induction fuel as [|fuel IH]; intros pg startAsset currentAsset currentPath
    visited targetHops currentHops availableTokens p Hin; [contradiction|].
  cbn [dfsCircularPath] in Hin.
  destruct (currentHops =? targetHops).
  - destruct (includes (tradingPairsOf currentAsset) startAsset);
      [|contradiction].
    apply generateDexCombinationsForPath_candidate in Hin.
    now apply candidate_extend in Hin.
  - destruct (currentHops <? targetHops); [|contradiction].
    apply in_flat_map in Hin as (nextAsset & _ & Hin).
    repeat (match type of Hin with
            | In _ (if ?c then _ else _) => destruct c; [contradiction|]
            end).
    apply IH in Hin. now apply candidate_extend in Hin.
Qed.

(** Fuel above the number of hops still to walk is never exhausted. *)
Lemma dfsCircularPath_fuel (fuel : nat) :
  forall (pg : t) (startAsset currentAsset : string)
         (currentPath : list string) (visited : gset string)
         (targetHops currentHops : Z) (availableTokens : list string),
    (Z.to_nat (targetHops - currentHops) < fuel)%nat ->
    dfsCircularPath (S fuel) pg startAsset currentAsset currentPath visited
                    targetHops currentHops availableTokens
    = dfsCircularPath fuel pg startAsset currentAsset currentPath visited
                      targetHops currentHops availableTokens.
Proof.
  induction fuel as [|fuel IH]; intros pg startAsset currentAsset currentPath
    visited targetHops currentHops availableTokens Hfuel; [lia|].
  cbn [dfsCircularPath].
  destruct (currentHops =? targetHops); [reflexivity|].
  destruct (Z.ltb_spec currentHops targetHops); [|reflexivity].
  apply flat_map_ext. intros nextAsset.
  repeat (match goal with
          | |- (if ?c then _ else _) = _ => destruct c; [reflexivity|]
          end).
  specialize (IH pg startAsset nextAsset (currentPath ++ [nextAsset])
                 ({[nextAsset]} ∪ visited) targetHops (currentHops + 1)
                 availableTokens).
  cbn [dfsCircularPath] in IH. apply IH. lia.
Qed.

Lemma generateCircularPathsFromAsset_candidate (pg : t) (startAsset : string)
    (p : Path) :
  In p (generateCircularPathsFromAsset pg startAsset) ->
  candidate startAsset [startAsset] p.
Proof.
  unfold generateCircularPathsFromAsset, generateCircularPathsWithHops.
  intros H. apply in_flat_map in H as (hopCount & _ & H).
  now apply dfsCircularPath_candidate in H.
Qed.

(** *** Post-processing *)

Lemma removeDuplicatePaths_from_sublist (paths : list Path) :
  forall seen, removeDuplicatePaths_from seen paths `sublist_of` paths.
Proof.
  induction paths as [|p ps IH]; intros seen; cbn; [constructor|].
  destruct (bool_decide _); [apply sublist_cons | apply sublist_skip]; apply IH.
Qed.

Lemma removeDuplicatePaths_from_keys (paths : list Path) :
  forall seen,
    NoDup (map keyOf (removeDuplicatePaths_from seen paths))
    /\ forall p, p ∈ removeDuplicatePaths_from seen paths -> keyOf p ∉ seen.
Proof.
  induction paths as [|p ps IH]; intros seen; cbn.
  - split; [constructor | intros p Hp; inversion Hp].
  - fold (keyOf p). destruct (bool_decide (keyOf p ∈ seen)) eqn:Hseen.
    + apply IH.
    + apply bool_decide_eq_false in Hseen.
      destruct (IH ({[keyOf p]} ∪ seen)) as [Hnd Hout].
      split.
      * cbn. apply NoDup_cons. split; [|exact Hnd].
        intros Hin. change (map keyOf ?l) with (keyOf <$> l) in Hin.
        apply list_elem_of_fmap in Hin as (p' & Heq & Hp').
        apply Hout in Hp'. rewrite <- Heq in Hp'.
        apply Hp', elem_of_union_l, elem_of_singleton. reflexivity.
      * intros p' Hp'. apply elem_of_cons in Hp' as [-> | Hp']; [exact Hseen|].
        apply Hout in Hp'. intros Hs. apply Hp', elem_of_union_r, Hs.
Qed.

Lemma sortInsert_Permutation (a : Path) (sorted : list Path) :
  sortInsert a sorted ≡ₚ a :: sorted.
Proof.
  induction sorted as [|b rest IH]; cbn [sortInsert]; [reflexivity|].
  destruct (comparatorPositive a b); [|reflexivity].
  rewrite IH. apply perm_swap.
Qed.

Lemma sortPaths_Permutation (paths : list Path) : sortPaths paths ≡ₚ paths.
Proof.
  induction paths as [|a rest IH]; cbn [sortPaths fold_right]; [reflexivity|].
  rewrite sortInsert_Permutation. fold (sortPaths rest). now rewrite IH.
Qed.

(** The grouping loop collects, under each asset, the paths of that asset
    in order. *)
Lemma groupByAsset_lookup (paths : list Path) (asset : string) :
  default [] (groupByAsset paths !! asset)
  = filter (fun p => flashLoanAsset p = asset) paths.
Proof.
  unfold groupByAsset.
  enough (H : forall m : gmap string (list Path),
             default [] (fold_left
               (fun assetPaths path =>
                  <[ flashLoanAsset path :=
                       default [] (assetPaths !! flashLoanAsset path)
                       ++ [path] ]> assetPaths) paths m !! asset)
             = default [] (m !! asset)
               ++ filter (fun p => flashLoanAsset p = asset) paths).
  { rewrite H. now rewrite lookup_empty. }
  induction paths as [|p ps IH]; intros m; cbn [fold_left].
  - now rewrite filter_nil, app_nil_r.
  - rewrite IH. rewrite filter_cons.
    destruct (decide (flashLoanAsset p = asset)) as [Heq | Hne].
    + rewrite Heq, lookup_insert_eq. cbn. now rewrite <- app_assoc.
    + now rewrite lookup_insert_ne.
Qed.

Lemma NoDup_submseteq_inv {A : Type} (l k : list A) :
  l ⊆+ k -> NoDup k -> NoDup l.
Proof.
  induction 1 as [|x l k Hlk IH|x y l|x l k Hlk IH|l k m Hlk IH1 Hkm IH2];
    intros Hnd; auto.
  - apply NoDup_cons in Hnd as [Hx Hk]. apply NoDup_cons. split; auto.
    intros Hin. apply Hx. eapply elem_of_submseteq; eauto.
  - eapply NoDup_Permutation_proper; [apply perm_swap | exact Hnd].
  - apply NoDup_cons in Hnd as [_ Hk]. auto.
Qed.

Lemma flat_map_ext_In {A B : Type} (f g : A -> list B) (l : list A) :
  (forall a, In a l -> f a = g a) -> flat_map f l = flat_map g l.
Proof.
  induction l as [|a l IH]; intros H; cbn; [reflexivity|].
  rewrite (H a) by (now left). rewrite IH; [reflexivity|].
  intros b Hb. apply H. now right.
Qed.

(** Balancing keeps a subset of the paths, each at most once, when the
    assets are distinct. *)
Lemma balance_submseteq (n : nat) (assets : list string) :
  NoDup assets ->
  forall paths : list Path,
    flat_map (fun asset =>
                take n (filter (fun p => flashLoanAsset p = asset) paths))
             assets ⊆+ paths.
Proof.
  induction 1 as [|a rest Ha Hnd IH]; intros paths; cbn.
  - apply submseteq_nil_l.
  - transitivity (filter (fun p => flashLoanAsset p = a) paths
                  ++ filter (fun p => flashLoanAsset p <> a) paths);
      [|apply Permutation_submseteq, filter_app_complement].
    apply submseteq_app.
    + apply submseteq_take.
    + rewrite (flat_map_ext_In _
        (fun asset =>
           take n (filter (fun p => flashLoanAsset p = asset)
                          (filter (fun p => flashLoanAsset p <> a) paths)))).
      * apply IH.
      * intros b Hb. f_equal. rewrite list_filter_filter.
        apply list_filter_iff. intros p. split; [|tauto].
        intros Hp. split; [exact Hp|]. intros Hpa.
        apply Ha. apply list_elem_of_In. congruence.
Qed.

Lemma balanceFlashLoanAssetDistribution_submseteq (pg : t)
    (paths : list Path) :
  NoDup (flashLoanAssets pg) ->
  balanceFlashLoanAssetDistribution pg paths ⊆+ paths.
Proof.
  intros Hnd. unfold balanceFlashLoanAssetDistribution.
  rewrite (flat_map_ext _
    (fun asset => take maxPathsPerAsset
                    (filter (fun p => flashLoanAsset p = asset) paths))).
  - now apply balance_submseteq.
  - intros asset. now rewrite groupByAsset_lookup.
Qed.

Lemma balanceFlashLoanAssetDistribution_In (pg : t) (paths : list Path)
    (p : Path) :
  In p (balanceFlashLoanAssetDistribution pg paths) -> In p paths.
Proof.
  unfold balanceFlashLoanAssetDistribution. intros H.
  apply in_flat_map in H as (asset & _ & H).
  rewrite groupByAsset_lookup in H. apply list_elem_of_In in H.
  apply elem_of_take in H as (i & Hi & _).
  apply list_elem_of_lookup_2 in Hi.
  apply list_elem_of_filter in Hi as [_ Hi]. now apply list_elem_of_In.
Qed.

Lemma qualityPath_true (pg : t) (p : Path) :
  qualityPath pg p = true ->
  isCircular p = true
  /\ head (tokens p) = last (tokens p)
  /\ minHops pg <= hops p <= maxHops pg
  /\ 15 <= liquidityScore p
  /\ includes (flashLoanAssets pg) (flashLoanAsset p) = true.
Proof.
  unfold qualityPath.
  destruct (isCircular p); cbn [negb orb]; [|discriminate].
  destruct (opt_eqb (head (tokens p)) (last (tokens p))) eqn:Hc;
    cbn [negb]; [|discriminate].
  destruct (Z.ltb_spec (hops p) (minHops pg)); cbn [orb]; [discriminate|].
  destruct (Z.ltb_spec (maxHops pg) (hops p)); [discriminate|].
  destruct (Z.ltb_spec (liquidityScore p) 15); [discriminate|].
  destruct ((size _ <? 2)%nat && (3 <? hops p)); [discriminate|].
  destruct (includes _ _); cbn [negb]; [|discriminate].
  intros _. repeat split; auto; try lia. now apply opt_eqb_eq.
Qed.

(** A retained path is one of the candidates and passes the quality
    filter. *)
Lemma filterAndOptimizePaths_In (pg : t) (paths : list Path) (p : Path) :
  In p (filterAndOptimizePaths pg paths) ->
  In p paths /\ qualityPath pg p = true.
Proof.
  unfold filterAndOptimizePaths. intros H.
  apply balanceFlashLoanAssetDistribution_In in H.
  apply list_elem_of_In in H. rewrite sortPaths_Permutation in H.
  apply list_elem_of_filter in H as [Hq H]. split; [|exact Hq].
  apply list_elem_of_In. unfold removeDuplicatePaths in H.
  eapply sublist_subseteq; [apply removeDuplicatePaths_from_sublist|exact H].
Qed.

(** Every path [generateAllPaths] leaves in a new generator is a candidate
    that passed the quality filter. *)
Lemma generateAllPaths_In (tokenAddresses : list (string * TokenInfo))
    (dexConfigs : list (string * DexConfig)) (p : Path) :
  In p (generatedPaths (generateAllPaths (new tokenAddresses dexConfigs))) ->
  qualityPath (new tokenAddresses dexConfigs) p = true
  /\ candidate (flashLoanAsset p) [flashLoanAsset p] p.
Proof.
  unfold generateAllPaths. cbn [generatedPaths set_generatedPaths new app].
  intros H. apply filterAndOptimizePaths_In in H as [H Hq].
  split; [exact Hq|].
  apply in_flat_map in H as (asset & _ & H).
  apply generateCircularPathsFromAsset_candidate in H.
  destruct H as (Hlen & Hasset & Htok). rewrite Hasset.
  repeat split; auto.
Qed.

(** The paths of the generator satisfy the invariant of the data model. *)
Lemma generateAllPaths_invariant (tokenAddresses : list (string * TokenInfo))
    (dexConfigs : list (string * DexConfig)) :
  Forall CircularPath_inv
    (generatedPaths (generateAllPaths (new tokenAddresses dexConfigs))).
Proof.
  apply Forall_forall. intros p Hp. apply list_elem_of_In in Hp.
  apply generateAllPaths_In in Hp as [Hq (Hlen & _ & suffix & Htok)].
  apply qualityPath_true in Hq as (_ & Hcirc & Hhops & _).
  cbn in Hhops. split; auto. now rewrite Htok.
Qed.

(** On the two-asset universe the generator returns 60 paths, all of three
    hops; the first is WBNB -> BTCB -> USDT -> WBNB on PancakeSwap V2. *)
Example generateAllPaths_small :
  let paths :=
    generatedPaths (generateAllPaths (new Scenario.small_tokens DEX_CONFIGS)) in
  length paths = 60%nat
  /\ remove_dups (map hops paths) = [3]
  /\ (fun p => (tokens p, dexes p, flashLoanAsset p, liquidityScore p,
                estimatedComplexity p, id p)) <$> head paths
     = Some (["WBNB"; "BTCB"; "USDT"; "WBNB"]%string,
             repeat "PANCAKESWAP_V2"%string 3, "WBNB"%string, 85, 35,
             "arb_h168cj"%string).
Proof. vm_compute. auto. Qed.

(** C5.  Every path in the set returned by [generateAllPaths] is circular
    (first asset equal to last asset), has between 2 and 10 hops, and has
    as many venues as hops. *)
Theorem C5_generated_paths_well_formed
    (tokenAddresses : list (string * TokenInfo))
    (dexConfigs : list (string * DexConfig)) :
  Forall (fun p => head (tokens p) = last (tokens p)
                   /\ 2 <= hops p <= 10
                   /\ Z.of_nat (length (dexes p)) = hops p)
         (generatedPaths (generateAllPaths (new tokenAddresses dexConfigs))).
Proof.
  eapply Forall_impl; [apply generateAllPaths_invariant|].
  intros p [Hcirc Hhops Hvenues _]. auto.
Qed.

(** C9.  No two paths retained by [generateAllPaths] have both the same
    asset sequence and the same venue sequence; the distinct keys of the
    token table stand for [Object.keys]. *)
Theorem C9_no_duplicate_paths (tokenAddresses : list (string * TokenInfo))
    (dexConfigs : list (string * DexConfig)) :
  NoDup (keys tokenAddresses) ->
  NoDup (map (fun p => (tokens p, dexes p))
             (generatedPaths
                (generateAllPaths (new tokenAddresses dexConfigs)))).
Proof.
  intros Hkeys.
  unfold generateAllPaths. cbn [generatedPaths set_generatedPaths].
  set (pg := new tokenAddresses dexConfigs).
  set (raw := generatedPaths pg ++ _).
  unfold filterAndOptimizePaths.
  set (g := fun p : Path => (tokens p, dexes p)).
  change (map g ?l) with (g <$> l).
  eapply NoDup_submseteq_inv.
  { apply fmap_submseteq.
    apply balanceFlashLoanAssetDistribution_submseteq. exact Hkeys. }
  rewrite sortPaths_Permutation.
  eapply sublist_NoDup; [|apply fmap_sublist, sublist_filter].
  apply (NoDup_fmap_1 (fun td : list string * list string =>
                         pathKey (fst td) (snd td))).
  rewrite <- list_fmap_compose.
  apply (removeDuplicatePaths_from_keys raw ∅).
Qed.

Lemma C9_no_duplicate_paths_witness :
  NoDup (keys TOKEN_ADDRESSES)
  /\ NoDup (map (fun p => (tokens p, dexes p))
               (generatedPaths
                  (generateAllPaths (new TOKEN_ADDRESSES DEX_CONFIGS)))).
Proof.
  assert (Hkeys : NoDup (keys TOKEN_ADDRESSES)).
  { apply (bool_decide_unpack _). vm_compute. exact I. }
  split; [exact Hkeys|].
  apply (C9_no_duplicate_paths TOKEN_ADDRESSES DEX_CONFIGS Hkeys).
Defined.

End Generator.

(** ** Path generator: what the search produces *)

Section Search.

Import PathGenerator Spec.

(** The trading-pairs table has six keys, the configured tokens, and no
    token is paired with itself. *)
Lemma TRADING_PAIRS_lookup (a : string) (l : list string) :
  TRADING_PAIRS !! a = Some l ->
  In a (keys TOKEN_ADDRESSES) /\ includes l a = false.
Proof.
  unfold TRADING_PAIRS. intros H. apply elem_of_list_to_map_2 in H.
  repeat (apply elem_of_cons in H as [H | H];
          [inversion H; subst; split; [cbn; tauto | reflexivity]|]).
  inversion H.
Qed.

Lemma tradingPairsOf_irreflexive (a : string) :
  includes (tradingPairsOf a) a = false.
Proof.
  unfold tradingPairsOf.
  destruct (TRADING_PAIRS !! a) as [l|] eqn:Hl; [|reflexivity].
  now apply TRADING_PAIRS_lookup in Hl.
Qed.

Lemma tradingPairsOf_source (a b : string) :
  includes (tradingPairsOf a) b = true -> In a (keys TOKEN_ADDRESSES).
Proof.
  unfold tradingPairsOf.
  destruct (TRADING_PAIRS !! a) as [l|] eqn:Hl; [|discriminate].
  intros _. now apply TRADING_PAIRS_lookup in Hl.
Qed.

(** A candidate path carries the token path and the venue assignment it
    was built from, and what was computed from them. *)
Lemma generateDexCombinationsForPath_In (pg : t) (tokenPath : list string)
    (asset : string) (p : Path) :
  In p (generateDexCombinationsForPath pg tokenPath asset) ->
  tokens p = tokenPath /\ flashLoanAsset p = asset
  /\ length (dexes p) = (length tokenPath - 1)%nat
  /\ hops p = Z.of_nat (length tokenPath - 1)
  /\ validateDexCombination tokenPath (dexes p) = true
  /\ id p = generatePathId tokenPath (dexes p)
  /\ swaps p = generateSwapDetails pg tokenPath (dexes p)
  /\ estimatedComplexity p = calculatePathComplexity pg tokenPath (dexes p)
  /\ liquidityScore p = calculateLiquidityScore tokenPath asset.
Proof.
  unfold generateDexCombinationsForPath.
  destruct (negb (opt_eqb (head tokenPath) (last tokenPath)));
    [contradiction|].
  intros H. apply in_flat_map in H as (c & Hc & Hp).
  destruct (validateDexCombination tokenPath c) eqn:Hvalid; [|contradiction].
  destruct Hp as [<- | []]. cbn.
  apply generateStrategicDexCombinations_length in Hc.
  split_and!; auto.
Qed.

(** Every path the search pushes was built for a token path that extends
    the current one by as many assets as there are hops left, and ends in
    the start asset. *)
Lemma dfsCircularPath_In (fuel : nat) :
  forall (pg : t) (startAsset currentAsset : string)
         (currentPath : list string) (visited : gset string)
         (targetHops currentHops : Z) (availableTokens : list string)
         (p : Path),
    In p (dfsCircularPath fuel pg startAsset currentAsset currentPath visited
                          targetHops currentHops availableTokens) ->
    exists mid,
      length mid = Z.to_nat (targetHops - currentHops)
      /\ currentHops <= targetHops
      /\ In p (generateDexCombinationsForPath
                 pg (currentPath ++ mid ++ [startAsset]) startAsset).
Proof.
  induction fuel as [|fuel IH]; intros pg startAsset currentAsset currentPath
    visited targetHops currentHops availableTokens p Hin; [contradiction|].
  cbn [dfsCircularPath] in Hin.
  destruct (Z.eqb_spec currentHops targetHops) as [-> | Hne].
  - destruct (includes (tradingPairsOf currentAsset) startAsset);
      [|contradiction].
    exists []. rewrite Z.sub_diag. split; [reflexivity|]. split; [lia|].
    exact Hin.
  - destruct (Z.ltb_spec currentHops targetHops); [|contradiction].
    apply in_flat_map in Hin as (nextAsset & _ & Hin).
    repeat (match type of Hin with
            | In _ (if ?c then _ else _) => destruct c; [contradiction|]
            end).
    apply IH in Hin as (mid & Hlen & Hle & Hin).
    exists (nextAsset :: mid). cbn [length]. rewrite Hlen.
    split; [lia|]. split; [lia|].
    now rewrite <- app_assoc in Hin.
Qed.

(** The search never walks through an asset twice: the token path of a
    pushed path, without its closing asset, has no repetition. *)
Lemma dfsCircularPath_NoDup (fuel : nat) :
  forall (pg : t) (startAsset currentAsset : string)
         (rest : list string) (visited : gset string)
         (targetHops currentHops : Z) (availableTokens : list string)
         (p : Path),
    NoDup rest ->
    (forall x, x ∈ visited <-> In x rest) ->
    (In startAsset rest ->
     currentAsset = startAsset /\ currentHops = targetHops) ->
    In p (dfsCircularPath fuel pg startAsset currentAsset (startAsset :: rest)
                          visited targetHops currentHops availableTokens) ->
    NoDup (removelast (tokens p)).
Proof.
  induction fuel as [|fuel IH]; intros pg startAsset currentAsset rest
    visited targetHops currentHops availableTokens p Hnd Hvis Hstart Hin;
    [contradiction|].
  cbn [dfsCircularPath] in Hin.
  destruct (Z.eqb_spec currentHops targetHops) as [-> | Hne].
  - destruct (includes (tradingPairsOf currentAsset) startAsset) eqn:Hpair;
      [|contradiction].
    apply generateDexCombinationsForPath_In in Hin as (-> & _).
    rewrite removelast_last. apply NoDup_cons. split; [|exact Hnd].
    intros Hs. apply list_elem_of_In, Hstart in Hs as [-> _].
    now rewrite tradingPairsOf_irreflexive in Hpair.
  - destruct (Z.ltb_spec currentHops targetHops); [|contradiction].
    apply in_flat_map in Hin as (nextAsset & _ & Hin).
    destruct (String.eqb nextAsset startAsset
              && (currentHops <? targetHops - 1)) eqn:Hback;
      [contradiction|].
    destruct (bool_decide (nextAsset ∈ visited)) eqn:Hseen; [contradiction|].
    apply bool_decide_eq_false in Hseen.
    match type of Hin with
    | In _ (if ?c then _ else _) => destruct c; [contradiction|]
    end.
    change (startAsset :: rest) with ([startAsset] ++ rest) in Hin.
    rewrite <- app_assoc in Hin. cbn [app] in Hin.
    apply IH in Hin; [exact Hin| | |].
    + apply NoDup_app. split; [exact Hnd|]. split.
      * intros x Hx Hx'. apply list_elem_of_singleton in Hx'. subst x.
        apply Hseen, Hvis. now apply list_elem_of_In.
      * apply NoDup_singleton.
    + intros x. rewrite elem_of_union, elem_of_singleton, Hvis, in_app_iff.
      cbn. intuition.
    + intros Hs. apply in_app_iff in Hs as [Hs | [Hs | []]].
      * apply Hstart in Hs. lia.
      * subst nextAsset. split; [reflexivity|].
        rewrite String.eqb_refl in Hback. cbn in Hback.
        apply Z.ltb_ge in Hback. lia.
Qed.

(** Where the paths of a new generator come from: each passed the quality
    filter and was built by the search from its flash-loan asset, for one
    of the hop counts of the generator. *)
Lemma generateAllPaths_origin (tokenAddresses : list (string * TokenInfo))
    (dexConfigs : list (string * DexConfig)) (p : Path) :
  let pg := new tokenAddresses dexConfigs in
  In p (generatedPaths (generateAllPaths pg)) ->
  qualityPath pg p = true
  /\ NoDup (removelast (tokens p))
  /\ exists mid,
       minHops pg <= Z.of_nat (length mid) <= maxHops pg
       /\ In p (generateDexCombinationsForPath
                  pg ([flashLoanAsset p] ++ mid ++ [flashLoanAsset p])
                  (flashLoanAsset p)).
Proof.
  cbv zeta. unfold generateAllPaths.
  cbn [generatedPaths set_generatedPaths new app].
  intros H. apply filterAndOptimizePaths_In in H as [H Hq].
  split; [exact Hq|].
  apply in_flat_map in H as (asset & _ & H).
  unfold generateCircularPathsFromAsset, generateCircularPathsWithHops in H.
  apply in_flat_map in H as (hopCount & Hhops & H).
  apply list_elem_of_In, elem_of_seqZ in Hhops. cbn in Hhops.
  split.
  - eapply (dfsCircularPath_NoDup _ _ _ _ []); [| | |exact H].
    + constructor.
    + intros x. cbn. split; [intros Hx; inversion Hx | tauto].
    + intros [].
  - apply dfsCircularPath_In in H as (mid & Hlen & Hle & H).
    pose proof H as Hp.
    apply generateDexCombinationsForPath_In in Hp as (_ & -> & _).
    exists mid. split; [|exact H]. cbn. lia.
Qed.

Lemma length_ends (a : string) (mid : list string) :
  (length ([a] ++ mid ++ [a]) - 1)%nat = S (length mid).
Proof. cbn. rewrite length_app. cbn. lia. Qed.

(** The hops of a path are pairs of the trading-pairs table. *)
Lemma validateDexCombination_pairs (tokenPath dexCombination : list string)
    (i : nat) (a b : string) :
  validateDexCombination tokenPath dexCombination = true ->
  length dexCombination = (length tokenPath - 1)%nat ->
  tokenPath !! i = Some a -> tokenPath !! S i = Some b ->
  includes (tradingPairsOf a) b = true.
Proof.
  unfold validateDexCombination. intros Hvalid Hlen Ha Hb.
  rewrite forallb_forall in Hvalid. specialize (Hvalid i).
  rewrite Ha, Hb in Hvalid. apply Hvalid.
  apply in_seq. apply lookup_lt_Some in Hb. lia.
Qed.


Lemma qualityPath_venues (pg : t) (p : Path) :
  qualityPath pg p = true ->
  3 < hops p -> (2 <= size (list_to_set (dexes p) : gset string))%nat.
Proof.
  unfold qualityPath.
  destruct (negb (isCircular p) || _); [discriminate|].
  destruct ((hops p <? minHops pg) || _); [discriminate|].
  destruct (liquidityScore p <? 15); [discriminate|].
  destruct (Nat.ltb_spec (size (list_to_set (dexes p) : gset string)) 2);
    [|intros; lia].
  destruct (Z.ltb_spec 3 (hops p)); [discriminate | lia].
Qed.

Lemma generated_paths_follow_trading_pairs_aux
    (tokenAddresses : list (string * TokenInfo))
    (dexConfigs : list (string * DexConfig)) (p : Path) :
  In p (generatedPaths (generateAllPaths (new tokenAddresses dexConfigs))) ->
  forall (i : nat) (a b : string),
    tokens p !! i = Some a -> tokens p !! S i = Some b ->
    includes (tradingPairsOf a) b = true.
Proof.
  intros Hp i a b Ha Hb.
  apply (generateAllPaths_origin tokenAddresses dexConfigs) in Hp
    as (_ & _ & mid & _ & Hp).
  apply generateDexCombinationsForPath_In in Hp
    as (Htok & _ & Hlen & _ & Hvalid & _).
  rewrite <- Htok in Hvalid, Hlen.
  exact (validateDexCombination_pairs _ _ i a b Hvalid Hlen Ha Hb).
Qed.

(** X1.  Every hop of a generated path is a pair of the trading-pairs table:
    the asset a hop arrives at is listed under the asset it leaves. *)
Theorem generated_paths_follow_trading_pairs
    (tokenAddresses : list (string * TokenInfo))
    (dexConfigs : list (string * DexConfig)) :
  Forall (fun p => forall (i : nat) (a b : string),
                     tokens p !! i = Some a -> tokens p !! S i = Some b ->
                     includes (tradingPairsOf a) b = true)
         (generatedPaths (generateAllPaths (new tokenAddresses dexConfigs))).
Proof.
  apply Forall_forall. intros p Hp.
  apply (generated_paths_follow_trading_pairs_aux tokenAddresses dexConfigs).
  now apply list_elem_of_In.
Qed.

(** X2.  A generated path passes through no asset twice: apart from the closing
    asset, which repeats the first, its assets are pairwise distinct. *)
Theorem generated_paths_visit_once
    (tokenAddresses : list (string * TokenInfo))
    (dexConfigs : list (string * DexConfig)) :
  Forall (fun p => NoDup (removelast (tokens p))
                   /\ head (tokens p) = last (tokens p))
         (generatedPaths (generateAllPaths (new tokenAddresses dexConfigs))).
Proof.
  apply Forall_forall. intros p Hp.
  apply list_elem_of_In in Hp.
  apply (generateAllPaths_origin tokenAddresses dexConfigs) in Hp
    as (Hq & Hnd & _).
  split; [exact Hnd|]. now apply qualityPath_true in Hq.
Qed.

Lemma removelast_lookup {A : Type} (l : list A) (i : nat) (x : A) :
  removelast l !! i = Some x -> l !! i = Some x /\ is_Some (l !! S i).
Proof.
  destruct l as [|y l] using rev_ind; [discriminate|].
  rewrite removelast_last. intros H. clear IHl.
  pose proof (lookup_lt_Some _ _ _ H) as Hlt.
  split.
  - now apply lookup_app_l_Some.
  - apply lookup_lt_is_Some. rewrite length_app. cbn. lia.
Qed.

Lemma generated_paths_hops_aux
    (tokenAddresses : list (string * TokenInfo))
    (dexConfigs : list (string * DexConfig)) (p : Path) :
  In p (generatedPaths (generateAllPaths (new tokenAddresses dexConfigs))) ->
  3 <= hops p <= 6 /\ Z.of_nat (length (tokens p)) = hops p + 1.
Proof.
  intros Hp.
  pose proof (generated_paths_follow_trading_pairs_aux tokenAddresses
                dexConfigs p Hp) as Hedge.
  apply (generateAllPaths_origin tokenAddresses dexConfigs) in Hp
    as (_ & Hnd & mid & Hmid & Hp).
  apply generateDexCombinationsForPath_In in Hp
    as (Htok & _ & _ & Hhops & _).
  rewrite length_ends in Hhops. cbn in Hmid.
  assert (Hlen : length (tokens p) = S (S (length mid))).
  { rewrite Htok. cbn. rewrite length_app. cbn. lia. }
  split; [|lia]. split; [lia|].
  assert (Hincl : incl (removelast (tokens p)) (keys TOKEN_ADDRESSES)).
  { intros x Hx. apply list_elem_of_In, list_elem_of_lookup in Hx as [i Hi].
    apply removelast_lookup in Hi as [Hi [y Hy]].
    eapply tradingPairsOf_source, Hedge; eassumption. }
  apply NoDup_incl_length in Hincl; [|now apply NoDup_ListNoDup].
  assert (Hrl : length (removelast (tokens p)) = S (length mid)).
  { rewrite Htok, app_assoc, removelast_last. cbn. lia. }
  rewrite Hrl in Hincl. cbn in Hincl. lia.
Qed.

(** X3.  A generated path has between three and six hops, whatever the limits
    of the generator: the search for [hopCount] intermediate steps closes
    the cycle with one more hop, and a cycle cannot be longer than the
    trading-pairs table has assets. *)
Theorem generated_paths_three_to_six_hops
    (tokenAddresses : list (string * TokenInfo))
    (dexConfigs : list (string * DexConfig)) :
  Forall (fun p => 3 <= hops p <= 6
                   /\ Z.of_nat (length (tokens p)) = hops p + 1)
         (generatedPaths (generateAllPaths (new tokenAddresses dexConfigs))).
Proof.
  apply Forall_forall. intros p Hp.
  apply (generated_paths_hops_aux tokenAddresses dexConfigs).
  now apply list_elem_of_In.
Qed.

(** X4.  The scores stored in a generated path are those of its own assets and
    venues; its liquidity score is at least 15, its flash-loan asset is a
    configured token, and beyond three hops it uses at least two different
    venues. *)
Theorem generated_paths_quality
    (tokenAddresses : list (string * TokenInfo))
    (dexConfigs : list (string * DexConfig)) :
  let pg := new tokenAddresses dexConfigs in
  Forall (fun p =>
            liquidityScore p
            = calculateLiquidityScore (tokens p) (flashLoanAsset p)
            /\ estimatedComplexity p
               = calculatePathComplexity pg (tokens p) (dexes p)
            /\ id p = generatePathId (tokens p) (dexes p)
            /\ 15 <= liquidityScore p
            /\ In (flashLoanAsset p) (keys tokenAddresses)
            /\ (3 < hops p ->
                (2 <= size (list_to_set (dexes p) : gset string))%nat))
         (generatedPaths (generateAllPaths pg)).
Proof.
  cbv zeta. apply Forall_forall. intros p Hp. apply list_elem_of_In in Hp.
  apply (generateAllPaths_origin tokenAddresses dexConfigs) in Hp
    as (Hq & _ & mid & _ & Hp).
  apply generateDexCombinationsForPath_In in Hp
    as (Htok & _ & _ & _ & _ & Hid & _ & Hcomplexity & Hscore).
  rewrite <- Htok in Hid, Hcomplexity, Hscore.
  pose proof (qualityPath_venues _ _ Hq) as Hvenues.
  apply qualityPath_true in Hq as (_ & _ & _ & Hliq & Hasset).
  split_and!; auto.
  unfold includes in Hasset. apply existsb_exists in Hasset as (x & Hx & Heq).
  apply String.eqb_eq in Heq. now subst x.
Qed.

Lemma generateSwapDetails_lookup (pg : t) (tokenPath dexCombination : list string)
    (i : nat) (s : Swap) :
  generateSwapDetails pg tokenPath dexCombination !! i = Some s ->
  swap_index s = i
  /\ swap_tokenIn s = tokenPath !! i
  /\ swap_tokenOut s = tokenPath !! S i
  /\ dexCombination !! i = Some (swap_dex s)
  /\ swap_dexConfig s = get (PathGenerator.dexConfigs pg) (swap_dex s).
Proof.
  unfold generateSwapDetails.
  change (map ?f ?l) with (f <$> l). rewrite list_lookup_fmap.
  destruct (seq 0 (length dexCombination) !! i) as [j|] eqn:Hj;
    [|discriminate].
  apply lookup_seq in Hj as [-> Hlt]. cbn. intros [= <-]. cbn.
  split_and!; auto.
  unfold at_. destruct (lookup_lt_is_Some_2 dexCombination i Hlt) as [d Hd].
  rewrite Hd. f_equal. symmetry. now apply nth_lookup_Some.
Qed.

(** X5.  The swaps stored in a generated path mirror its assets and venues:
    there is one per hop, and swap [i] goes from asset [i] to asset [i + 1]
    on venue [i], with that venue's configuration. *)
Theorem generated_paths_swaps
    (tokenAddresses : list (string * TokenInfo))
    (dexConfigs : list (string * DexConfig)) :
  Forall (fun p =>
            Z.of_nat (length (swaps p)) = hops p
            /\ forall (i : nat) (s : Swap),
                 swaps p !! i = Some s ->
                 swap_index s = i
                 /\ swap_tokenIn s = tokens p !! i
                 /\ swap_tokenOut s = tokens p !! S i
                 /\ dexes p !! i = Some (swap_dex s)
                 /\ swap_dexConfig s = get dexConfigs (swap_dex s))
         (generatedPaths (generateAllPaths (new tokenAddresses dexConfigs))).
Proof.
  apply Forall_forall. intros p Hp. apply list_elem_of_In in Hp.
  apply (generateAllPaths_origin tokenAddresses dexConfigs) in Hp
    as (_ & _ & mid & _ & Hp).
  apply generateDexCombinationsForPath_In in Hp
    as (Htok & _ & Hlen & Hhops & _ & _ & Hswaps & _).
  rewrite <- Htok in Hswaps. split.
  - rewrite Hswaps, Hhops. unfold generateSwapDetails.
    now rewrite List.length_map, List.length_seq, Hlen.
  - intros i s Hs. rewrite Hswaps in Hs.
    now apply generateSwapDetails_lookup in Hs.
Qed.

End Search.

(** ** Path generator: the scan rotation *)

Section Rotation.

Import PathGenerator.

(** X6.  The paths of a scan cycle: at most 25, taken in order from the
    generated paths, all for the flash-loan asset whose turn it is and with
    a hop count in the band of the cycle. *)
Theorem getPathsForScanCycle_selection (pg : t) (scanIndex : nat) :
  let n := length (flashLoanAssets pg) in
  (length (getPathsForScanCycle pg scanIndex) <= 25)%nat
  /\ getPathsForScanCycle pg scanIndex `sublist_of` generatedPaths pg
  /\ Forall (fun p =>
               flashLoanAssets pg !! (scanIndex mod n)%nat
               = Some (flashLoanAsset p)
               /\ match ((scanIndex / n) mod 4)%nat with
                  | 0%nat => 2 <= hops p <= 3
                  | 1%nat => 4 <= hops p <= 5
                  | 2%nat => 6 <= hops p <= 8
                  | _ => 9 <= hops p <= 10
                  end)
            (getPathsForScanCycle pg scanIndex).
Proof.
  cbv zeta. unfold getPathsForScanCycle, getPathsByFlashLoanAsset.
  set (n := length (flashLoanAssets pg)).
  set (asset := flashLoanAssets pg !! (scanIndex mod n)%nat).
  set (assetPaths := filter _ (generatedPaths pg)).
  assert (Hband : forall lo hi,
            take 25 (filter (fun p => lo <= hops p /\ hops p <= hi) assetPaths)
              `sublist_of` generatedPaths pg
            /\ Forall (fun p => asset = Some (flashLoanAsset p)
                                /\ lo <= hops p <= hi)
                      (take 25 (filter (fun p => lo <= hops p /\ hops p <= hi)
                                       assetPaths))).
  { intros lo hi. split.
    - etrans; [apply sublist_take|]. etrans; apply sublist_filter.
    - apply Forall_take, Forall_forall. intros p Hp.
      apply list_elem_of_filter in Hp as [Hhops Hp].
      apply list_elem_of_filter in Hp as [Hasset _]. auto. }
  split; [|destruct ((scanIndex / n) mod 4)%nat as [|[|[|k]]]; apply Hband].
  rewrite length_take. lia.
Qed.

(** X7.  The rotation repeats after four rounds over the flash-loan assets. *)
Theorem getPathsForScanCycle_period (pg : t) (scanIndex : nat) :
  getPathsForScanCycle pg (scanIndex + 4 * length (flashLoanAssets pg))
  = getPathsForScanCycle pg scanIndex.
Proof.
  unfold getPathsForScanCycle.
  destruct (length (flashLoanAssets pg)) as [|m] eqn:Hn.
  - now rewrite Nat.mul_0_r, Nat.add_0_r.
  - rewrite Nat.Div0.mod_add, Nat.div_add by lia.
    change (scanIndex / S m + 4)%nat with (scanIndex / S m + 1 * 4)%nat.
    now rewrite Nat.Div0.mod_add.
Qed.

(** X8.  On the paths of a new generator the last band of the rotation is
    empty: every fourth round over the assets, the one for paths of nine
    and ten hops, has nothing to scan. *)
Theorem getPathsForScanCycle_last_band_empty
    (tokenAddresses : list (string * TokenInfo))
    (dexConfigs : list (string * DexConfig)) (scanIndex : nat) :
  ((scanIndex / length (keys tokenAddresses)) mod 4 = 3)%nat ->
  getPathsForScanCycle (generateAllPaths (new tokenAddresses dexConfigs))
                       scanIndex = [].
Proof.
  intros Hband. unfold getPathsForScanCycle.
  cbn [flashLoanAssets generateAllPaths set_generatedPaths new].
  rewrite Hband.
  match goal with |- take 25 ?l = [] => destruct l as [|p rest] eqn:Hl end;
    [reflexivity|].
  exfalso.
  assert (Hp : p ∈ p :: rest) by apply list_elem_of_here.
  rewrite <- Hl in Hp. apply list_elem_of_filter in Hp as [Hhops Hp].
  apply list_elem_of_filter in Hp as [_ Hp]. apply list_elem_of_In in Hp.
  apply (generated_paths_hops_aux tokenAddresses dexConfigs) in Hp. lia.
Qed.

End Rotation.

Lemma getPathsForScanCycle_last_band_empty_witness :
  ((18 / length (keys TOKEN_ADDRESSES)) mod 4 = 3)%nat
  /\ PathGenerator.getPathsForScanCycle
       (PathGenerator.generateAllPaths
          (PathGenerator.new TOKEN_ADDRESSES DEX_CONFIGS)) 18 = [].
Proof.
  split; [reflexivity|].
  apply getPathsForScanCycle_last_band_empty. reflexivity.
Defined.

(** ** Path generator: venues *)

Section Venues.

Import PathGenerator.

Lemma at_mod_In (names : list string) (i : nat) :
  names <> [] -> In (at_ names (i mod length names)%nat) names.
Proof.
  intros Hne. unfold at_. apply nth_In. apply Nat.mod_upper_bound.
  destruct names; [contradiction | discriminate].
Qed.

Lemma rotation_In (names : list string) (i n : nat) (d : string) :
  names <> [] -> In d (rotation names i n) -> In d names.
Proof.
  intros Hne Hd. unfold rotation in Hd.
  apply in_map_iff in Hd as (j & <- & _). now apply at_mod_In.
Qed.

(** A venue assignment only uses venues of the configuration or of the
    three built-in lists. *)
Lemma generateStrategicDexCombinations_venues (pg : t) (n : nat)
    (c : list string) (d : string) :
  In c (generateStrategicDexCombinations pg n) -> In d c ->
  In d (dexNames pg ++ highLiquidityDexes ++ v2Dexes ++ v3Dexes).
Proof.
  unfold generateStrategicDexCombinations.
  rewrite !in_app_iff. intros [H | [H | [H | H]]] Hd.
  - left. destruct (Nat.leb_spec n (length (dexNames pg))); [|contradiction].
    apply in_map_iff in H as (i & <- & _).
    apply (rotation_In _ i n); [|exact Hd].
    intros Hnil. rewrite Hnil in *. cbn in *.
    assert (n = 0%nat) as -> by lia. contradiction.
  - right. left. apply in_map_iff in H as (i & <- & _).
    now apply (rotation_In _ i n).
  - right. right. destruct (2 <=? n)%nat; [|contradiction].
    apply in_map_iff in H as (i & <- & _).
    apply in_map_iff in Hd as (j & <- & _).
    destruct (j mod 2 =? 0)%nat; [left | right]; now apply at_mod_In.
  - right. cbn [In] in H. destruct H as [<- | [<- | []]];
      apply repeat_spec in Hd; subst d; cbn; tauto.
Qed.

Lemma generateDexCombinationsForPath_venues (pg : t) (tokenPath : list string)
    (asset : string) (p : Path) :
  In p (generateDexCombinationsForPath pg tokenPath asset) ->
  In (dexes p) (generateStrategicDexCombinations pg (length tokenPath - 1)).
Proof.
  unfold generateDexCombinationsForPath.
  destruct (negb (opt_eqb (head tokenPath) (last tokenPath)));
    [contradiction|].
  intros H. apply in_flat_map in H as (c & Hc & Hp).
  destruct (validateDexCombination tokenPath c); [|contradiction].
  destruct Hp as [<- | []]. exact Hc.
Qed.

(** X9.  With the shipped venue configuration, every venue of a generated path
    is a configured one, whatever the tokens: the built-in venue lists of
    the generator name no venue that the configuration lacks, so every
    stored swap has its venue's configuration. *)
Theorem generated_paths_venues_configured
    (tokenAddresses : list (string * TokenInfo)) :
  Forall (fun p =>
            Forall (fun d => In d (keys DEX_CONFIGS)) (dexes p)
            /\ Forall (fun s => is_Some (swap_dexConfig s)) (swaps p))
         (generatedPaths (generateAllPaths (new tokenAddresses DEX_CONFIGS))).
Proof.
  apply Forall_forall. intros p Hp. apply list_elem_of_In in Hp.
  apply (generateAllPaths_origin tokenAddresses DEX_CONFIGS) in Hp
    as (_ & _ & mid & _ & Hp).
  pose proof (generateDexCombinationsForPath_venues _ _ _ _ Hp) as Hc.
  apply generateDexCombinationsForPath_In in Hp
    as (Htok & _ & _ & _ & _ & _ & Hswaps & _).
  assert (Hvenues : Forall (fun d => In d (keys DEX_CONFIGS)) (dexes p)).
  { apply Forall_forall. intros d Hd. apply list_elem_of_In in Hd.
    pose proof (generateStrategicDexCombinations_venues _ _ _ d Hc Hd) as H.
    cbn in H |- *. tauto. }
  split; [exact Hvenues|].
  apply Forall_forall. intros s Hs.
  apply list_elem_of_lookup in Hs as [i Hi]. rewrite Hswaps in Hi.
  apply generateSwapDetails_lookup in Hi as (_ & _ & _ & Hdex & ->).
  rewrite Forall_forall in Hvenues.
  apply list_elem_of_lookup_2, Hvenues in Hdex.
  cbn in Hdex.
  repeat (destruct Hdex as [<- | Hdex]; [eexists; reflexivity|]).
  destruct Hdex.
Qed.

End Venues.

(** ** Path generator: deduplication, ranking and balancing *)

Section PostProcessing.

Import PathGenerator Spec.

Lemma removeDuplicatePaths_from_fixed (paths : list Path) :
  forall seen : gset string,
    NoDup (map keyOf paths) ->
    (forall p, p ∈ paths -> keyOf p ∉ seen) ->
    removeDuplicatePaths_from seen paths = paths.
Proof.
  induction paths as [|p ps IH]; intros seen Hnd Hout; cbn; [reflexivity|].
  fold (keyOf p). cbn in Hnd. apply NoDup_cons in Hnd as [Hp Hnd].
  rewrite bool_decide_eq_false_2 by (apply Hout; left).
  f_equal. apply IH; [exact Hnd|].
  intros q Hq Hs. apply elem_of_union in Hs as [Hs | Hs].
  - apply elem_of_singleton in Hs. apply Hp. rewrite <- Hs.
    change (map keyOf ps) with (keyOf <$> ps).
    apply list_elem_of_fmap. eauto.
  - apply (Hout q); [now right | exact Hs].
Qed.

(** X10.  Removing duplicates a second time changes nothing. *)
Theorem removeDuplicatePaths_idempotent (paths : list Path) :
  removeDuplicatePaths (removeDuplicatePaths paths)
  = removeDuplicatePaths paths.
Proof.
  unfold removeDuplicatePaths. apply removeDuplicatePaths_from_fixed.
  - apply removeDuplicatePaths_from_keys.
  - intros p _. apply not_elem_of_empty.
Qed.

Lemma removeDuplicatePaths_from_first (l1 l2 : list Path) (p : Path) :
  forall seen : gset string,
    keyOf p ∉ seen ->
    (forall q, In q l1 -> keyOf q <> keyOf p) ->
    In p (removeDuplicatePaths_from seen (l1 ++ p :: l2)).
Proof.
  induction l1 as [|q l1 IH]; intros seen Hp Hl1; cbn.
  - fold (keyOf p). rewrite bool_decide_eq_false_2 by exact Hp. now left.
  - fold (keyOf q). destruct (bool_decide (keyOf q ∈ seen)).
    + apply IH; [exact Hp|]. intros r Hr. apply Hl1. now right.
    + right. apply IH.
      * intros Hs. apply elem_of_union in Hs as [Hs | Hs]; [|now apply Hp].
        apply elem_of_singleton in Hs. apply (Hl1 q); [now left | auto].
      * intros r Hr. apply Hl1. now right.
Qed.

Lemma removeDuplicatePaths_from_complete (paths : list Path) (p : Path) :
  forall seen : gset string,
    In p paths ->
    keyOf p ∈ seen
    \/ exists q, In q (removeDuplicatePaths_from seen paths)
                 /\ keyOf q = keyOf p.
Proof.
  induction paths as [|h rest IH]; intros seen Hp; [destruct Hp|].
  cbn. fold (keyOf h).
  destruct (bool_decide (keyOf h ∈ seen)) eqn:Hseen.
  - apply bool_decide_eq_true in Hseen.
    destruct Hp as [-> | Hp]; [now left | now apply IH].
  - destruct Hp as [-> | Hp]; [right; exists p; split; [now left | auto]|].
    destruct (IH ({[keyOf h]} ∪ seen) Hp) as [Hs | (q & Hq & Hkey)].
    + apply elem_of_union in Hs as [Hs | Hs]; [|now left].
      apply elem_of_singleton in Hs. right. exists h. split; [now left | auto].
    + right. exists q. split; [now right | exact Hkey].
Qed.

(** X11.  Deduplication keeps, for every combination of assets and venues that
    occurs, the first path that carries it: no combination is lost, and a
    path is kept whenever no earlier path has its combination. *)
Theorem removeDuplicatePaths_keeps_first (paths : list Path) :
  (forall p, In p paths ->
             exists q, In q (removeDuplicatePaths paths)
                       /\ keyOf q = keyOf p)
  /\ (forall l1 p l2,
        paths = l1 ++ p :: l2 ->
        (forall q, In q l1 -> keyOf q <> keyOf p) ->
        In p (removeDuplicatePaths paths)).
Proof.
  unfold removeDuplicatePaths. split.
  - intros p Hp.
    destruct (removeDuplicatePaths_from_complete paths p ∅ Hp) as [Hs | H];
      [|exact H].
    now apply not_elem_of_empty in Hs.
  - intros l1 p l2 -> Hl1.
    apply removeDuplicatePaths_from_first; [apply not_elem_of_empty | exact Hl1].
Qed.

(** *** Balancing *)

Lemma filter_none {A : Type} (P : A -> Prop) `{forall x, Decision (P x)}
    (l : list A) :
  (forall x, x ∈ l -> ~ P x) -> filter P l = [].
Proof.
  induction l as [|x l IH]; intros Hl; [reflexivity|].
  rewrite filter_cons_False by (apply Hl; left).
  apply IH. intros y Hy. apply Hl. now right.
Qed.

Lemma filter_all {A : Type} (P : A -> Prop) `{forall x, Decision (P x)}
    (l : list A) :
  (forall x, x ∈ l -> P x) -> filter P l = l.
Proof.
  induction l as [|x l IH]; intros Hl; [reflexivity|].
  rewrite filter_cons_True by (apply Hl; left).
  f_equal. apply IH. intros y Hy. apply Hl. now right.
Qed.

(** The paths of one asset after balancing: the first [n] of that asset
    before. *)
Lemma balance_filter (n : nat) (paths : list Path) (a : string)
    (assets : list string) :
  NoDup assets ->
  filter (fun p => flashLoanAsset p = a)
         (flat_map (fun asset =>
                      take n (filter (fun p => flashLoanAsset p = asset) paths))
                   assets)
  = if decide (a ∈ assets)
    then take n (filter (fun p => flashLoanAsset p = a) paths)
    else [].
Proof.
  induction 1 as [|b rest Hb Hnd IH]; cbn [flat_map].
  - rewrite decide_False by apply not_elem_of_nil. reflexivity.
  - rewrite filter_app, IH.
    destruct (decide (a = b)) as [<- | Hab].
    + destruct (decide (a ∈ rest)); [contradiction|].
      destruct (decide (a ∈ a :: rest)) as [_ | Hn];
        [|exfalso; apply Hn; left].
      rewrite app_nil_r. apply filter_all. intros p Hp.
      apply elem_of_take in Hp as (i & Hi & _).
      apply list_elem_of_lookup_2, list_elem_of_filter in Hi. tauto.
    + rewrite (filter_none (fun p => flashLoanAsset p = a)).
      * cbn [app]. destruct (decide (a ∈ rest)) as [Hin | Hout];
          destruct (decide (a ∈ b :: rest)) as [Hin' | Hout'];
          try reflexivity.
        -- exfalso. apply Hout'. now right.
        -- exfalso. apply elem_of_cons in Hin' as [Hin' | Hin']; auto.
      * intros p Hp Hpa. apply elem_of_take in Hp as (i & Hi & _).
        apply list_elem_of_lookup_2, list_elem_of_filter in Hi as [Hi _].
        congruence.
Qed.

Lemma balanceFlashLoanAssetDistribution_filter (pg : t) (paths : list Path)
    (a : string) :
  NoDup (flashLoanAssets pg) ->
  filter (fun p => flashLoanAsset p = a)
         (balanceFlashLoanAssetDistribution pg paths)
  = if decide (a ∈ flashLoanAssets pg)
    then take maxPathsPerAsset (filter (fun p => flashLoanAsset p = a) paths)
    else [].
Proof.
  intros Hnd. unfold balanceFlashLoanAssetDistribution.
  rewrite (flat_map_ext _
    (fun asset => take maxPathsPerAsset
                    (filter (fun p => flashLoanAsset p = asset) paths))).
  - now apply balance_filter.
  - intros asset. now rewrite groupByAsset_lookup.
Qed.

Lemma balanceFlashLoanAssetDistribution_length (pg : t) (paths : list Path) :
  (length (balanceFlashLoanAssetDistribution pg paths)
   <= maxPathsPerAsset * length (flashLoanAssets pg))%nat.
Proof.
  unfold balanceFlashLoanAssetDistribution.
  induction (flashLoanAssets pg) as [|a rest IH]; cbn [flat_map length];
    [lia|].
  rewrite length_app, length_take. lia.
Qed.

(** X12.  Balancing caps the generated paths at 200 per flash-loan asset, hence
    at 200 times the number of configured tokens in all. *)
Theorem generated_paths_capped (tokenAddresses : list (string * TokenInfo))
    (dexConfigs : list (string * DexConfig)) :
  NoDup (keys tokenAddresses) ->
  let paths :=
    generatedPaths (generateAllPaths (new tokenAddresses dexConfigs)) in
  (forall asset,
     (length (filter (fun p => flashLoanAsset p = asset) paths) <= 200)%nat)
  /\ (length paths <= 200 * length (keys tokenAddresses))%nat.
Proof.
  intros Hkeys. cbv zeta. unfold generateAllPaths.
  cbn [generatedPaths set_generatedPaths]. unfold filterAndOptimizePaths.
  split.
  - intros asset. rewrite balanceFlashLoanAssetDistribution_filter by exact Hkeys.
    destruct (decide _); [|cbn; lia]. rewrite length_take.
    unfold maxPathsPerAsset. lia.
  - apply (balanceFlashLoanAssetDistribution_length
             (new tokenAddresses dexConfigs)).
Qed.

End PostProcessing.

Lemma generated_paths_capped_witness :
  NoDup (keys TOKEN_ADDRESSES)
  /\ (length (PathGenerator.generatedPaths
                (PathGenerator.generateAllPaths
                   (PathGenerator.new TOKEN_ADDRESSES DEX_CONFIGS)))
      <= 200 * length (keys TOKEN_ADDRESSES))%nat.
Proof.
  assert (Hkeys : NoDup (keys TOKEN_ADDRESSES)).
  { apply (bool_decide_unpack _). vm_compute. exact I. }
  split; [exact Hkeys|].
  apply (generated_paths_capped TOKEN_ADDRESSES DEX_CONFIGS Hkeys).
Defined.

(** *** Ranking *)

Section Ranking.

Import PathGenerator Spec.

Lemma sortScore_finite (p : Path) :
  0 < estimatedComplexity p -> exists x, sortScore p = Fin x.
Proof.
  intros Hc. unfold sortScore.
  destruct (Z.ltb_spec (estimatedComplexity p) 0); [lia|].
  destruct (Z.eqb_spec (estimatedComplexity p) 0); [lia|].
  unfold fin. eauto.
Qed.

Lemma comparatorPositive_Fin (a b : Path) (x y : Q) :
  sortScore a = Fin x -> sortScore b = Fin y ->
  comparatorPositive a b = Qltb x y.
Proof.
  intros Ha Hb. unfold comparatorPositive, gtb. rewrite Ha, Hb.
  cbn [Num.sub]. unfold fin. cbn [ltb]. rewrite Qltb_Qred_r.
  destruct (Qltb x y) eqn:Hxy.
  - apply Qltb_lt in Hxy. apply Qltb_lt. lra.
  - apply Qltb_ge in Hxy. apply Qltb_ge. lra.
Qed.

Lemma sortInsert_sorted (a : Path) (sorted : list Path) :
  0 < estimatedComplexity a ->
  Forall (fun p => 0 < estimatedComplexity p) sorted ->
  StronglySorted (fun p q => ltb (sortScore p) (sortScore q) = false) sorted ->
  StronglySorted (fun p q => ltb (sortScore p) (sortScore q) = false)
                 (sortInsert a sorted).
Proof.
  intros Ha. destruct (sortScore_finite a Ha) as [x Hx].
  induction sorted as [|b rest IH]; intros Hall Hs; cbn [sortInsert].
  - repeat constructor.
  - apply Forall_cons in Hall as [Hb Hall].
    apply StronglySorted_cons in Hs as [Hbrest Hs].
    destruct (sortScore_finite b Hb) as [y Hy].
    rewrite (comparatorPositive_Fin a b x y Hx Hy).
    destruct (Qltb x y) eqn:Hxy.
    + apply StronglySorted_cons. split; [|now apply IH].
      rewrite sortInsert_Permutation. apply Forall_cons. split; [|exact Hbrest].
      rewrite Hx, Hy. cbn. apply Qltb_lt in Hxy. apply Qltb_ge. lra.
    + apply StronglySorted_cons. split;
        [|apply StronglySorted_cons; split; assumption].
      apply Forall_cons. split; [now rewrite Hx, Hy|].
      apply Forall_forall. intros c Hc.
      rewrite Forall_forall in Hbrest, Hall.
      specialize (Hbrest c Hc).
      destruct (sortScore_finite c (Hall c Hc)) as [z Hz].
      rewrite Hx, Hy, Hz in *. cbn in Hbrest |- *.
      apply Qltb_ge in Hxy, Hbrest. apply Qltb_ge. lra.
Qed.

Lemma sortPaths_sorted (paths : list Path) :
  Forall (fun p => 0 < estimatedComplexity p) paths ->
  StronglySorted (fun p q => ltb (sortScore p) (sortScore q) = false)
                 (sortPaths paths).
Proof.
  induction paths as [|a rest IH]; intros Hall; cbn [sortPaths fold_right].
  - constructor.
  - apply Forall_cons in Hall as [Ha Hall]. fold (sortPaths rest).
    apply sortInsert_sorted; [exact Ha | | now apply IH].
    now rewrite sortPaths_Permutation.
Qed.

Lemma StronglySorted_filter {A : Type} (R : relation A) (P : A -> Prop)
    `{forall x, Decision (P x)} (l : list A) :
  StronglySorted R l -> StronglySorted R (filter P l).
Proof.
  induction l as [|x l IH]; intros Hs; [constructor|].
  apply StronglySorted_cons in Hs as [Hx Hs]. rewrite filter_cons.
  destruct (decide (P x)); [|now apply IH].
  apply StronglySorted_cons. split; [|now apply IH].
  apply Forall_forall. intros y Hy. apply list_elem_of_filter in Hy as [_ Hy].
  rewrite Forall_forall in Hx. now apply Hx.
Qed.

Lemma calculatePathComplexity_positive (pg : t)
    (tokenPath dexCombination : list string) :
  (2 <= length tokenPath)%nat ->
  0 < calculatePathComplexity pg tokenPath dexCombination.
Proof.
  unfold calculatePathComplexity, count. cbv zeta. intros H.
  pose proof (Nat2Z.is_nonneg (size (list_to_set dexCombination : gset string)))
    as Hsize.
  pose proof (Nat2Z.is_nonneg
                (length (filter (fun x => isV3 pg x = true) dexCombination)))
    as Hv3.
  apply Nat2Z.inj_le in H.
  set (n := Z.of_nat (length tokenPath)) in *.
  set (u := Z.of_nat (size _)) in *. set (v := Z.of_nat (length (filter _ _))) in *.
  change (Z.of_nat 2) with 2 in H. clearbody n u v. lia.
Qed.

Lemma candidates_complexity (pg : t) (assets : list string) (p : Path) :
  In p (flat_map (generateCircularPathsFromAsset pg) assets) ->
  0 < estimatedComplexity p.
Proof.
  intros H. apply in_flat_map in H as (asset & _ & H).
  unfold generateCircularPathsFromAsset, generateCircularPathsWithHops in H.
  apply in_flat_map in H as (hopCount & _ & H).
  apply dfsCircularPath_In in H as (mid & _ & _ & H).
  apply generateDexCombinationsForPath_In in H
    as (_ & _ & _ & _ & _ & _ & _ & -> & _).
  apply calculatePathComplexity_positive. rewrite !length_app. cbn. lia.
Qed.

(** X13.  For each flash-loan asset, the generated paths of that asset are its
    best-scoring quality candidates: the candidates are, up to order, the
    generated paths followed by the dropped ones, the whole in
    non-increasing order of score, and paths are dropped only when 200 are
    kept. *)
Theorem generated_paths_ranked (tokenAddresses : list (string * TokenInfo))
    (dexConfigs : list (string * DexConfig)) (asset : string) :
  NoDup (keys tokenAddresses) ->
  let pg := new tokenAddresses dexConfigs in
  let candidates :=
    filter (fun p => qualityPath pg p = true)
           (removeDuplicatePaths
              (flat_map (generateCircularPathsFromAsset pg)
                        (flashLoanAssets pg))) in
  let kept :=
    filter (fun p => flashLoanAsset p = asset)
           (generatedPaths (generateAllPaths pg)) in
  exists dropped,
    filter (fun p => flashLoanAsset p = asset) candidates ≡ₚ kept ++ dropped
    /\ StronglySorted (fun p q => ltb (sortScore p) (sortScore q) = false)
                      (kept ++ dropped)
    /\ (dropped <> [] -> length kept = 200%nat).
Proof.
  intros Hkeys. cbv zeta. unfold generateAllPaths.
  cbn [generatedPaths set_generatedPaths new app].
  unfold filterAndOptimizePaths.
  set (pg := new tokenAddresses dexConfigs).
  set (candidates := filter _ (removeDuplicatePaths _)).
  rewrite balanceFlashLoanAssetDistribution_filter by exact Hkeys.
  set (ranked := filter (fun p => flashLoanAsset p = asset)
                        (sortPaths candidates)).
  assert (Hperm : filter (fun p => flashLoanAsset p = asset) candidates
                  ≡ₚ ranked).
  { subst ranked. now rewrite sortPaths_Permutation. }
  assert (Hsorted : StronglySorted
                      (fun p q => ltb (sortScore p) (sortScore q) = false)
                      ranked).
  { apply StronglySorted_filter, sortPaths_sorted, Forall_forall.
    intros p Hp. apply list_elem_of_filter in Hp as [_ Hp].
    apply (candidates_complexity pg (flashLoanAssets pg)).
    apply list_elem_of_In.
    eapply sublist_subseteq; [apply removeDuplicatePaths_from_sublist|].
    exact Hp. }
  destruct (decide (asset ∈ flashLoanAssets pg)) as [Hin | Hout].
  - exists (drop maxPathsPerAsset ranked). rewrite take_drop.
    split; [exact Hperm|]. split; [exact Hsorted|].
    intros Hdrop. rewrite length_take. unfold maxPathsPerAsset in *.
    destruct (Nat.le_gt_cases (length ranked) 200) as [Hle | Hgt]; [|lia].
    now rewrite drop_ge in Hdrop.
  - exists []. cbn [app].
    assert (Hnone : ranked = []).
    { apply filter_none. intros p Hp Hasset.
      rewrite sortPaths_Permutation in Hp.
      apply list_elem_of_filter in Hp as [Hq _].
      apply qualityPath_true in Hq as (_ & _ & _ & _ & Hq).
      unfold includes in Hq. apply existsb_exists in Hq as (x & Hx & Heq).
      apply String.eqb_eq in Heq. subst x. apply Hout.
      rewrite <- Hasset. now apply list_elem_of_In. }
    rewrite Hnone in Hperm. split; [exact Hperm|].
    split; [constructor | congruence].
Qed.

End Ranking.

Lemma generated_paths_ranked_witness :
  NoDup (keys TOKEN_ADDRESSES)
  /\ exists dropped,
       StronglySorted
         (fun p q => ltb (PathGenerator.sortScore p) (PathGenerator.sortScore q)
                     = false)
         (filter (fun p => PathGenerator.flashLoanAsset p = "WBNB"%string)
                 (PathGenerator.generatedPaths
                    (PathGenerator.generateAllPaths
                       (PathGenerator.new TOKEN_ADDRESSES DEX_CONFIGS)))
          ++ dropped).
Proof.
  assert (Hkeys : NoDup (keys TOKEN_ADDRESSES)).
  { apply (bool_decide_unpack _). vm_compute. exact I. }
  split; [exact Hkeys|].
  destruct (generated_paths_ranked TOKEN_ADDRESSES DEX_CONFIGS "WBNB" Hkeys)
    as (dropped & _ & Hsorted & _).
  exists dropped. exact Hsorted.
Defined.

(** ** Path generator: statistics *)

Section Statistics.

Import PathGenerator.

Lemma count_cons {A : Type} (f : A -> bool) (x : A) (xs : list A) :
  count f (x :: xs) = (if f x then 1 else 0) + count f xs.
Proof.
  unfold count. rewrite filter_cons.
  destruct (decide (f x = true)) as [Hx | Hx].
  - rewrite Hx. cbn [length]. lia.
  - apply not_true_is_false in Hx. rewrite Hx. lia.
Qed.

Lemma increment_lookup (k k' : Z) (o : gmap Z Z) :
  default 0 (increment k o !! k')
  = default 0 (o !! k') + (if bool_decide (k = k') then 1 else 0).
Proof.
  unfold increment. destruct (decide (k = k')) as [<- | Hne].
  - rewrite lookup_insert_eq, bool_decide_eq_true_2 by reflexivity.
    reflexivity.
  - rewrite lookup_insert_ne, bool_decide_eq_false_2 by assumption. lia.
Qed.

Lemma count_nonneg {A : Type} (f : A -> bool) (xs : list A) : 0 <= count f xs.
Proof. unfold count. lia. Qed.

(** One increment of a table of names, on an entry that stands at [n]. *)
Lemma incrementNamed_tallied (k k' : string) (o : gmap string Tally) (n : Z) :
  0 <= n ->
  o !! k' = Spec.tallied k' n ->
  incrementNamed k o !! k'
  = Spec.tallied k' (n + (if bool_decide (k = k') then 1 else 0)).
Proof.
  intros Hn Hk'. unfold incrementNamed.
  destruct (String.eqb_spec k "__proto__") as [Hproto | Hproto].
  - rewrite Hk'. destruct (decide (k = k')) as [<- | Hne].
    + rewrite bool_decide_eq_true_2 by reflexivity. subst k.
      unfold Spec.tallied. cbn [String.eqb Ascii.eqb Bool.eqb].
      now destruct (n =? 0), (n + 1 =? 0).
    + rewrite bool_decide_eq_false_2 by assumption. now rewrite Z.add_0_r.
  - destruct (decide (k = k')) as [<- | Hne].
    + rewrite bool_decide_eq_true_2 by reflexivity. rewrite Hk'.
      unfold Spec.tallied.
      apply String.eqb_neq in Hproto. rewrite Hproto.
      replace (n + 1 =? 0) with false by lia.
      destruct (Z.eqb_spec n 0) as [-> | Hpos].
      * destruct (inherited k); now rewrite lookup_insert_eq.
      * destruct (inherited k); rewrite lookup_insert_eq;
          [|reflexivity].
        do 2 f_equal. rewrite Z2Nat.inj_add by lia. cbn. lia.
    + rewrite bool_decide_eq_false_2, Z.add_0_r by assumption.
      rewrite <- Hk'.
      destruct (o !! k) as [[c | member ones]|];
        [| |destruct (inherited k)]; now rewrite lookup_insert_ne.
Qed.

Lemma dexUsage_tallied (dexes : list string) (d : string) :
  forall (usage : gmap string Tally) (n : Z),
    0 <= n ->
    usage !! d = Spec.tallied d n ->
    fold_left (fun usage dex => incrementNamed dex usage) dexes usage !! d
    = Spec.tallied d (n + count (fun dex => bool_decide (dex = d)) dexes).
Proof.
  induction dexes as [|dex rest IH]; intros usage n Hn Hd; cbn [fold_left].
  - change (count _ []) with 0. now rewrite Z.add_0_r.
  - rewrite count_cons, Z.add_assoc. apply IH.
    + destruct (bool_decide (dex = d)); lia.
    + now apply incrementNamed_tallied.
Qed.

(** What the loop of [getPathStatistics] has counted after a list of
    paths. *)
Lemma getPathStatistics_loop (paths : list Path) :
  forall acc : StatisticsLoop,
    let acc' := fold_left getPathStatistics_step paths acc in
    let stats := loop_stats acc in
    let stats' := loop_stats acc' in
    totalPaths stats' = totalPaths stats
    /\ (forall h, default 0 (byHops stats' !! h)
                  = default 0 (byHops stats !! h)
                    + count (fun p => bool_decide (hops p = h)) paths)
    /\ high (byLiquidityScore stats')
       = high (byLiquidityScore stats)
         + count (fun p => 50 <=? liquidityScore p) paths
    /\ medium (byLiquidityScore stats')
       = medium (byLiquidityScore stats)
         + count (fun p => (30 <=? liquidityScore p)
                           && (liquidityScore p <? 50)) paths
    /\ low (byLiquidityScore stats')
       = low (byLiquidityScore stats)
         + count (fun p => liquidityScore p <? 30) paths
    /\ totalComplexity acc'
       = totalComplexity acc
         + fold_right Z.add 0 (map estimatedComplexity paths)
    /\ totalLiquidityScore acc'
       = totalLiquidityScore acc
         + fold_right Z.add 0 (map liquidityScore paths).
Proof.
  induction paths as [|p rest IH]; intros acc; cbv zeta; cbn [fold_left].
  - change (count _ []) with 0. cbn. split_and!; intros; lia.
  - specialize (IH (getPathStatistics_step acc p)). cbv zeta in IH.
    destruct IH as (H1 & H3 & H5 & H6 & H7 & H8 & H9).
    rewrite H1, H5, H6, H7, H8, H9. cbn [map fold_right].
    rewrite !count_cons.
    split_and!.
    + reflexivity.
    + intros h. rewrite H3, count_cons. cbn. rewrite increment_lookup. lia.
    + cbn. destruct (Z.leb_spec 50 (liquidityScore p));
        [|destruct (30 <=? liquidityScore p)]; cbn; lia.
    + cbn. destruct (Z.leb_spec 50 (liquidityScore p)),
        (Z.leb_spec 30 (liquidityScore p)),
        (Z.ltb_spec (liquidityScore p) 50); cbn; lia.
    + cbn. destruct (Z.leb_spec 50 (liquidityScore p)),
        (Z.leb_spec 30 (liquidityScore p)),
        (Z.ltb_spec (liquidityScore p) 30); cbn; lia.
    + cbn. lia.
    + cbn. lia.
Qed.

(** The two tables of names after a list of paths. *)
Lemma getPathStatistics_loop_names (paths : list Path) (a : string) :
  forall (acc : StatisticsLoop) (n m : Z),
    0 <= n -> 0 <= m ->
    byFlashLoanAsset (loop_stats acc) !! a = Spec.tallied a n ->
    byDexUsage (loop_stats acc) !! a = Spec.tallied a m ->
    let stats' := loop_stats (fold_left getPathStatistics_step paths acc) in
    byFlashLoanAsset stats' !! a
    = Spec.tallied a
        (n + count (fun p => bool_decide (flashLoanAsset p = a)) paths)
    /\ byDexUsage stats' !! a
       = Spec.tallied a
           (m + fold_right Z.add 0
                  (map (fun p => count (fun dex => bool_decide (dex = a))
                                       (dexes p)) paths)).
Proof.
  induction paths as [|p rest IH]; intros acc n m Hn Hm Hasset Hdex;
    cbv zeta; cbn [fold_left map fold_right].
  - change (count _ []) with 0. now rewrite !Z.add_0_r.
  - rewrite count_cons, !Z.add_assoc.
    pose proof (count_nonneg (fun dex => bool_decide (dex = a)) (dexes p)).
    apply IH.
    + destruct (bool_decide (flashLoanAsset p = a)); lia.
    + lia.
    + cbn. now apply incrementNamed_tallied.
    + cbn. now apply dexUsage_tallied.
Qed.

Lemma count_partition {A : Type} (f g h : A -> bool) (xs : list A) :
  (forall x, (if f x then 1 else 0) + (if g x then 1 else 0)
             + (if h x then 1 else 0) = 1) ->
  count f xs + count g xs + count h xs = Z.of_nat (length xs).
Proof.
  intros Hone. induction xs as [|x xs IH].
  - reflexivity.
  - rewrite !count_cons. cbn [length]. specialize (Hone x). lia.
Qed.

(** X14.  The statistics add up: every generated path falls in exactly one
    liquidity bucket, so the three buckets sum to [totalPaths], which is
    the number of generated paths; the entry of [byHops] under a hop count
    is the number of paths with that hop count; and the entries of
    [byFlashLoanAsset] and [byDexUsage] under a name stand at the number of
    paths with that flash-loan asset, and of hops on that venue: absent at
    zero, that number for a name that [Object.prototype] does not have, and
    for a name it has no number but text (nothing under [__proto__]). *)
Theorem getPathStatistics_consistent (pg : t) :
  let stats := getPathStatistics pg in
  let paths := generatedPaths pg in
  totalPaths stats = Z.of_nat (length paths)
  /\ high (byLiquidityScore stats) + medium (byLiquidityScore stats)
     + low (byLiquidityScore stats) = totalPaths stats
  /\ (forall a, byFlashLoanAsset stats !! a
                = Spec.tallied a
                    (count (fun p => bool_decide (flashLoanAsset p = a)) paths))
  /\ (forall h, default 0 (byHops stats !! h)
                = count (fun p => bool_decide (hops p = h)) paths)
  /\ (forall d, byDexUsage stats !! d
                = Spec.tallied d
                    (fold_right Z.add 0
                       (map (fun p => count (fun dex => bool_decide (dex = d))
                                            (dexes p)) paths))).
Proof.
  cbv zeta. unfold getPathStatistics.
  match goal with
  | |- context [fold_left getPathStatistics_step ?l ?acc] =>
      pose proof (getPathStatistics_loop l acc) as H;
      pose proof (fun a => getPathStatistics_loop_names l a acc 0 0
                             (Z.le_refl 0) (Z.le_refl 0)
                             (lookup_empty a) (lookup_empty a)) as Hnames;
      set (acc' := fold_left getPathStatistics_step l acc) in *
  end.
  cbv zeta in H, Hnames.
  cbn [loop_stats totalPaths byFlashLoanAsset byHops
       byDexUsage byLiquidityScore high medium low] in H.
  destruct H as (H1 & H3 & H5 & H6 & H7 & _).
  assert (Hsum : high (byLiquidityScore (loop_stats acc'))
                 + medium (byLiquidityScore (loop_stats acc'))
                 + low (byLiquidityScore (loop_stats acc'))
                 = Z.of_nat (length (generatedPaths pg))).
  { rewrite H5, H6, H7. cbn.
    apply (count_partition (fun p => 50 <=? liquidityScore p)
             (fun p => (30 <=? liquidityScore p) && (liquidityScore p <? 50))
             (fun p => liquidityScore p <? 30)).
    intros p. destruct (Z.leb_spec 50 (liquidityScore p)),
      (Z.leb_spec 30 (liquidityScore p)),
      (Z.ltb_spec (liquidityScore p) 50),
      (Z.ltb_spec (liquidityScore p) 30); cbn; lia. }
  assert (Hall :
    totalPaths (loop_stats acc') = Z.of_nat (length (generatedPaths pg))
    /\ (forall a, byFlashLoanAsset (loop_stats acc') !! a
                  = Spec.tallied a
                      (count (fun p => bool_decide (flashLoanAsset p = a))
                             (generatedPaths pg)))
    /\ (forall h, default 0 (byHops (loop_stats acc') !! h)
                  = count (fun p => bool_decide (hops p = h))
                          (generatedPaths pg))
    /\ (forall d, byDexUsage (loop_stats acc') !! d
                  = Spec.tallied d
                      (fold_right Z.add 0
                         (map (fun p => count (fun dex => bool_decide (dex = d))
                                              (dexes p)) (generatedPaths pg))))).
  { split_and!; [exact H1 | | |].
    - intros a. exact (proj1 (Hnames a)).
    - intros h. rewrite H3, lookup_empty. cbn. lia.
    - intros d. exact (proj2 (Hnames d)). }
  destruct Hall as (T1 & T2 & T3 & T4).
  destruct (0 <? Z.of_nat (length (generatedPaths pg)));
    cbn [totalPaths byFlashLoanAsset byHops byDexUsage byLiquidityScore];
    (split_and!; [exact T1 | rewrite T1; exact Hsum | exact T2 | exact T3
                 | exact T4]).
Qed.

(** A venue named [valueOf] is counted as text, and one named [__proto__]
    not at all. *)
Example incrementNamed_members :
  incrementNamed "valueOf" (incrementNamed "valueOf" ∅) !! "valueOf"%string
  = Some (Text "valueOf" 2)
  /\ incrementNamed "__proto__" ∅ = ∅
  /\ incrementNamed "BISWAP" (incrementNamed "BISWAP" ∅) !! "BISWAP"%string
     = Some (Count 2).
Proof. split_and!; reflexivity. Qed.

End Statistics.

(** ** Price fetcher: cache updates and upstream requests *)

Section Fetcher.

Import Provider PriceFetcher.

(** What a fetch leaves in the cache. *)
Lemma fetchPrice_cache (key dexName tokenIn tokenOut : string) (a : Amount)
    (f : t) :
  let r := fetchPrice key dexName tokenIn tokenOut a f in
  cacheTimeout (snd r) = cacheTimeout f
  /\ match fst r with
     | None => priceCache (snd r) = priceCache f
     | Some q =>
         priceCache (snd r)
         = <[ key := {| data := q; timestamp := clock (snd r) |} ]>
             (priceCache f)
     end.
Proof.
  cbv zeta. unfold fetchPrice, bind, gets, modify, ret. cbn.
  destruct (get (contracts f) dexName) as [contract|]; [|cbn; auto].
  pose proof (fetchAmountOut_frame contract dexName tokenIn tokenOut a f)
    as Hframe. cbv zeta in Hframe.
  destruct (fetchAmountOut contract dexName tokenIn tokenOut a f)
    as [[amountOut|] f']; cbn in Hframe |- *;
    destruct Hframe as (Hc & Ht & _); [|auto].
  split; [exact Ht | now rewrite Hc].
Qed.

(** X15.  A request changes at most the cache entry of its own key: a failed
    request leaves the cache as it was, an answered one either found the
    quote in the cache or stored it, stamped with the time of storing.  So
    the size of the cache grows by at most one, and the timeout never
    changes. *)
Theorem getPrice_cache_update (dexName tokenIn tokenOut : string)
    (amountIn : Amount) (f : t) :
  let key := cacheKey dexName tokenIn tokenOut amountIn in
  let r := getPrice dexName tokenIn tokenOut amountIn f in
  cs_timeout (getCacheStats (snd r)) = cs_timeout (getCacheStats f)
  /\ match fst r with
     | None => priceCache (snd r) = priceCache f
     | Some q =>
         priceCache (snd r) = priceCache f
         \/ priceCache (snd r)
            = <[ key := {| data := q; timestamp := clock (snd r) |} ]>
                (priceCache f)
     end
  /\ (cs_size (getCacheStats f) <= cs_size (getCacheStats (snd r))
      <= S (cs_size (getCacheStats f)))%nat.
Proof.
  cbv zeta. unfold getCacheStats. cbn [cs_size cs_timeout].
  set (key := cacheKey dexName tokenIn tokenOut amountIn).
  assert (Hfetch :
    let r := fetchPrice key dexName tokenIn tokenOut amountIn f in
    cacheTimeout (snd r) = cacheTimeout f
    /\ match fst r with
       | None => priceCache (snd r) = priceCache f
       | Some q =>
           priceCache (snd r) = priceCache f
           \/ priceCache (snd r)
              = <[ key := {| data := q; timestamp := clock (snd r) |} ]>
                  (priceCache f)
       end
    /\ (size (priceCache f) <= size (priceCache (snd r))
        <= S (size (priceCache f)))%nat).
  { cbv zeta.
    destruct (fetchPrice_cache key dexName tokenIn tokenOut amountIn f)
      as [Ht Hc].
    split; [exact Ht|].
    destruct (fst (fetchPrice key dexName tokenIn tokenOut amountIn f))
      as [q|].
    - split; [now right|]. rewrite Hc, map_size_insert.
      destruct (priceCache f !! key); unfold id; lia.
    - split; [exact Hc|]. rewrite Hc. lia. }
  unfold getPrice, bind, gets, ret. cbn. fold key.
  destruct (priceCache f !! key) as [cached|]; [|exact Hfetch].
  destruct (clock f - timestamp cached <? cacheTimeout f); [|exact Hfetch].
  cbn. split; [reflexivity|]. split; [now left | lia].
Qed.

(** X16.  With a positive timeout, a quote that [getPrice] returns is never
    stale: the cache holds it under the key of the request, and its entry
    is younger than the timeout at the moment of the return. *)
Theorem getPrice_never_stale (dexName tokenIn tokenOut : string)
    (amountIn : Amount) (f f1 : t) (q : PriceData) :
  0 < cacheTimeout f ->
  getPrice dexName tokenIn tokenOut amountIn f = (Some q, f1) ->
  exists entry,
    priceCache f1 !! cacheKey dexName tokenIn tokenOut amountIn = Some entry
    /\ data entry = q
    /\ clock f1 - timestamp entry < cacheTimeout f1.
Proof.
  intros Hpos Hget. unfold getPrice, bind, gets, ret in Hget. cbn in Hget.
  assert (Hfetch :
    fetchPrice (cacheKey dexName tokenIn tokenOut amountIn) dexName tokenIn
               tokenOut amountIn f = (Some q, f1) ->
    exists entry,
      priceCache f1 !! cacheKey dexName tokenIn tokenOut amountIn = Some entry
      /\ data entry = q
      /\ clock f1 - timestamp entry < cacheTimeout f1).
  { intros H. apply fetchPrice_success in H as (Hc & Ht & _).
    eexists. split; [exact Hc|]. split; [reflexivity|]. cbn. lia. }
  destruct (priceCache f !! cacheKey dexName tokenIn tokenOut amountIn)
    as [cached|] eqn:Hlook; [|now apply Hfetch].
  destruct (Z.ltb_spec (clock f - timestamp cached) (cacheTimeout f));
    [|now apply Hfetch].
  inversion Hget; subst. eauto.
Qed.

(** *** Upstream requests *)

Lemma getPriceV2_calls (r tokenIn tokenOut : string) (a : Amount) (f : t) :
  exists new,
    upstreamCalls (snd (getPriceV2 r tokenIn tokenOut a f))
    = upstreamCalls f ++ new
    /\ (length new <= 2)%nat.
Proof.
  unfold getPriceV2, bind, gets, modify, ret. cbn.
  destruct (getAmountsOut _ _ _ _ _); cbn.
  - eexists. split; [reflexivity | cbn; lia].
  - destruct (negb _ && negb _); cbn.
    + eexists. split; [now rewrite <- app_assoc | cbn; lia].
    + eexists. split; [reflexivity | cbn; lia].
Qed.

(** The fee-tier loop logs one request per tier it asks, for a prefix of
    the configured tiers. *)
Lemma getPriceV3_tiers_log (q tokenIn tokenOut : string) (a : Amount)
    (tiers : list Z) :
  forall f : t,
    exists k : nat,
      (k <= length tiers)%nat
      /\ upstreamCalls (snd (getPriceV3_tiers q tokenIn tokenOut a tiers f))
         = upstreamCalls f
           ++ map (fun fee => QuoteExactInputSingle q tokenIn tokenOut fee a)
                  (take k tiers).
Proof.
  induction tiers as [|fee rest IH]; intros f.
  - exists 0%nat. cbn. split; [lia | now rewrite app_nil_r].
  - rewrite getPriceV3_tiers_cons.
    destruct (quoteExactInputSingle _ _ _ _ _ _ _).
    + exists 1%nat. cbn. split; [lia | reflexivity].
    + destruct (IH (record_call
                      (QuoteExactInputSingle q tokenIn tokenOut fee a) f))
        as (k & Hk & Hcalls).
      exists (S k). cbn [length take map]. split; [lia|].
      rewrite Hcalls. cbn [upstreamCalls record_call].
      now rewrite <- app_assoc.
Qed.

(** X17.  On a concentrated-liquidity venue the quoter is asked tier by
    tier, in the order of the configuration, until one tier answers: the
    requests logged are those for the first [k] tiers, all tiers before the
    last of them failed, and the result is the answer of that last tier, or
    none when every tier failed. *)
Theorem getPriceV3_first_answering_tier (q tokenIn tokenOut : string)
    (a : Amount) (tiers : list Z) (f : t) :
  let r := getPriceV3_tiers q tokenIn tokenOut a tiers f in
  let answer (i : nat) (fee : Z) :=
    quoteExactInputSingle (provider f) (length (upstreamCalls f) + i)
                          q tokenIn tokenOut fee a in
  exists k : nat,
    (k <= length tiers)%nat
    /\ upstreamCalls (snd r)
       = upstreamCalls f
         ++ map (fun fee => QuoteExactInputSingle q tokenIn tokenOut fee a)
                (take k tiers)
    /\ (forall i fee, (S i < k)%nat -> tiers !! i = Some fee ->
                      answer i fee = None)
    /\ match fst r with
       | Some amountOut =>
           exists i fee, k = S i /\ tiers !! i = Some fee
                         /\ answer i fee = Some amountOut
       | None =>
           k = length tiers
           /\ forall i fee, tiers !! i = Some fee -> answer i fee = None
       end.
Proof.
  revert f. induction tiers as [|fee rest IH]; intros f; cbv zeta.
  - exists 0%nat. cbn. split; [lia|]. split; [now rewrite app_nil_r|].
    split; [intros; lia|]. split; [reflexivity|]. intros i fee Hi.
    inversion Hi.
  - rewrite getPriceV3_tiers_cons.
    destruct (quoteExactInputSingle (provider f) (length (upstreamCalls f))
                                    q tokenIn tokenOut fee a)
      as [amountOut|] eqn:Hanswer.
    + exists 1%nat. cbn. split; [lia|]. split; [reflexivity|].
      split; [intros; lia|]. exists 0%nat, fee.
      rewrite Nat.add_0_r. auto.
    + specialize (IH (record_call
                        (QuoteExactInputSingle q tokenIn tokenOut fee a) f)).
      cbv zeta in IH. destruct IH as (k & Hk & Hcalls & Hbefore & Hres).
      cbn [provider record_call upstreamCalls] in Hcalls, Hbefore, Hres.
      rewrite length_app in Hbefore, Hres. cbn [length] in Hbefore, Hres.
      exists (S k). cbn [length take map]. split; [lia|].
      split; [now rewrite Hcalls, <- app_assoc|].
      assert (Hshift : forall i fee',
                quoteExactInputSingle (provider f)
                  (length (upstreamCalls f) + 1 + i) q tokenIn tokenOut fee' a
                = quoteExactInputSingle (provider f)
                    (length (upstreamCalls f) + S i) q tokenIn tokenOut fee' a).
      { intros i fee'. f_equal. lia. }
      split.
      * intros [|i] fee' Hi Hfee.
        -- inversion Hfee; subst. now rewrite Nat.add_0_r.
        -- rewrite <- Hshift. apply Hbefore; [lia | exact Hfee].
      * destruct (fst (getPriceV3_tiers q tokenIn tokenOut a rest _))
          as [amountOut|].
        -- destruct Hres as (i & fee' & -> & Hfee & Hans).
           exists (S i), fee'. rewrite <- Hshift. auto.
        -- destruct Hres as [-> Hnone]. split; [reflexivity|].
           intros [|i] fee' Hfee.
           ++ inversion Hfee; subst. now rewrite Nat.add_0_r.
           ++ rewrite <- Hshift. now apply Hnone.
Qed.

Lemma fetchAmountOut_calls (contract : Contract)
    (dexName tokenIn tokenOut : string) (a : Amount) (f : t) :
  exists new,
    upstreamCalls (snd (fetchAmountOut contract dexName tokenIn tokenOut a f))
    = upstreamCalls f ++ new
    /\ (length new
        <= match c_type contract with
           | type_v2 => 2
           | type_v3 =>
               length (default [] (fees <$> get (dexConfigs f) dexName))
           end)%nat.
Proof.
  unfold fetchAmountOut. destruct (c_type contract).
  - apply getPriceV2_calls.
  - unfold getPriceV3, bind, gets, ret. cbn.
    destruct (get (dexConfigs f) dexName) as [cfg|]; cbn;
      [|exists []; split; [now rewrite app_nil_r | cbn; lia]].
    destruct (c_quoter contract) as [qt|]; cbn;
      [|exists []; split; [now rewrite app_nil_r | cbn; lia]].
    destruct (getPriceV3_tiers_log qt tokenIn tokenOut a (fees cfg) f)
      as (k & Hk & Hcalls).
    eexists. split; [exact Hcalls|].
    rewrite List.length_map, length_take. lia.
Qed.

(** X18.  One call of [getPrice] only appends to the log of upstream requests:
    nothing when the venue is unknown or a live entry is cached, at most
    two requests on a constant-product venue (the direct route, then the
    route through WBNB), and at most one per fee tier on a
    concentrated-liquidity venue. *)
Theorem getPrice_upstream_requests (dexName tokenIn tokenOut : string)
    (amountIn : Amount) (f : t) :
  let f1 := snd (getPrice dexName tokenIn tokenOut amountIn f) in
  exists new,
    upstreamCalls f1 = upstreamCalls f ++ new
    /\ (length new
        <= match get (contracts f) dexName with
           | None => 0
           | Some contract =>
               match c_type contract with
               | type_v2 => 2
               | type_v3 =>
                   length (default [] (fees <$> get (dexConfigs f) dexName))
               end
           end)%nat
    /\ (forall cached,
          priceCache f !! cacheKey dexName tokenIn tokenOut amountIn
          = Some cached ->
          clock f - timestamp cached < cacheTimeout f ->
          new = []).
Proof.
  cbv zeta.
  assert (Hfetch :
    exists new,
      upstreamCalls
        (snd (fetchPrice (cacheKey dexName tokenIn tokenOut amountIn)
                         dexName tokenIn tokenOut amountIn f))
      = upstreamCalls f ++ new
      /\ (length new
          <= match get (contracts f) dexName with
             | None => 0
             | Some contract =>
                 match c_type contract with
                 | type_v2 => 2
                 | type_v3 =>
                     length (default [] (fees <$> get (dexConfigs f) dexName))
                 end
             end)%nat).
  { unfold fetchPrice, bind, gets, modify, ret. cbn.
    destruct (get (contracts f) dexName) as [contract|];
      [|exists []; split; [now rewrite app_nil_r | cbn; lia]].
    destruct (fetchAmountOut_calls contract dexName tokenIn tokenOut
                                   amountIn f) as (new & Hnew & Hlen).
    destruct (fetchAmountOut contract dexName tokenIn tokenOut amountIn f)
      as [[amountOut|] f']; cbn in Hnew |- *; eauto. }
  unfold getPrice, bind, gets, ret. cbn.
  destruct (priceCache f !! cacheKey dexName tokenIn tokenOut amountIn)
    as [cached|].
  - destruct (Z.ltb_spec (clock f - timestamp cached) (cacheTimeout f)).
    + exists []. cbn. split; [now rewrite app_nil_r|]. split; [lia | auto].
    + destruct Hfetch as (new & Hnew & Hlen). exists new.
      split; [exact Hnew|]. split; [exact Hlen|].
      intros cached' [= <-] Hlive. lia.
  - destruct Hfetch as (new & Hnew & Hlen). exists new.
    split; [exact Hnew|]. split; [exact Hlen|]. intros cached' Hc.
    discriminate Hc.
Qed.

End Fetcher.

Lemma getPrice_never_stale_witness :
  0 < PriceFetcher.cacheTimeout
        (Scenario.fresh_fetcher Scenario.linear_provider)
  /\ fst (Scenario.first_request
            (Scenario.fresh_fetcher Scenario.linear_provider))
     = Some (Scenario.first_quote (Fin 3000) (Fin 300))
  /\ exists entry,
       PriceFetcher.priceCache
         (snd (Scenario.first_request
                 (Scenario.fresh_fetcher Scenario.linear_provider)))
       !! PriceFetcher.cacheKey "PANCAKESWAP_V2" Scenario.wbnb_address
            Scenario.usdt_address Scenario.ten_wbnb
       = Some entry
       /\ PriceFetcher.data entry = Scenario.first_quote (Fin 3000) (Fin 300).
Proof.
  set (f0 := Scenario.fresh_fetcher Scenario.linear_provider).
  assert (Hpos : 0 < PriceFetcher.cacheTimeout f0) by reflexivity.
  assert (Hfst : fst (Scenario.first_request f0)
                 = Some (Scenario.first_quote (Fin 3000) (Fin 300)))
    by (vm_compute; reflexivity).
  split; [exact Hpos|]. split; [exact Hfst|].
  assert (Hfirst : Scenario.first_request f0
                   = (Some (Scenario.first_quote (Fin 3000) (Fin 300)),
                      snd (Scenario.first_request f0))).
  { rewrite (surjective_pairing (Scenario.first_request f0)) at 1.
    now rewrite Hfst. }
  unfold Scenario.first_request in *.
  destruct (getPrice_never_stale _ _ _ _ _ _ _ Hpos Hfirst)
    as (entry & Hentry & Hdata & _).
  exists entry. split; [exact Hentry | exact Hdata].
Defined.

(** ** Scanner: loan, legs and parameters *)

Section ScannerLegs.

Import ArbitrageScanner.
Import PathGenerator (Path, tokens, dexes, hops, flashLoanAsset, isCircular,
                      liquidityScore, opt_eqb).

(** X19.  For a path whose flash-loan asset is not the name of a member of
    [Object.prototype], the flash-loan amount is a finite, strictly
    positive [BigNumber], between 0.035 (BTCB, long path, low liquidity) and
    9000 (a stablecoin, short path, high liquidity).  For the name of a
    member, the function throws a [TypeError] where an adjustment applies
    (at most 3 hops or at least 6, a liquidity score of at least 50 or
    below 30) and returns that member otherwise. *)
Theorem calculateOptimalFlashLoanAmount_positive (p : Path) :
  if inherited (flashLoanAsset p)
  then calculateOptimalFlashLoanAmount p
       = if (hops p <=? 3) || (6 <=? hops p)
            || (50 <=? liquidityScore p) || (liquidityScore p <? 30)
         then TypeError
         else LoanMember (flashLoanAsset p)
  else exists q : Q,
         calculateOptimalFlashLoanAmount p = BigNumber (Fin q)
         /\ (0 < q)%Q /\ (35 # 1000 <= q)%Q /\ (q <= 9000)%Q.
Proof.
  assert (Hown : forall base : Q,
            (1 # 10 <= base)%Q -> (base <= 3000)%Q ->
            let baseAmount := BigNumber (Fin base) in
            let baseAmount :=
              if hops p <=? 3 then multipliedBy baseAmount (Fin 2)
              else if 6 <=? hops p then multipliedBy baseAmount (Fin (1 # 2))
              else baseAmount in
            let baseAmount :=
              if 50 <=? liquidityScore p
              then multipliedBy baseAmount (Fin (3 # 2))
              else if liquidityScore p <? 30
                   then multipliedBy baseAmount (Fin (7 # 10))
                   else baseAmount in
            exists q : Q,
              baseAmount = BigNumber (Fin q)
              /\ (0 < q)%Q /\ (35 # 1000 <= q)%Q /\ (q <= 9000)%Q).
  { intros base Hlo Hhi. cbv zeta.
    destruct (hops p <=? 3); [|destruct (6 <=? hops p)];
      (destruct (50 <=? liquidityScore p);
       [|destruct (liquidityScore p <? 30)]);
      cbn [multipliedBy Num.mul]; unfold fin;
      (eexists; split; [reflexivity|]);
      rewrite ?Qred_correct; split_and!; lra. }
  unfold calculateOptimalFlashLoanAmount, property. cbv zeta. cbn [get].
  destruct (String.eqb_spec "WBNB" (flashLoanAsset p)) as [<- | _];
    [apply (Hown 10%Q); lra|].
  destruct (String.eqb_spec "USDT" (flashLoanAsset p)) as [<- | _];
    [apply (Hown 3000%Q); lra|].
  destruct (String.eqb_spec "USDC" (flashLoanAsset p)) as [<- | _];
    [apply (Hown 3000%Q); lra|].
  destruct (String.eqb_spec "BTCB" (flashLoanAsset p)) as [<- | _];
    [apply (Hown (1 # 10)%Q); lra|].
  destruct (String.eqb_spec "ETH" (flashLoanAsset p)) as [<- | _];
    [apply (Hown (3 # 2)%Q); lra|].
  destruct (String.eqb_spec "CAKE" (flashLoanAsset p)) as [<- | _];
    [apply (Hown 1000%Q); lra|].
  destruct (inherited (flashLoanAsset p)).
  - destruct (hops p <=? 3), (6 <=? hops p), (50 <=? liquidityScore p),
      (liquidityScore p <? 30); reflexivity.
  - apply (Hown 1%Q); lra.
Qed.

Lemma abs_not_negative (x : num) : ltb (Num.abs x) (Fin 0) = false.
Proof.
  destruct x as [a| | |]; try reflexivity.
  cbn. unfold fin. rewrite Qltb_Qred_l. apply Qltb_ge. apply Qabs_nonneg.
Qed.

Lemma calculatePriceImpact_abs (dexName tokenIn tokenOut : string)
    (a : Provider.Amount) (f : PriceFetcher.t) (pi : PriceFetcher.PriceImpact) :
  fst (calculatePriceImpact dexName tokenIn tokenOut a f) = Some pi ->
  ltb (PriceFetcher.priceImpact pi) (Fin 0) = false.
Proof.
  unfold calculatePriceImpact, PriceFetcher.calculatePriceImpact, bind, ret.
  destruct (PriceFetcher.getPrice dexName tokenIn tokenOut _ f)
    as [[small|] f1];
    destruct (PriceFetcher.getPrice dexName tokenIn tokenOut a f1)
      as [[actual|] f2]; cbn; try discriminate.
  intros [= <-]. cbn [PriceFetcher.priceImpact].
  apply toNumber_not_negative, abs_not_negative.
Qed.

Variable toString : num -> string.

(** The legs the hop loop appends, one per remaining venue: where each
    starts and ends, what it carries over from the leg before, and that
    its price impact passed the ceiling. *)
Lemma swapLoop_chain (s : t) (p : Path) (prices : option Snapshot)
    (remaining : list string) :
  forall (i : nat) (amount : Provider.Amount) (token : option string)
         (acc : list SwapDetail) (f : PriceFetcher.t)
         (amount' : num) (token' : option string) (legs : list SwapDetail)
         (f' : PriceFetcher.t),
    swapLoop toString s p prices remaining i amount token acc f
    = (Some (amount', token', legs), f') ->
    exists new,
      legs = acc ++ new
      /\ amount' = default (Provider.value amount) (amountOut <$> last new)
      /\ forall (k : nat) (d : SwapDetail),
           new !! k = Some d ->
           index d = (i + k)%nat
           /\ from d = match k with
                       | O => token
                       | S _ => tokens p !! (i + k)%nat
                       end
           /\ to d = tokens p !! S (i + k)
           /\ remaining !! k = Some (dex d)
           /\ amountIn d = match k with
                           | O => Provider.value amount
                           | S j => default NaN (amountOut <$> new !! j)
                           end
           /\ slippage d
              = calculateSlippage (amountIn d) (amountOut d) (price d)
           /\ ltb (priceImpact d) (Fin 0) = false
           /\ (gtb (Fin 0) (maxPriceImpact s) = false ->
               gtb (priceImpact d) (maxPriceImpact s) = false).
Proof.
  induction remaining as [|venue rest IH];
    intros i amount token acc f amount' token' legs f' Hloop.
  - cbn in Hloop. unfold ret in Hloop. inversion Hloop; subst.
    exists []. rewrite app_nil_r. split; [reflexivity|].
    split; [reflexivity|]. intros k d Hk. inversion Hk.
  - cbn [swapLoop] in Hloop. unfold bind in Hloop.
    match type of Hloop with
    | (let (_, _) := ?m in _) = _ => destruct m as [[priceData|] f2]
    end; [|discriminate].
    pose proof (calculatePriceImpact_abs venue
                  (js_str (getTokenAddress token))
                  (js_str (getTokenAddress (tokens p !! S i)))
                  amount f2) as Habs.
    destruct (calculatePriceImpact _ _ _ _ f2) as [impact f3].
    cbn [fst] in Habs.
    match type of Hloop with
    | (if ?c then _ else _) _ = _ => destruct c eqn:Hceiling
    end; [discriminate|].
    apply IH in Hloop as (new & -> & -> & Hnew).
    eexists (_ :: new). rewrite <- app_assoc. split; [reflexivity|].
    split.
    { destruct new as [|d new] using rev_ind; [reflexivity|].
      rewrite last_snoc. change (?x :: new ++ [d]) with ((x :: new) ++ [d]).
      now rewrite last_snoc. }
    intros [|k] d Hd.
    + inversion Hd; subst; clear Hd. cbn. rewrite Nat.add_0_r.
      split_and!; try reflexivity.
      * destruct impact as [pi|]; [now apply Habs | reflexivity].
      * intros Hzero. destruct impact as [pi|]; [exact Hceiling | exact Hzero].
    + cbn [lookup list_lookup] in Hd.
      destruct (Hnew k d Hd) as (H1 & H2 & H3 & H4 & H5 & H6 & H7 & H8).
      rewrite Nat.add_succ_r. cbn [plus] in H1, H2, H3.
      split_and!; try assumption.
      * destruct k; [rewrite Nat.add_0_r; exact H2 | exact H2].
      * rewrite H5. destruct k; reflexivity.
Qed.

(** An opportunity returned by [scanPath] carries the legs of one run of
    the hop loop over the venues of the path, started with the flash-loan
    amount at the first asset. *)
Lemma scanPath_legs (s : t) (p : Path) (prices : option Snapshot)
    (f f' : PriceFetcher.t) (o : Opportunity) :
  scanPath toString s p prices f = (Some o, f') ->
  exists amount' token' f0,
    swapLoop toString s p prices (dexes p) 0
             (amountOf toString (flashLoanAmount o)) (head (tokens p)) [] f
    = (Some (amount', token', swapDetails o), f0)
    /\ calculateOptimalFlashLoanAmount p = BigNumber (flashLoanAmount o)
    /\ finalAmount o = amount'.
Proof.
  intros Hscan.
  apply scanPath_computed in Hscan as (o0 & Hprofit & _ & _ & ->).
  apply calculateCircularPathProfit_computed in Hprofit
    as (loan & amount' & legs & f0 & Hloan & Hloop & ->).
  cbn. exists amount', (head (tokens p)), f0. split_and!; auto.
Qed.

(** X20.  The legs of a returned opportunity follow its path: leg [k] swaps
    asset [k] for asset [k + 1] on venue [k]; the first leg puts in the
    flash-loan amount, every later leg what the leg before it returned;
    the final amount is what the last leg returned; and each slippage is
    that of the leg's own amounts against its price. *)
Theorem scanPath_legs_follow_path (s : t) (p : Path) (prices : option Snapshot)
    (f f' : PriceFetcher.t) (o : Opportunity) :
  scanPath toString s p prices f = (Some o, f') ->
  finalAmount o
  = default (flashLoanAmount o) (amountOut <$> last (swapDetails o))
  /\ forall (k : nat) (d : SwapDetail),
       swapDetails o !! k = Some d ->
       index d = k
       /\ from d = tokens p !! k
       /\ to d = tokens p !! S k
       /\ dexes p !! k = Some (dex d)
       /\ amountIn d = match k with
                       | O => flashLoanAmount o
                       | S j => default NaN
                                  (amountOut <$> swapDetails o !! j)
                       end
       /\ slippage d = calculateSlippage (amountIn d) (amountOut d) (price d).
Proof.
  intros Hscan.
  apply scanPath_legs in Hscan as (amount' & token' & f0 & Hloop & _ & Hfin).
  apply swapLoop_chain in Hloop as (new & Hlegs & Hamount & Hnew).
  cbn [app] in Hlegs. subst new. rewrite Hfin. split; [exact Hamount|].
  intros k d Hd.
  destruct (Hnew k d Hd) as (H1 & H2 & H3 & H4 & H5 & H6 & _).
  cbn [plus] in H1, H2, H3. split_and!; try assumption.
  destruct k; [|exact H2]. rewrite H2. now destruct (tokens p).
Qed.


End ScannerLegs.

Section ScannerParameters.

Import ArbitrageScanner.

Lemma truthy_numOf (x : option num) :
  truthy x = true -> truthy (Some (numOf x)) = true.
Proof. destruct x as [v|]; [exact id | discriminate]. Qed.

(** X22.  [updateParameters] ignores a value that is missing, zero or NaN, so
    it cannot set a parameter to zero; a parameter it does set holds the
    value that was passed; and updating twice with the same values is the
    same as updating once. *)
Theorem updateParameters_ignores_zero (s : t) (params : Params) :
  let s' := updateParameters s params in
  let updated (old new : num) (given : option num) :=
    if truthy given then given = Some new /\ new <> Fin 0 /\ new <> NaN
    else new = old in
  updated (minProfitThreshold s) (minProfitThreshold s')
          (params_minProfitThreshold params)
  /\ updated (maxPriceImpact s) (maxPriceImpact s')
             (params_maxPriceImpact params)
  /\ updated (gasPrice s) (gasPrice s') (params_gasPrice params)
  /\ updated (priorityFee s) (priorityFee s') (params_priorityFee params)
  /\ updated (flashLoanFee s) (flashLoanFee s') (params_flashLoanFee params)
  /\ updateParameters s' params = s'.
Proof.
  cbv zeta.
  assert (Hfield : forall (old : num) (given : option num),
            if truthy given
            then given = Some (numOf given)
                 /\ numOf given <> Fin 0 /\ numOf given <> NaN
            else old = old).
  { intros old [[q| | |]|]; cbn; auto; try (split_and!; congruence).
    destruct (Qeq_bool q 0) eqn:Hq; cbn; [reflexivity|].
    split_and!; try congruence. intros [= ->]. discriminate Hq. }
  unfold updateParameters. cbn.
  split_and!;
    try (match goal with
         | |- context [truthy ?g] =>
             let H := fresh in
             pose proof (Hfield (Fin 0) g) as H;
             destruct (truthy g); [exact H | reflexivity]
         end).
  destruct (truthy (params_minProfitThreshold params)),
    (truthy (params_maxPriceImpact params)),
    (truthy (params_gasPrice params)),
    (truthy (params_priorityFee params)),
    (truthy (params_flashLoanFee params)); reflexivity.
Qed.

End ScannerParameters.

Lemma scanPath_legs_follow_path_witness :
  fst (ArbitrageScanner.scanPath Scenario.showNum ArbitrageScanner.new
         (Scenario.wbnb_usdt_btcb Scenario.v2_venues) None
         (Scenario.fresh_fetcher Scenario.linear_provider))
  = Some Scenario.scanned_opportunity
  /\ ArbitrageScanner.finalAmount Scenario.scanned_opportunity
     = default (ArbitrageScanner.flashLoanAmount Scenario.scanned_opportunity)
               (ArbitrageScanner.amountOut
                  <$> last (ArbitrageScanner.swapDetails
                              Scenario.scanned_opportunity)).
Proof.
  set (r := ArbitrageScanner.scanPath Scenario.showNum ArbitrageScanner.new
              (Scenario.wbnb_usdt_btcb Scenario.v2_venues) None
              (Scenario.fresh_fetcher Scenario.linear_provider)).
  assert (Hfst : fst r = Some Scenario.scanned_opportunity)
    by (vm_compute; reflexivity).
  split; [exact Hfst|].
  assert (Hr : r = (Some Scenario.scanned_opportunity, snd r)).
  { rewrite (surjective_pairing r) at 1. now rewrite Hfst. }
  exact (proj1 (scanPath_legs_follow_path Scenario.showNum _ _ _ _ _ _ Hr)).
Defined.


(** ** Cost model: the numerical scenario *)

Section Costs.

Import ArbitrageScanner Spec Scenario.
Import PathGenerator (Path, tokens, dexes, hops, flashLoanAsset, isCircular,
                      liquidityScore, opt_eqb).

Variable toString : num -> string.

(** On a 3-hop path from WBNB the loan is 10 WBNB doubled, then multiplied by
    1.5 or 0.7 or left as it is, depending on the liquidity score: never
    10 WBNB. *)
Lemma three_hop_WBNB_loan (p : Path) :
  flashLoanAsset p = "WBNB"%string ->
  hops p = 3 ->
  calculateOptimalFlashLoanAmount p
  = BigNumber (if 50 <=? liquidityScore p then Fin 30
               else if liquidityScore p <? 30 then Fin 14
               else Fin 20).
Proof.
  intros Hasset Hhops.
  unfold calculateOptimalFlashLoanAmount. rewrite Hasset, Hhops. cbv zeta.
  destruct (50 <=? liquidityScore p); [reflexivity|].
  destruct (liquidityScore p <? 30); reflexivity.
Qed.


(** The costs of the path for a loan of 10 WBNB, were the scanner to borrow
    that, at 4 gwei: the fee is 0.009 WBNB and the gas cost 0.00312 WBNB,
    which leave 0.03788 WBNB, 0.3788% of the loan, of a gross profit of
    0.05 WBNB. *)
Example calculateTotalCosts_at_10_WBNB :
  let costs := calculateTotalCosts scanner_4_gwei (wbnb_usdt_btcb v2_venues)
                                   (Fin 10) in
  let net := Num.sub (fin (5 # 100)) (costs_total costs) in
  costs_flashLoanFee costs = fin (9 # 1000)
  /\ costs_gasCost costs = fin (312 # 100000)
  /\ net = fin (3788 # 100000)
  /\ Num.mul (bn_div net (Fin 10)) (Fin 100) = fin (3788 # 10000)
  /\ estimateGasCost new (wbnb_usdt_btcb v2_venues) = fin (546 # 100000)
  /\ estimateGasCost new (wbnb_usdt_btcb v3_venues) = fin (651 # 100000).
Proof. vm_compute. repeat split. Qed.



End Costs.


(** ** Slippage of freshly quoted legs *)

Section FreshQuotes.

Import ArbitrageScanner Spec.
Import PathGenerator (Path, tokens, dexes, hops, flashLoanAsset, isCircular,
                      liquidityScore, opt_eqb).

Variable toString : num -> string.

Lemma getPrice_freshly_fetched (dex tokenIn tokenOut : string)
    (amountIn : Provider.Amount) (f : PriceFetcher.t) :
  freshly_fetched f dex tokenIn tokenOut amountIn = true ->
  PriceFetcher.getPrice dex tokenIn tokenOut amountIn f
  = PriceFetcher.fetchPrice
      (PriceFetcher.cacheKey dex tokenIn tokenOut amountIn)
      dex tokenIn tokenOut amountIn f.
Proof.
  unfold freshly_fetched, PriceFetcher.getPrice, bind, gets. cbv zeta.
  destruct (PriceFetcher.priceCache f !! _) as [cached|]; [|reflexivity].
  destruct (_ <? _); [discriminate | reflexivity].
Qed.

(** The legs the hop loop appends do not depend on those it starts with. *)
Lemma swapLoop_acc (s : t) (p : Path) (prices : option Snapshot)
    (remaining : list string) :
  forall (i : nat) (amount : Provider.Amount) (token : option string)
         (acc : list SwapDetail) (f : PriceFetcher.t),
    swapLoop toString s p prices remaining i amount token acc f
    = match swapLoop toString s p prices remaining i amount token [] f with
      | (Some (amount', token', legs), f') =>
          (Some (amount', token', acc ++ legs), f')
      | (None, f') => (None, f')
      end.
Proof.
  induction remaining as [|dex rest IH]; intros i amount token acc f.
  - cbn. unfold ret. now rewrite app_nil_r.
  - cbn [swapLoop]. unfold bind.
    match goal with
    | |- (let (_, _) := ?m in _) = _ => destruct m as [[priceData|] f2]
    end; [|reflexivity].
    destruct (calculatePriceImpact _ _ _ _ f2) as [impact f3].
    match goal with
    | |- (if ?c then _ else _) _ = _ => destruct c
    end; [reflexivity|].
    rewrite (IH _ _ _ (acc ++ _)), (IH _ _ _ ([] ++ _)).
    destruct (swapLoop toString s p prices rest _ _ _ [] f3)
      as [[[[amount' token'] legs]|] f'];
      [|reflexivity].
    now rewrite app_assoc.
Qed.

(** One hop, then the rest of the loop. *)
Lemma swapLoop_step (s : t) (p : Path) (prices : option Snapshot)
    (dex : string) (rest : list string) (i : nat) (amount : Provider.Amount)
    (token : option string) (f : PriceFetcher.t) :
  swapLoop toString s p prices (dex :: rest) i amount token [] f
  = match swapLoop toString s p prices [dex] i amount token [] f with
    | (Some (amountOut, nextToken, leg), f1) =>
        match swapLoop toString s p prices rest (S i)
                       (amountOf toString amountOut) nextToken [] f1 with
        | (Some (amount', token', legs), f') =>
            (Some (amount', token', leg ++ legs), f')
        | (None, f') => (None, f')
        end
    | (None, f1) => (None, f1)
    end.
Proof.
  cbn [swapLoop]. unfold bind.
  match goal with
  | |- (let (_, _) := ?m in _) = _ => destruct m as [[priceData|] f2]
  end; [|reflexivity].
  destruct (calculatePriceImpact _ _ _ _ f2) as [impact f3].
  match goal with
  | |- (if ?c then _ else _) _ = _ => destruct c
  end; [reflexivity|].
  unfold ret. cbn [Provider.value amountOf].
  now rewrite swapLoop_acc.
Qed.

(** The leg of a hop whose quote is freshly fetched carries the price of
    its own amounts. *)
Lemma swapLoop_fresh_leg (s : t) (p : Path) (dex : string) (i : nat)
    (amount : Provider.Amount) (token : option string) (f f1 : PriceFetcher.t)
    (amountOut' : num) (nextToken : option string) (leg : list SwapDetail) :
  freshly_fetched f dex (js_str (getTokenAddress token))
                  (js_str (getTokenAddress (tokens p !! S i))) amount = true ->
  swapLoop toString s p None [dex] i amount token [] f
  = (Some (amountOut', nextToken, leg), f1) ->
  exists d,
    leg = [d]
    /\ price d = bn_div (amountOut d) (amountIn d)
    /\ slippage d = calculateSlippage (amountIn d) (amountOut d) (price d).
Proof.
  intros Hfresh. cbn [swapLoop]. unfold bind.
  rewrite (getPrice_freshly_fetched _ _ _ _ _ Hfresh).
  destruct (PriceFetcher.fetchPrice _ _ _ _ _ f) as [[priceData|] f2] eqn:Hfetch;
    [|discriminate].
  apply fetchPrice_success in Hfetch as (_ & _ & _ & _ & Hprice & _).
  destruct (calculatePriceImpact _ _ _ _ f2) as [impact f3].
  match goal with
  | |- (if ?c then _ else _) _ = _ -> _ => destruct c
  end; [discriminate|].
  unfold ret. intros [= _ _ <- _].
  eexists. split; [reflexivity|]. cbn. split; [exact Hprice | reflexivity].
Qed.

(** The legs of a run of the hop loop every quote of which is freshly
    fetched. *)
Lemma swapLoop_freshly_quoted (s : t) (p : Path) (remaining : list string) :
  forall (i : nat) (amount : Provider.Amount) (token : option string)
         (f f' : PriceFetcher.t) (amount' : num) (token' : option string)
         (legs : list SwapDetail),
    swapLoop toString s p None remaining i amount token [] f
    = (Some (amount', token', legs), f') ->
    freshly_quoted toString s p remaining i amount token f = true ->
    Forall (fun d => price d = bn_div (amountOut d) (amountIn d)
                     /\ slippage d
                        = calculateSlippage (amountIn d) (amountOut d) (price d))
           legs.
Proof.
  induction remaining as [|dex rest IH];
    intros i amount token f f' amount' token' legs Hloop Hfresh.
  - cbn in Hloop. unfold ret in Hloop. injection Hloop as _ _ <- _.
    constructor.
  - rewrite swapLoop_step in Hloop. cbn [freshly_quoted] in Hfresh.
    apply andb_true_iff in Hfresh as [Hfirst Hrest].
    destruct (swapLoop toString s p None [dex] i amount token [] f)
      as [[[[amountOut' nextToken] leg]|] f1] eqn:Hhop; [|discriminate].
    destruct (swapLoop_fresh_leg _ _ _ _ _ _ _ _ _ _ _ Hfirst Hhop)
      as (d & -> & Hd).
    destruct (swapLoop toString s p None rest _ _ _ [] f1)
      as [[[[amount2 token2] legs2]|] f2] eqn:Hloop2; [|discriminate].
    injection Hloop as _ _ <- _.
    constructor; [exact Hd|]. eapply IH; eauto.
Qed.

(** C10 (amended).  For an opportunity [scanPath] returns without a price
    snapshot, every leg of which is built from a freshly fetched quote: the
    price of each leg is the [amountOut / amountIn] of the quantities its
    slippage is computed from, so that the slippage is exactly zero when
    that price is a nonzero finite number, and NaN otherwise (a zero
    output, or a zero input); it exceeds neither 1 nor 2, and the slippage
    penalties of the confidence score and the slippage bucket of the risk
    score contribute nothing. *)
Theorem C10_fresh_quote_slippage (s : t) (p : Path) (f f' : PriceFetcher.t)
    (o : Opportunity) :
  scanPath toString s p None f = (Some o, f') ->
  freshly_quoted toString s p (dexes p) 0
                 (amountOf toString (flashLoanAmount o)) (head (tokens p)) f
  = true ->
  Forall (fun d => price d = bn_div (amountOut d) (amountIn d)
                   /\ slippage d
                      = (if nonzero_finite (price d) then Fin 0 else NaN)
                   /\ gtb (slippage d) (Fin 1) = false
                   /\ gtb (slippage d) (Fin 2) = false)
         (swapDetails o)
  /\ slippagePenalties (maxSlippageOf o) = []
  /\ slippageBucket (maxSlippageOf o) = 0
  /\ confidence o = Some (confidence_with roiPenalties (fun _ => []) o)
  /\ riskLevel o
     = Some (classify (priceImpactBucket (maxPriceImpactOf o)
                       + hopBucket (totalHops o)
                       + roiBucket (numOf (netROI o)))).
Proof.
  intros Hscan Hfresh.
  pose proof (scanPath_scored toString s p None f f' o Hscan)
    as [Hconfidence Hrisk].
  apply scanPath_legs in Hscan as (amount' & token' & f0 & Hloop & _ & _).
  pose proof (swapLoop_freshly_quoted _ _ _ _ _ _ _ _ _ _ _ Hloop Hfresh)
    as Hlegs.
  assert (Hall : Forall (fun d =>
                   price d = bn_div (amountOut d) (amountIn d)
                   /\ slippage d
                      = (if nonzero_finite (price d) then Fin 0 else NaN))
                 (swapDetails o)).
  { eapply Forall_impl; [exact Hlegs|]. cbn. intros d [Hprice Hslip].
    split; [exact Hprice|]. rewrite Hslip, Hprice.
    apply calculateSlippage_own_price. }
  assert (Hzero : Forall (fun d => slippage d = Fin 0 \/ slippage d = NaN)
                         (swapDetails o)).
  { eapply Forall_impl; [exact Hall|]. cbn. intros d [_ ->].
    destruct (nonzero_finite _); auto. }
  destruct (no_slippage_penalty _ Hzero) as [Hpenalty Hbucket].
  fold (maxSlippageOf o) in Hpenalty, Hbucket.
  split_and!.
  - apply Forall_forall. intros d Hd.
    pose proof (proj1 (Forall_forall _ _) Hall d Hd) as [Hprice Hslip].
    pose proof (proj1 (Forall_forall _ _) Hzero d Hd) as Hcase.
    split_and!; [exact Hprice | exact Hslip | |];
      (apply zero_or_NaN_not_above; [exact Hcase | lra]).
  - exact Hpenalty.
  - exact Hbucket.
  - rewrite Hconfidence, calculateConfidenceScore_formula.
    unfold confidence_formula, confidence_with. cbv zeta.
    now rewrite Hpenalty.
  - rewrite Hrisk, calculateRiskLevel_classify, Hbucket, Z.add_0_r.
    reflexivity.
Qed.

End FreshQuotes.

Lemma C10_fresh_quote_slippage_witness :
  fst (ArbitrageScanner.scanPath Scenario.showNum ArbitrageScanner.new
         (Scenario.wbnb_usdt_btcb Scenario.v2_venues) None
         (Scenario.fresh_fetcher Scenario.linear_provider))
  = Some Scenario.scanned_opportunity
  /\ Spec.freshly_quoted Scenario.showNum ArbitrageScanner.new
       (Scenario.wbnb_usdt_btcb Scenario.v2_venues)
       (PathGenerator.dexes (Scenario.wbnb_usdt_btcb Scenario.v2_venues)) 0
       (ArbitrageScanner.amountOf Scenario.showNum
          (ArbitrageScanner.flashLoanAmount Scenario.scanned_opportunity))
       (head (PathGenerator.tokens (Scenario.wbnb_usdt_btcb Scenario.v2_venues)))
       (Scenario.fresh_fetcher Scenario.linear_provider) = true
  /\ Spec.slippagePenalties (Spec.maxSlippageOf Scenario.scanned_opportunity)
     = [].
Proof.
  set (r := ArbitrageScanner.scanPath Scenario.showNum ArbitrageScanner.new
              (Scenario.wbnb_usdt_btcb Scenario.v2_venues) None
              (Scenario.fresh_fetcher Scenario.linear_provider)).
  assert (Hfst : fst r = Some Scenario.scanned_opportunity)
    by (vm_compute; reflexivity).
  assert (Hfresh : Spec.freshly_quoted Scenario.showNum ArbitrageScanner.new
       (Scenario.wbnb_usdt_btcb Scenario.v2_venues)
       (PathGenerator.dexes (Scenario.wbnb_usdt_btcb Scenario.v2_venues)) 0
       (ArbitrageScanner.amountOf Scenario.showNum
          (ArbitrageScanner.flashLoanAmount Scenario.scanned_opportunity))
       (head (PathGenerator.tokens (Scenario.wbnb_usdt_btcb Scenario.v2_venues)))
       (Scenario.fresh_fetcher Scenario.linear_provider) = true)
    by (vm_compute; reflexivity).
  split; [exact Hfst|]. split; [exact Hfresh|].
  assert (Hr : r = (Some Scenario.scanned_opportunity, snd r)).
  { rewrite (surjective_pairing r) at 1. now rewrite Hfst. }
  destruct (C10_fresh_quote_slippage Scenario.showNum _ _ _ _ _ Hr Hfresh)
    as (_ & Hpenalty & _).
  exact Hpenalty.
Defined.

(** ** Orchestrator: delays, counters and executions *)

Section Orchestrator.

Import ArbitrageScanner ArbitrageBot.

Lemma found_above_5_percent (scans found : Z) :
  gtb (ofZ found) (Num.mul (ofZ scans) (Fin (5 # 100))) = (scans <? 20 * found).
Proof.
  unfold gtb, ofZ. cbn [Num.mul]. unfold fin. cbn [ltb].
  rewrite Qltb_Qred_l.
  destruct (Z.ltb_spec scans (20 * found)).
  - apply Qltb_lt. unfold Qlt. cbn. lia.
  - apply Qltb_ge. unfold Qle. cbn. lia.
Qed.

Lemma found_below_1_percent (scans found : Z) :
  ltb (ofZ found) (Num.mul (ofZ scans) (Fin (1 # 100))) = (100 * found <? scans).
Proof.
  unfold ofZ. cbn [Num.mul]. unfold fin. cbn [ltb]. rewrite Qltb_Qred_r.
  destruct (Z.ltb_spec (100 * found) scans).
  - apply Qltb_lt. unfold Qlt. cbn. lia.
  - apply Qltb_ge. unfold Qle. cbn. lia.
Qed.

(** The delay in closed form: the two adjustments exclude each other. *)
Lemma calculateScanDelay_cases (b : t) :
  calculateScanDelay b
  = if totalScans (stats b) <? 20 * circularOpportunitiesFound (stats b)
    then Fin 4500
    else if (50 <? totalScans (stats b))
            && (100 * circularOpportunitiesFound (stats b)
                <? totalScans (stats b))
    then Fin 2400
    else Fin 3000.
Proof.
  unfold calculateScanDelay. cbv zeta.
  rewrite found_above_5_percent, found_below_1_percent.
  destruct (Z.ltb_spec (totalScans (stats b))
                       (20 * circularOpportunitiesFound (stats b)));
    destruct (Z.ltb_spec 50 (totalScans (stats b)));
    destruct (Z.ltb_spec (100 * circularOpportunitiesFound (stats b))
                         (totalScans (stats b)));
    cbn [andb]; try reflexivity; lia.
Qed.

(** X23.  The delay after a successful scan is 4500 ms when more than 5% of the
    scans found an opportunity, 2400 ms when more than 50 scans found fewer
    than 1%, and 3000 ms otherwise; the floor of 2000 ms is never what
    decides. *)
Theorem calculateScanDelay_values (b : t) :
  let found := circularOpportunitiesFound (stats b) in
  let scans := totalScans (stats b) in
  calculateScanDelay b
  = (if scans <? 20 * found then Fin 4500
     else if (50 <? scans) && (100 * found <? scans) then Fin 2400
     else Fin 3000)
  /\ ltb (calculateScanDelay b) (Fin 2400) = false
  /\ gtb (calculateScanDelay b) (Fin 4500) = false.
Proof.
  cbv zeta. rewrite calculateScanDelay_cases.
  split; [reflexivity|].
  repeat case_match; split; reflexivity.
Qed.

Lemma calculateScanDelay_in_range (b : t) :
  exists z : Z, calculateScanDelay b = ofZ z /\ 2000 <= z <= 16000.
Proof.
  rewrite calculateScanDelay_cases.
  repeat case_match;
    [exists 4500 | exists 2400 | exists 3000]; (split; [reflexivity | lia]).
Qed.

Lemma scanLoop_from_delays (outcomes : list CycleOutcome) :
  forall (b : t) (k : Z) (ds : list num),
    0 <= k < maxConsecutiveErrors ->
    Forall (fun d => exists z : Z, d = ofZ z /\ 2000 <= z <= 16000) ds ->
    let '(b', k', ds') := scanLoop_from outcomes b k ds in
    Forall (fun d => exists z : Z, d = ofZ z /\ 2000 <= z <= 16000) ds'
    /\ 0 <= k' <= maxConsecutiveErrors
    /\ (k' = maxConsecutiveErrors -> isRunning b' = false).
Proof.
  unfold maxConsecutiveErrors.
  induction outcomes as [|outcome rest IH]; intros b k ds Hk Hds;
    cbn [scanLoop_from].
  - split; [exact Hds|]. split; lia.
  - destruct (isRunning b); cbn [negb]; [|split; [exact Hds|]; split; lia].
    destruct outcome as [found| |].
    + apply IH; [lia|]. apply Forall_app. split; [exact Hds|].
      apply Forall_cons. split; [apply calculateScanDelay_in_range|constructor].
    + unfold maxConsecutiveErrors.
      destruct (Z.leb_spec 5 (k + 1)).
      * split; [exact Hds|]. split; [lia|]. reflexivity.
      * apply IH; [lia|]. apply Forall_app. split; [exact Hds|].
        apply Forall_cons. split; [|constructor].
        eexists. split; [reflexivity|].
        assert (Hcase : k = 0 \/ k = 1 \/ k = 2 \/ k = 3) by lia.
        destruct Hcase as [-> | [-> | [-> | ->]]]; cbn; lia.
    + specialize (IH (stop b) k ds Hk Hds).
      destruct (scanLoop_from rest (stop b) k ds) as [[b' k'] ds']. exact IH.
Qed.

(** X24.  Every pause of the scan loop lasts between 2 and 16 seconds: the cap of
    30 seconds on the error delay is never reached, because the fifth
    consecutive error stops the loop instead of sleeping. *)
Theorem scanLoop_delays_bounded (outcomes : list CycleOutcome) (b : t) :
  let '(b', k, delays) := scanLoop outcomes b in
  Forall (fun d => exists z : Z, d = ofZ z /\ 2000 <= z <= 16000) delays
  /\ 0 <= k <= maxConsecutiveErrors
  /\ (k = maxConsecutiveErrors -> isRunning b' = false).
Proof.
  unfold scanLoop.
  apply (scanLoop_from_delays outcomes b 0 []);
    [unfold maxConsecutiveErrors; lia | constructor].
Qed.

Lemma scanLoop_from_counters (outcomes : list CycleOutcome) :
  forall (b : t) (k : Z) (ds : list num),
    let '(b', _, ds') := scanLoop_from outcomes b k ds in
    let scans := totalScans (stats b') - totalScans (stats b) in
    currentScanIndex b' - currentScanIndex b = scans
    /\ 0 <= scans <= Z.of_nat (length outcomes)
    /\ (length ds <= length ds' <= length ds + length outcomes)%nat
    /\ config b' = config b.
Proof.
  induction outcomes as [|outcome rest IH]; intros b k ds;
    cbn [scanLoop_from].
  - cbn. split_and!; try reflexivity; lia.
  - destruct (isRunning b); cbn [negb];
      [|cbn; split_and!; try reflexivity; lia].
    destruct outcome as [found| |].
    + match goal with
      | |- context [scanLoop_from rest ?b1 ?k1 ?ds1] =>
          specialize (IH b1 k1 ds1);
          destruct (scanLoop_from rest b1 k1 ds1) as [[b' k'] ds']
      end.
      rewrite length_app in IH. cbn in IH |- *.
      destruct IH as (H1 & H2 & H3 & H4). split_and!; try lia; assumption.
    + destruct (maxConsecutiveErrors <=? k + 1).
      * cbn. split_and!; try reflexivity; lia.
      * match goal with
        | |- context [scanLoop_from rest ?b1 ?k1 ?ds1] =>
            specialize (IH b1 k1 ds1);
            destruct (scanLoop_from rest b1 k1 ds1) as [[b' k'] ds']
        end.
        rewrite length_app in IH. cbn in IH |- *.
        destruct IH as (H1 & H2 & H3 & H4). split_and!; try lia; assumption.
    + specialize (IH (stop b) k ds).
      destruct (scanLoop_from rest (stop b) k ds) as [[b' k'] ds'].
      cbn in IH |- *.
      destruct IH as (H1 & H2 & H3 & H4). split_and!; try lia; assumption.
Qed.

(** X25.  Whatever the cycles do, the scan loop advances [currentScanIndex] by
    exactly the number of scans it adds to [totalScans], at most one per
    cycle; it sleeps at most once per cycle; and it leaves the
    configuration alone. *)
Theorem scanLoop_counters (outcomes : list CycleOutcome) (b : t) :
  let '(b', _, delays) := scanLoop outcomes b in
  let scans := totalScans (stats b') - totalScans (stats b) in
  currentScanIndex b' - currentScanIndex b = scans
  /\ 0 <= scans <= Z.of_nat (length outcomes)
  /\ (length delays <= length outcomes)%nat
  /\ config b' = config b.
Proof.
  unfold scanLoop.
  pose proof (scanLoop_from_counters outcomes b 0 []) as H.
  destruct (scanLoop_from outcomes b 0 []) as [[b' k'] ds'].
  cbn in H |- *. destruct H as (H1 & H2 & H3 & H4).
  split_and!; try lia; assumption.
Qed.

Lemma stop_stopped (b : t) : isRunning b = false -> stop b = b.
Proof. destruct b; cbn. intros ->. reflexivity. Qed.

(** X26.  A call of [stop()] ends the loop: whatever the cycles after it would
    have been, the run is the run up to the call, with the bot stopped. *)
Theorem scanLoop_external_stop (pre post : list CycleOutcome) (b : t) (k : Z)
    (ds : list num) :
  scanLoop_from (pre ++ ExternalStop :: post) b k ds
  = (let '(b', k', ds') := scanLoop_from pre b k ds in (stop b', k', ds')).
Proof.
  revert b k ds. induction pre as [|outcome rest IH]; intros b k ds;
    cbn [app scanLoop_from].
  - destruct (isRunning b) eqn:Hrun; cbn [negb].
    + destruct post; cbn [scanLoop_from]; reflexivity.
    + now rewrite (stop_stopped b Hrun).
  - destruct (isRunning b) eqn:Hrun; cbn [negb];
      [|now rewrite (stop_stopped b Hrun)].
    destruct outcome as [found| |]; try apply IH.
    destruct (maxConsecutiveErrors <=? k + 1); [|apply IH].
    now rewrite (stop_stopped (stop _) eq_refl).
Qed.


(** *** Handling the opportunities of a scan *)

Import Spec (is_execute).

Lemma count_app {A : Type} (f : A -> bool) (xs ys : list A) :
  PathGenerator.count f (xs ++ ys)
  = PathGenerator.count f xs + PathGenerator.count f ys.
Proof.
  unfold PathGenerator.count. rewrite filter_app, length_app. lia.
Qed.

Lemma performSafetyChecks_no_execute (b : t) (o : Opportunity) :
  forallb (fun e => negb (is_execute e)) (snd (performSafetyChecks b o)) = true.
Proof. unfold performSafetyChecks. repeat case_match; reflexivity. Qed.

Lemma performSafetyChecks_ext (b b' : t) (o : Opportunity) :
  config b' = config b -> provider b' = provider b ->
  performSafetyChecks b' o = performSafetyChecks b o.
Proof. intros Hc Hp. unfold performSafetyChecks. now rewrite Hc, Hp. Qed.

Lemma count_no_execute (events : list Event) :
  forallb (fun e => negb (is_execute e)) events = true ->
  PathGenerator.count is_execute events = 0
  /\ forall o, ~ In (Execute o) events.
Proof.
  induction events as [|e rest IH]; cbn [forallb].
  - intros _. split; [reflexivity | intros o []].
  - intros H. apply andb_true_iff in H as [He Hrest].
    destruct (IH Hrest) as [Hcount Hnone]. split.
    + change (e :: rest) with ([e] ++ rest). rewrite count_app, Hcount.
      destruct e; cbn in He |- *; try discriminate; reflexivity.
    + intros o [-> | Hin]; [discriminate He | exact (Hnone o Hin)].
Qed.

(** One call of [executeFlashLoanArbitrage]: what it may change and what
    it may execute. *)
Lemma executeFlashLoanArbitrage_frame (b : t) (o : Opportunity) :
  let '(b', events) := executeFlashLoanArbitrage b o in
  config b' = config b /\ provider b' = provider b
  /\ totalScans (stats b') = totalScans (stats b)
  /\ circularOpportunitiesFound (stats b')
     = circularOpportunitiesFound (stats b)
  /\ PathGenerator.count is_execute events <= 1
  /\ 0 <= flashLoanExecutions (stats b') - flashLoanExecutions (stats b)
       <= PathGenerator.count is_execute events
  /\ (forall o', In (Execute o') events ->
        o' = o /\ fst (performSafetyChecks b o) = true).
Proof.
  unfold executeFlashLoanArbitrage.
  pose proof (performSafetyChecks_no_execute b o) as Hno.
  destruct (performSafetyChecks b o) as [ok checks]. cbn [fst snd] in *.
  destruct (count_no_execute checks Hno) as [Hcount Hnone].
  assert (Hin : forall (tail : list Event) o',
            In (Execute o') (checks ++ tail) -> In (Execute o') tail).
  { intros tail o' H. apply in_app_iff in H as [H | H]; [|exact H].
    destruct (Hnone o' H). }
  assert (Hone : forall m, PathGenerator.count is_execute
                             [Execute o; Console m] = 1) by reflexivity.
  assert (Hzero : forall m, PathGenerator.count is_execute [Console m] = 0)
    by reflexivity.
  destruct ok; cbn [negb].
  - destruct (executor b o) as [result|]; [destruct (success result)|];
      rewrite count_app, Hcount, Hone; cbn; split_and!;
      try reflexivity; try lia;
      intros o' H; apply Hin in H; cbn in H; destruct H as [H | [H | []]];
      try discriminate H; inversion H; auto.
  - rewrite count_app, Hcount, Hzero. cbn. split_and!;
      try reflexivity; try lia.
    intros o' H. apply Hin in H. cbn in H. destruct H as [H | []].
    discriminate H.
Qed.

Lemma processOpportunities_spec (opportunities : list Opportunity) :
  forall b : t,
    let '(b', events, _) := processOpportunities opportunities b in
    config b' = config b /\ provider b' = provider b
    /\ totalScans (stats b') = totalScans (stats b)
    /\ circularOpportunitiesFound (stats b')
       = circularOpportunitiesFound (stats b)
    /\ PathGenerator.count is_execute events
       <= Z.of_nat (length opportunities)
    /\ 0 <= flashLoanExecutions (stats b') - flashLoanExecutions (stats b)
         <= PathGenerator.count is_execute events
    /\ (forall o, In (Execute o) events ->
          In o opportunities
          /\ (exists roi, netROI o = Some roi
                          /\ worthExecuting b roi o = true)
          /\ fst (performSafetyChecks b o) = true).
Proof.
  induction opportunities as [|o rest IH]; intros b;
    cbn [processOpportunities].
  - cbn. change (PathGenerator.count is_execute []) with 0.
    split_and!; try reflexivity; lia.
  - destruct (profitAfterCosts o) as [pac|];
      [|cbn; change (PathGenerator.count is_execute []) with 0;
        split_and!; try reflexivity; lia].
    destruct (netROI o) as [roi|] eqn:Hroi;
      [|cbn; change (PathGenerator.count is_execute []) with 0;
        split_and!; try reflexivity; lia].
    destruct (worthExecuting b roi o) eqn:Hworth.
    + pose proof (executeFlashLoanArbitrage_frame b o) as Hexec.
      destruct (executeFlashLoanArbitrage b o) as [b1 events1].
      destruct Hexec as (Hc1 & Hp1 & Hs1 & Hf1 & Hn1 & He1 & Hin1).
      specialize (IH b1).
      destruct (processOpportunities rest b1) as [[b2 events2] c].
      destruct IH as (Hc2 & Hp2 & Hs2 & Hf2 & Hn2 & He2 & Hin2).
      rewrite count_app. cbn [length]. rewrite Nat2Z.inj_succ.
      split_and!; try congruence; try lia.
      intros o' H. apply in_app_iff in H as [H | H].
      * apply Hin1 in H as [-> Hgate].
        split; [now left|]. split; [eauto | exact Hgate].
      * apply Hin2 in H as (Hrest & (roi' & Hroi' & Hworth') & Hgate).
        split; [now right|]. split.
        -- exists roi'. split; [exact Hroi'|].
           unfold worthExecuting in *. now rewrite <- Hc1.
        -- now rewrite <- (performSafetyChecks_ext b b1).
    + specialize (IH b).
      destruct (processOpportunities rest b) as [[b2 events2] c].
      destruct IH as (Hc2 & Hp2 & Hs2 & Hf2 & Hn2 & He2 & Hin2).
      rewrite count_app. cbn [length]. rewrite Nat2Z.inj_succ.
      change (PathGenerator.count is_execute [Console "Skipping"]) with 0.
      split_and!; try congruence; try lia.
      intros o' H. apply in_app_iff in H as [[H | []] | H];
        [discriminate H|].
      apply Hin2 in H as (Hrest & Hw & Hgate).
      split; [now right | auto].
Qed.

(** X27.  A scan that found opportunities counts all of them, looks at the first
    three only, and so starts at most three executions; the execution
    counter grows by no more than the executions started, and the scan
    counter is left alone. *)
Theorem scan_executes_at_most_three (opportunities : list Opportunity)
    (b : t) :
  let '(b', events, _) := scanForCircularOpportunities_found opportunities b in
  PathGenerator.count is_execute events <= 3
  /\ 0 <= flashLoanExecutions (stats b') - flashLoanExecutions (stats b)
       <= PathGenerator.count is_execute events
  /\ circularOpportunitiesFound (stats b')
     = circularOpportunitiesFound (stats b) + Z.of_nat (length opportunities)
  /\ totalScans (stats b') = totalScans (stats b).
Proof.
  unfold scanForCircularOpportunities_found.
  destruct (Nat.ltb_spec 0 (length opportunities)) as [Hlen | Hlen].
  - match goal with
    | |- context [processOpportunities ?l ?b1] =>
        pose proof (processOpportunities_spec l b1) as H;
        destruct (processOpportunities l b1) as [[b' events] c]
    end.
    destruct H as (_ & _ & Hs & Hf & Hn & He & _).
    rewrite length_take in Hn. cbn in Hs, Hf, He.
    split_and!; lia.
  - destruct opportunities; [|cbn in Hlen; lia]. cbn.
    change (PathGenerator.count is_execute [Console _]) with 0.
    split_and!; lia.
Qed.

(** X28.  Every opportunity a scan hands to the executor is one of its first
    three, has a net ROI strictly above the configured minimum, a risk level
    other than HIGH and a confidence strictly above 60, and has passed the
    safety checks. *)
Theorem scan_executes_only_vetted (opportunities : list Opportunity) (b : t)
    (o : Opportunity) :
  In (Execute o) (snd (fst (scanForCircularOpportunities_found
                              opportunities b))) ->
  In o (take 3 opportunities)
  /\ (exists roi, netROI o = Some roi
                  /\ gtb roi (minProfitPercent (config b)) = true)
  /\ riskLevel o <> Some HIGH
  /\ gtb (numOf (confidence o)) (Fin 60) = true
  /\ fst (performSafetyChecks b o) = true.
Proof.
  unfold scanForCircularOpportunities_found.
  destruct (0 <? length opportunities)%nat;
    [|cbn; intros [H | []]; discriminate H].
  match goal with
  | |- context [processOpportunities ?l ?b1] =>
      pose proof (processOpportunities_spec l b1) as H;
      destruct (processOpportunities l b1) as [[b' events] c]
  end.
  destruct H as (_ & _ & _ & _ & _ & _ & Hin). cbn [fst snd].
  intros Ho. apply Hin in Ho as (Htake & (roi & Hroi & Hworth) & Hgate).
  unfold worthExecuting in Hworth. cbn [config set_stats] in Hworth.
  apply andb_true_iff in Hworth as [Hworth Hconf].
  apply andb_true_iff in Hworth as [Hgt Hrisk].
  split; [exact Htake|]. split; [eauto|].
  split; [intros Hhigh; rewrite Hhigh in Hrisk; discriminate|].
  split; [exact Hconf|].
  exact Hgate.
Qed.

End Orchestrator.

Lemma scan_executes_only_vetted_witness :
  In (ArbitrageBot.Execute Scenario.vetted_opportunity)
     (snd (fst (ArbitrageBot.scanForCircularOpportunities_found
                  [Scenario.vetted_opportunity] Scenario.running_bot)))
  /\ ArbitrageScanner.riskLevel Scenario.vetted_opportunity
     <> Some ArbitrageScanner.HIGH
  /\ gtb (ArbitrageScanner.numOf
            (ArbitrageScanner.confidence Scenario.vetted_opportunity))
         (Fin 60) = true.
Proof.
  assert (H : In (ArbitrageBot.Execute Scenario.vetted_opportunity)
                 (snd (fst (ArbitrageBot.scanForCircularOpportunities_found
                              [Scenario.vetted_opportunity]
                              Scenario.running_bot)))).
  { vm_compute. right. right. left. reflexivity. }
  split; [exact H|].
  destruct (scan_executes_only_vetted _ _ _ H) as (_ & _ & Hrisk & Hconf & _).
  split; [exact Hrisk | exact Hconf].
Defined.

(** ** Executor: amounts and addresses *)

Section Executor.

Import ArbitrageScanner FlashLoanExecutor.

(** X29.  The amount the executor borrows is 10, 20, 30 or 50 units, whatever
    the asset; for a path whose flash-loan asset is not WBNB it is never
    the amount the scanner computes the opportunity with. *)
Theorem calculateOptimalAmount_not_the_scanned_loan (o : Opportunity)
    (p : PathGenerator.Path) :
  PathGenerator.flashLoanAsset p <> "WBNB"%string ->
  In (calculateOptimalAmount o) [Fin 10; Fin 20; Fin 30; Fin 50]
  /\ BigNumber (calculateOptimalAmount o) <> calculateOptimalFlashLoanAmount p.
Proof.
  intros Hasset.
  assert (Hexec : In (calculateOptimalAmount o)
                     [Fin 10; Fin 20; Fin 30; Fin 50]).
  { unfold calculateOptimalAmount. cbv zeta. repeat case_match; cbn; tauto. }
  split; [exact Hexec|].
  assert (Hown : forall base : num,
            In base [Fin 3000; Fin (1 # 10); Fin (3 # 2); Fin 1000; Fin 1] ->
            let baseAmount := BigNumber base in
            let baseAmount :=
              if PathGenerator.hops p <=? 3
              then multipliedBy baseAmount (Fin 2)
              else if 6 <=? PathGenerator.hops p
                   then multipliedBy baseAmount (Fin (1 # 2))
                   else baseAmount in
            let baseAmount :=
              if 50 <=? PathGenerator.liquidityScore p
              then multipliedBy baseAmount (Fin (3 # 2))
              else if PathGenerator.liquidityScore p <? 30
                   then multipliedBy baseAmount (Fin (7 # 10))
                   else baseAmount in
            BigNumber (calculateOptimalAmount o) <> baseAmount).
  { intros base Hbase. cbv zeta.
    destruct (PathGenerator.hops p <=? 3);
      [|destruct (6 <=? PathGenerator.hops p)];
      (destruct (50 <=? PathGenerator.liquidityScore p);
       [|destruct (PathGenerator.liquidityScore p <? 30)]);
      cbn [multipliedBy]; intros [= Heq]; revert Heq;
      cbn [In] in Hbase, Hexec;
      destruct Hbase as [<- | [<- | [<- | [<- | [<- | []]]]]];
      destruct Hexec as [<- | [<- | [<- | [<- | []]]]];
      vm_compute; discriminate. }
  unfold calculateOptimalFlashLoanAmount, property. cbv zeta. cbn [get].
  destruct (String.eqb_spec "WBNB" (PathGenerator.flashLoanAsset p))
    as [Heq | _]; [now symmetry in Heq|].
  destruct (String.eqb_spec "USDT" (PathGenerator.flashLoanAsset p))
    as [_ | _]; [apply Hown; cbn; tauto|].
  destruct (String.eqb_spec "USDC" (PathGenerator.flashLoanAsset p))
    as [_ | _]; [apply Hown; cbn; tauto|].
  destruct (String.eqb_spec "BTCB" (PathGenerator.flashLoanAsset p))
    as [_ | _]; [apply Hown; cbn; tauto|].
  destruct (String.eqb_spec "ETH" (PathGenerator.flashLoanAsset p))
    as [_ | _]; [apply Hown; cbn; tauto|].
  destruct (String.eqb_spec "CAKE" (PathGenerator.flashLoanAsset p))
    as [_ | _]; [apply Hown; cbn; tauto|].
  destruct (inherited (PathGenerator.flashLoanAsset p));
    [|apply Hown; cbn; tauto].
  destruct (PathGenerator.hops p <=? 3), (6 <=? PathGenerator.hops p),
    (50 <=? PathGenerator.liquidityScore p),
    (PathGenerator.liquidityScore p <? 30); discriminate.
Qed.

(** X30.  The executor and the scanner agree on the address of every configured
    token.  For the name of a member of [Object.prototype] the executor
    returns that member and the scanner [undefined]; for any other symbol
    the executor falls back to the address of WBNB, where the scanner
    passes the symbol through. *)
Theorem getAssetAddress_agrees_with_scanner (symbol : string) :
  getAssetAddress symbol
  = match get TOKEN_ADDRESSES symbol with
    | Some token => Value (address token)
    | None => if inherited symbol then Member symbol
              else Value PriceFetcher.WBNB
    end
  /\ getTokenAddress (Some symbol)
     = match get TOKEN_ADDRESSES symbol with
       | Some token => Some (address token)
       | None => if inherited symbol then None else Some symbol
       end.
Proof.
  unfold getAssetAddress, getTokenAddress, property, TOKEN_ADDRESSES, tok.
  cbn [get].
  destruct (String.eqb_spec "WBNB" symbol) as [<- | _]; [now split|].
  destruct (String.eqb_spec "USDT" symbol) as [<- | _]; [now split|].
  destruct (String.eqb_spec "USDC" symbol) as [<- | _]; [now split|].
  destruct (String.eqb_spec "BTCB" symbol) as [<- | _]; [now split|].
  destruct (String.eqb_spec "ETH" symbol) as [<- | _]; [now split|].
  destruct (String.eqb_spec "CAKE" symbol) as [<- | _]; [now split|].
  destruct (inherited symbol); now split.
Qed.

(** The two lookups at the name [constructor] and at an unknown symbol. *)
Example getAssetAddress_members :
  getAssetAddress "constructor" = Member "constructor"%string
  /\ getTokenAddress (Some "constructor"%string) = None
  /\ getAssetAddress "DOGE" = Value PriceFetcher.WBNB
  /\ getTokenAddress (Some "DOGE"%string) = Some "DOGE"%string
  /\ getDexId "valueOf" = Member "valueOf"%string
  /\ getDexId "BISWAP" = Value 2
  /\ getDexId "SUSHI" = Value 0.
Proof. split_and!; reflexivity. Qed.

End Executor.

Lemma calculateOptimalAmount_not_the_scanned_loan_witness :
  PathGenerator.flashLoanAsset (Scenario.usdt_wbnb_btcb Scenario.v2_venues)
  <> "WBNB"%string
  /\ ArbitrageScanner.BigNumber
       (FlashLoanExecutor.calculateOptimalAmount Scenario.scanned_opportunity)
     <> ArbitrageScanner.calculateOptimalFlashLoanAmount
          (Scenario.usdt_wbnb_btcb Scenario.v2_venues).
Proof.
  assert (H : PathGenerator.flashLoanAsset
                (Scenario.usdt_wbnb_btcb Scenario.v2_venues)
              <> "WBNB"%string) by (vm_compute; discriminate).
  split; [exact H|].
  apply (calculateOptimalAmount_not_the_scanned_loan
           Scenario.scanned_opportunity _ H).
Defined.
